(** * calculate_coverage.py: line coverage of a filtered set of source files

    A shallow embedding of [scripts/calculate_coverage.py] and the proofs of
    its specification.

    Conventions of the embedding.

    - A Python [int] is a [Z]; a Python [float] is an IEEE 754 binary64 value,
      modelled by [spec_float] with the operations of [SpecFloat] at
      precision 53 and maximal exponent 1024 (round to nearest, ties to even).
    - A Python [str] is a [string]; the class [\d] of the two regular
      expressions is the ASCII digits.
    - A Python [dict] is an association list in insertion order, which is the
      order [dict.items()] iterates in.
    - Everything the script obtains from outside (the file system, [json.load],
      the [gcov] subprocess) is read from a [world] record.
    - [print] appends an event to an output log that is threaded through the
      code and survives an exception; an uncaught exception ends the process
      with status 1 after the interpreter has written a traceback to standard
      error. *)

From Stdlib Require Import ZArith List String Ascii Bool Lia DecimalString.
From Stdlib Require Import Permutation.
From Stdlib Require Import QArith Qpower Lqa.
From Stdlib Require Import Floats.SpecFloat.
Import ListNotations.

Open Scope string_scope.
Open Scope Z_scope.

(** ** Python runtime: exceptions, output, and the monad that threads them *)

Module Py.

Inductive exn : Type :=
| OverflowError
| ValueError
| TypeError
| ZeroDivisionError
| OtherException (name : string).

Inductive result (A : Type) : Type :=
| Ok (a : A)
| Raise (e : exn).
Arguments Ok {A} a.
Arguments Raise {A} e.

Definition rbind {A B : Type} (r : result A) (k : A -> result B) : result B :=
  match r with
  | Ok a => k a
  | Raise e => Raise e
  end.

(** The diagnostics of the script, one constructor per [print(..., file=sys.stderr)]
    statement, carrying the values its f-string interpolates. *)
Inductive diag : Type :=
| ErrorReadingCoverage (e : string)
| NoMatchingFiles (filters : list string)
| MatchedSummary (n : nat) (covered total : Z)
| NoGcdaFiles (build_dir : string)
| GcovFailed (gcda_file : string) (e : string)
| MatchedFile (filename : string) (cov total : Z)
| Traceback (e : exn).

Inductive event : Type :=
| Stdout (line : string)
| Stderr (d : diag).

Definition log := list event.

(** A computation reads the log written so far and returns its result with
    the extended log. *)
Definition M (A : Type) : Type := log -> result A * log.

Definition ret {A : Type} (a : A) : M A := fun l => (Ok a, l).

Definition raise {A : Type} (e : exn) : M A := fun l => (Raise e, l).

Definition bind {A B : Type} (m : M A) (k : A -> M B) : M B :=
  fun l =>
    match m l with
    | (Ok a, l') => k a l'
    | (Raise e, l') => (Raise e, l')
    end.

Definition lift {A : Type} (r : result A) : M A := fun l => (r, l).

Definition print_out (line : string) : M unit :=
  fun l => (Ok tt, (l ++ [Stdout line])%list).

Definition print_err (d : diag) : M unit :=
  fun l => (Ok tt, (l ++ [Stderr d])%list).

Fixpoint for_each {A : Type} (f : A -> M unit) (xs : list A) : M unit :=
  match xs with
  | [] => ret tt
  | x :: xs' => bind (f x) (fun _ => for_each f xs')
  end.

Definition stdout_of (l : log) : list string :=
  flat_map (fun ev => match ev with Stdout s => [s] | Stderr _ => [] end) l.

Definition stderr_of (l : log) : list diag :=
  flat_map (fun ev => match ev with Stdout _ => [] | Stderr d => [d] end) l.

(** A computation is quiet when it leaves standard output as it found it,
    whatever its result. *)
Definition quiet {A : Type} (m : M A) : Prop :=
  forall l, stdout_of (snd (m l)) = stdout_of l.

End Py.

Import Py.

Notation "x <- m ;; k" := (bind m (fun x => k))
  (at level 61, m at next level, right associativity).
Notation "m ;;; k" := (bind m (fun _ => k))
  (at level 61, right associativity).

(** ** Strings: [in], [split], [int], and the two regular expressions *)

Module Str.

Definition is_empty (s : string) : bool :=
  match s with
  | EmptyString => true
  | String _ _ => false
  end.

(** [strip_prefix p s] is the rest of [s] after the literal [p], if [s]
    starts with [p]. *)
Fixpoint strip_prefix (p s : string) : option string :=
  match p with
  | EmptyString => Some s
  | String a p' =>
      match s with
      | EmptyString => None
      | String b s' => if Ascii.eqb a b then strip_prefix p' s' else None
      end
  end.

Definition starts_with (p s : string) : bool :=
  match strip_prefix p s with
  | Some _ => true
  | None => false
  end.

(** [p in s] on Python strings: [p] occurs in [s] at some position. *)
Fixpoint str_in (p s : string) : bool :=
  if starts_with p s then true
  else
    match s with
    | EmptyString => false
    | String _ s' => str_in p s'
    end.

(** [s.split('\n')] *)
Fixpoint split_newline (s : string) : list string :=
  match s with
  | EmptyString => [EmptyString]
  | String c s' =>
      if Ascii.eqb c "010"%char then EmptyString :: split_newline s'
      else
        match split_newline s' with
        | l :: ls => String c l :: ls
        | [] => [String c EmptyString]
        end
  end.

(** The class [\d] on the characters of the embedding, the first 256 code
    points: their only decimal digits are [0] to [9]. *)
Definition is_digit (c : ascii) : bool :=
  let n := N_of_ascii c in
  (N.leb 48 n && N.leb n 57)%bool.

(** The longest prefix of characters satisfying [f], and what follows it:
    what a greedy [[...]+] consumes when the next item of the pattern
    cannot match a character of the class. *)
Fixpoint span (f : ascii -> bool) (s : string) : string * string :=
  match s with
  | EmptyString => (EmptyString, EmptyString)
  | String c s' =>
      if f c then let '(run, rest) := span f s' in (String c run, rest)
      else (EmptyString, s)
  end.

Definition digit_value (c : ascii) : Z := Z.of_N (N_of_ascii c) - 48.

Fixpoint digits_value_from (acc : Z) (s : string) : Z :=
  match s with
  | EmptyString => acc
  | String c s' => digits_value_from (10 * acc + digit_value c) s'
  end.

Definition all_digits (s : string) : bool :=
  is_empty (snd (span is_digit s)).

(** [int(s)] for the strings the script passes to it, within the
    interpreter's limit on the number of digits. *)
Definition int_of_string (s : string) : result Z :=
  if (negb (is_empty s) && all_digits s)%bool then Ok (digits_value_from 0 s)
  else Raise ValueError.

(** [file_pattern.match(line)] with [file_pattern = File '([^']+)']: the
    match is anchored at the start of the line; the result is group 1. *)
Definition file_pattern_match (line : string) : option string :=
  match strip_prefix "File '" line with
  | None => None
  | Some rest =>
      let '(name, after) := span (fun c => negb (Ascii.eqb c "'"%char)) rest in
      if is_empty name then None
      else
        match after with
        | String c _ => if Ascii.eqb c "'"%char then Some name else None
        | EmptyString => None
        end
  end.

(** [coverage_pattern] matched at the start of [s], with
    [coverage_pattern = Lines executed:(\d+\.\d+)% of (\d+)]; the result is
    groups 1 and 2. *)
Definition coverage_pattern_at (s : string) : option (string * string) :=
  match strip_prefix "Lines executed:" s with
  | None => None
  | Some r0 =>
      let '(int_part, r1) := span is_digit r0 in
      if is_empty int_part then None
      else
        match strip_prefix "." r1 with
        | None => None
        | Some r2 =>
            let '(frac_part, r3) := span is_digit r2 in
            if is_empty frac_part then None
            else
              match strip_prefix "% of " r3 with
              | None => None
              | Some r4 =>
                  let '(count, _) := span is_digit r4 in
                  if is_empty count then None
                  else Some (int_part ++ "." ++ frac_part, count)
              end
        end
  end.

(** [coverage_pattern.search(line)]: the match at the leftmost position
    where there is one. *)
Fixpoint coverage_pattern_search (line : string) : option (string * string) :=
  match coverage_pattern_at line with
  | Some groups => Some groups
  | None =>
      match line with
      | EmptyString => None
      | String _ line' => coverage_pattern_search line'
      end
  end.

End Str.

(** ** Floats: binary64 arithmetic as Python performs it *)

Module PyFloat.

Definition prec : Z := 53.
Definition emax : Z := 1024.

Definition float : Type := spec_float.

Definition fmul : float -> float -> float := SFmul prec emax.
Definition fdiv : float -> float -> float := SFdiv prec emax.

(** A nonzero integer as an unrounded float with exponent 0. *)
Definition exact_of_Z (n : Z) : float :=
  match n with
  | Z0 => S754_zero false
  | Zpos p => S754_finite false p 0
  | Zneg p => S754_finite true p 0
  end.

Definition is_infinite (x : float) : bool :=
  match x with
  | S754_infinity _ => true
  | _ => false
  end.

(** [float(n)] for an int [n], also the implicit conversion of an int
    operand in mixed arithmetic: correctly rounded, [OverflowError] when the
    result is not finite. *)
Definition float_of_int (n : Z) : result float :=
  let x := binary_normalize prec emax n 0 false in
  if is_infinite x then Raise OverflowError else Ok x.

(** [a / b] on ints: the quotient correctly rounded, [ZeroDivisionError] for
    a zero divisor and [OverflowError] when the quotient is too large. *)
Definition int_truediv (a b : Z) : result float :=
  if b =? 0 then Raise ZeroDivisionError
  else if a =? 0 then Ok (S754_zero (b <? 0))
  else
    let q := fdiv (exact_of_Z a) (exact_of_Z b) in
    if is_infinite q then Raise OverflowError else Ok q.

(** [float(s)] for a string of the form digits, point, digits, the only
    form the script passes: the decimal value correctly rounded; a value too
    large becomes [inf], without an exception. *)
Definition float_of_string (s : string) : result float :=
  let '(int_part, r1) := Str.span Str.is_digit s in
  match Str.strip_prefix "." r1 with
  | None => Raise ValueError
  | Some r2 =>
      let '(frac_part, r3) := Str.span Str.is_digit r2 in
      if (Str.is_empty int_part || Str.is_empty frac_part
          || negb (Str.is_empty r3))%bool
      then Raise ValueError
      else
        let num := Str.digits_value_from 0 (int_part ++ frac_part) in
        let den := 10 ^ Z.of_nat (String.length frac_part) in
        if num =? 0 then Ok (S754_zero false)
        else Ok (fdiv (exact_of_Z num) (exact_of_Z den))
  end.

(** [int(x)] for a float [x]: truncation toward zero. *)
Definition int_of_float (x : float) : result Z :=
  match x with
  | S754_zero _ => Ok 0
  | S754_finite s m e => Ok (cond_Zopp s (Z.shiftl (Zpos m) e))
  | S754_infinity _ => Raise OverflowError
  | S754_nan => Raise ValueError
  end.

(** [n * x] and [x / n] with an int [n] and a float [x]. *)
Definition int_mul_float (n : Z) (x : float) : result float :=
  rbind (float_of_int n) (fun fn => Ok (fmul fn x)).

Definition float_mul_int (x : float) (n : Z) : result float :=
  rbind (float_of_int n) (fun fn => Ok (fmul x fn)).

Definition float_div_int (x : float) (n : Z) : result float :=
  rbind (float_of_int n) (fun fn =>
    match fn with
    | S754_zero _ => Raise ZeroDivisionError
    | _ => Ok (fdiv x fn)
    end).

(** Rounding of the rational [n / d] ([d > 0]) to the nearest integer, ties
    to even. *)
Definition round_half_even (n d : Z) : Z :=
  let q := n / d in
  let r := n mod d in
  match 2 * r ?= d with
  | Lt => q
  | Gt => q + 1
  | Eq => if Z.even q then q else q + 1
  end.

Definition decimal_of_Z (n : Z) : string :=
  NilZero.string_of_uint (N.to_uint (Z.to_N n)).

(** [f"{x:.1f}"]: the exact value of [x] rounded to one decimal place. *)
Definition format_1f (x : float) : string :=
  match x with
  | S754_nan => "nan"
  | S754_infinity s => if s then "-inf" else "inf"
  | S754_zero s => if s then "-0.0" else "0.0"
  | S754_finite s m e =>
      let tenths :=
        if 0 <=? e then 10 * Zpos m * 2 ^ e
        else round_half_even (10 * Zpos m) (2 ^ (- e)) in
      ((if s then "-" else "") ++ decimal_of_Z (tenths / 10) ++ "."
         ++ decimal_of_Z (tenths mod 10))%string
  end.

End PyFloat.

Import PyFloat.

(** ** Rounding: the vocabulary of the proofs about binary64 results *)

Module Rounding.

Definition exact_record (mrs : shr_record) : Prop :=
  shr_r mrs = false /\ shr_s mrs = false.

(** [mrs'] is [mrs] shifted right by [k] bits; a shift that drops only zero
    bits of an exact record leaves an exact record. *)
Definition shifted (k : Z) (mrs mrs' : shr_record) : Prop :=
  shr_m mrs' = shr_m mrs / 2 ^ k
  /\ (exact_record mrs -> shr_m mrs mod 2 ^ k = 0 -> exact_record mrs').

(** The number of bits [shr_fexp] drops. *)
Definition shift_amount (m e : Z) : Z :=
  Z.max 0 (fexp prec emax (Zdigits2 m + e) - e).

Definition pow2 (e : Z) : Q := Qpower (2 # 1) e.

(** The rational [m * 2 ^ e]. *)
Definition scaled (m e : Z) : Q := (inject_Z m * pow2 e)%Q.

(** The rational [M * 2 ^ (- j)]: a point of the grid of step [2 ^ (- j)]. *)
Definition dyadic (M j : Z) : Q := scaled M (- j).

(** A float that is zero, or finite, positive and at most [B]. *)
Definition below (x : float) (B : Q) : Prop :=
  match x with
  | S754_zero _ => True
  | S754_finite false m e => (scaled (Zpos m) e <= B)%Q
  | _ => False
  end.

(** A float that is at least [B]: a zero when [B <= 0], a finite positive
    float from [B] on, or plus infinity. *)
Definition above (x : float) (B : Q) : Prop :=
  match x with
  | S754_zero _ => (B <= 0)%Q
  | S754_finite false m e => (B <= scaled (Zpos m) e)%Q
  | S754_infinity false => True
  | _ => False
  end.

End Rounding.

Import Rounding.

(** ** The outside world *)

Module World.

(** What [open] followed by [json.load] does for a path.  A document is a
    coverage summary: an object whose optional key [files] holds a list of
    objects with the optional keys [filename] (a string), [line_total] and
    [line_covered] (integers). *)
Record file_entry : Type := {
  filename : option string;
  line_total : option Z;
  line_covered : option Z
}.

Record document : Type := {
  files : option (list file_entry)
}.

Inductive load_outcome : Type :=
| Loaded (data : document)
| LoadFileNotFoundError (e : string)
| LoadJSONDecodeError (e : string)
| LoadOtherException (e : exn).

(** What [subprocess.run(["gcov", name], cwd=..., capture_output=True,
    text=True, timeout=30)] does for a data file. *)
Inductive run_outcome : Type :=
| Completed (stdout stderr : string)
| TimeoutExpired (e : string)
| RunFileNotFoundError (e : string)
| RunOtherException (e : exn).

(** [rglob_gcda dir] is [list(Path(dir).rglob("*.gcda"))], which raises
    when the directory cannot be read. *)
Record world : Type := {
  json_load : string -> load_outcome;
  rglob_gcda : string -> result (list string);
  run_gcov : string -> run_outcome
}.

End World.

Import World.

(** ** The JSON extractor *)

Module Json.

(** [any(pattern in filename for pattern in filters)] *)
Definition any_pattern_in (filters : list string) (name : string) : bool :=
  existsb (fun pattern => Str.str_in pattern name) filters.

Definition dict_get {A : Type} (field : option A) (default : A) : A :=
  match field with
  | Some v => v
  | None => default
  end.

(** The accumulators [total_lines], [covered_lines] and [matched_files]. *)
Definition acc : Type := Z * Z * list string.

(** One iteration of the loop over [data.get('files', [])]. *)
Definition json_step (filters : list string) (a : acc) (file_entry : file_entry)
  : acc :=
  let '(total_lines, covered_lines, matched_files) := a in
  let name := dict_get (filename file_entry) "" in
  if any_pattern_in filters name then
    let total := dict_get (line_total file_entry) 0 in
    let covered := dict_get (line_covered file_entry) 0 in
    if 0 <? total then
      (total_lines + total, covered_lines + covered,
       (matched_files ++ [name])%list)
    else a
  else a.

(** [(covered_lines / total_lines) * 100] *)
Definition coverage_pct (covered_lines total_lines : Z) : result float :=
  rbind (int_truediv covered_lines total_lines) (fun ratio =>
    float_mul_int ratio 100).

Definition calculate_from_json (w : world) (coverage_file : string)
    (filters : list string) : M (option float) :=
  match json_load w coverage_file with
  | LoadFileNotFoundError e | LoadJSONDecodeError e =>
      print_err (ErrorReadingCoverage e) ;;;
      ret None
  | LoadOtherException e => raise e
  | Loaded data =>
      let '(total_lines, covered_lines, matched_files) :=
        fold_left (json_step filters) (dict_get (files data) []) (0, 0, []) in
      if total_lines =? 0 then
        print_err (NoMatchingFiles filters) ;;;
        ret None
      else
        pct <- lift (coverage_pct covered_lines total_lines) ;;
        print_err (MatchedSummary (List.length matched_files)
                     covered_lines total_lines) ;;;
        ret (Some pct)
  end.

End Json.

(** ** The gcov extractor *)

Module Gcov.

(** [file_coverage]: filename to [(covered_lines, total_lines)], in
    insertion order. *)
Definition table : Type := list (string * (Z * Z)).

Fixpoint lookup (t : table) (name : string) : option (Z * Z) :=
  match t with
  | [] => None
  | (k, v) :: t' => if String.eqb k name then Some v else lookup t' name
  end.

(** [file_coverage[name] = v]: an existing key keeps its place, a new key
    goes last. *)
Fixpoint assign (t : table) (name : string) (v : Z * Z) : table :=
  match t with
  | [] => [(name, v)]
  | (k, old) :: t' =>
      if String.eqb k name then (k, v) :: t'
      else (k, old) :: assign t' name v
  end.

(** The body of [if current_file in file_coverage: ... else: ...]. *)
Definition store (t : table) (current_file : string) (covered total : Z)
  : table :=
  match lookup t current_file with
  | Some (prev_cov, prev_total) =>
      if prev_total <? total then assign t current_file (covered, total)
      else t
  | None => assign t current_file (covered, total)
  end.

(** [int(total * percent / 100)] *)
Definition covered_of (total : Z) (percent : float) : result Z :=
  rbind (int_mul_float total percent) (fun product =>
    rbind (float_div_int product 100) int_of_float).

(** The state of the scan of one annotator output: the cursor
    [current_file] and the table. *)
Record scan_state : Type := {
  current_file : option string;
  file_coverage : table
}.

(** Truth value of [current_file]: [None] and the empty string are false. *)
Definition cursor (st : scan_state) : option string :=
  match current_file st with
  | Some name => if Str.is_empty name then None else Some name
  | None => None
  end.

(** One iteration of [for line in output.split('\n')]. *)
Definition scan_line (st : scan_state) (line : string) : result scan_state :=
  match Str.file_pattern_match line with
  | Some name =>
      Ok {| current_file := Some name; file_coverage := file_coverage st |}
  | None =>
      match Str.coverage_pattern_search line, cursor st with
      | Some (group1, group2), Some name =>
          rbind (float_of_string group1) (fun percent =>
          rbind (Str.int_of_string group2) (fun total =>
          rbind (covered_of total percent) (fun covered =>
            Ok {| current_file := None;
                  file_coverage :=
                    store (file_coverage st) name covered total |})))
      | _, _ => Ok st
      end
  end.

Fixpoint scan_lines (st : scan_state) (lines : list string)
  : result scan_state :=
  match lines with
  | [] => Ok st
  | line :: lines' => rbind (scan_line st line) (fun st' => scan_lines st' lines')
  end.

(** The parse of one captured output, starting with the cursor unset. *)
Definition parse_output (t : table) (output : string) : result table :=
  rbind (scan_lines {| current_file := None; file_coverage := t |}
           (Str.split_newline output))
        (fun st => Ok (file_coverage st)).

(** One iteration of [for gcda_file in gcda_files]. *)
Definition gcda_step (w : world) (t : table) (gcda_file : string) : M table :=
  match run_gcov w gcda_file with
  | TimeoutExpired e | RunFileNotFoundError e =>
      print_err (GcovFailed gcda_file e) ;;;
      ret t
  | RunOtherException e => raise e
  | Completed out err => lift (parse_output t (out ++ err))
  end.

Fixpoint gcda_loop (w : world) (t : table) (gcda_files : list string)
  : M table :=
  match gcda_files with
  | [] => ret t
  | gcda_file :: rest =>
      t' <- gcda_step w t gcda_file ;;
      gcda_loop w t' rest
  end.

(** The accumulators of the final loop; [matched_files] keeps the three
    values its f-string interpolates. *)
Definition acc : Type := Z * Z * list (string * Z * Z).

(** One iteration of [for filename, (cov, total) in file_coverage.items()]. *)
Definition gcov_step (filters : list string) (a : acc)
    (item : string * (Z * Z)) : acc :=
  let '(total_lines, covered_lines, matched_files) := a in
  let '(name, (cov, total)) := item in
  if Json.any_pattern_in filters name then
    (total_lines + total, covered_lines + cov,
     (matched_files ++ [(name, cov, total)])%list)
  else a.

(** The part of [calculate_from_gcov] after the table is built. *)
Definition aggregate (filters : list string) (file_coverage : table)
  : M (option float) :=
  let '(total_lines, covered_lines, matched_files) :=
    fold_left (gcov_step filters) file_coverage (0, 0, []) in
  if total_lines =? 0 then
    print_err (NoMatchingFiles filters) ;;;
    ret None
  else
    pct <- lift (Json.coverage_pct covered_lines total_lines) ;;
    print_err (MatchedSummary (List.length matched_files)
                 covered_lines total_lines) ;;;
    for_each (fun '(name, cov, total) => print_err (MatchedFile name cov total))
             matched_files ;;;
    ret (Some pct).

(** [build_dir] is [None] when [main] falls through to this extractor
    without a [--gcov-dir]; [Path(None)] raises [TypeError]. *)
Definition calculate_from_gcov (w : world) (build_dir : option string)
    (filters : list string) : M (option float) :=
  match build_dir with
  | None => raise TypeError
  | Some dir =>
      gcda_files <- lift (rglob_gcda w dir) ;;
      match gcda_files with
      | [] =>
          print_err (NoGcdaFiles dir) ;;;
          ret None
      | _ :: _ =>
          file_coverage <- gcda_loop w [] gcda_files ;;
          aggregate filters file_coverage
      end
  end.

End Gcov.

(** ** Command line dispatch *)

Module Cli.

(** The namespace [parse_args] returns.  [args_filters] is [None] when no
    [-f] was given.  A command line that [argparse] rejects, and [--help],
    end the process inside [parse_args], before any code of the script's own
    runs; [main] below starts where [parse_args] has returned, and [invoke]
    has the other two ends of the process. *)
Record namespace : Type := {
  args_json : option string;
  args_gcov_dir : option string;
  args_filters : option (list string)
}.

(** [args.filters if args.filters else ['src/']] *)
Definition effective_filters (args : namespace) : list string :=
  match args_filters args with
  | Some (p :: ps) => p :: ps
  | _ => ["src/"]
  end.

(** The choice of the extractor: [if args.json: ... else: ...]. *)
Definition extract (w : world) (args : namespace) : M (option float) :=
  let filters := effective_filters args in
  match args_json args with
  | Some path =>
      if Str.is_empty path then
        Gcov.calculate_from_gcov w (args_gcov_dir args) filters
      else Json.calculate_from_json w path filters
  | None => Gcov.calculate_from_gcov w (args_gcov_dir args) filters
  end.

(** [main], from the parsed arguments on; its value is the exit status. *)
Definition main (w : world) (args : namespace) : M Z :=
  coverage <- extract w args ;;
  match coverage with
  | Some pct =>
      print_out (format_1f pct) ;;;
      ret 0
  | None => ret 1
  end.

(** [sys.exit(main())] in a fresh process: the exit status and what was
    written. *)
Definition run (w : world) (args : namespace) : Z * log :=
  match main w args [] with
  | (Ok status, l) => (status, l)
  | (Raise e, l) => (1, (l ++ [Stderr (Traceback e)])%list)
  end.

(** What [parser.parse_args()] does with the command line.  The parser
    holds [--json] and [--gcov-dir] in a required, mutually exclusive
    group, the repeatable [-f/--filter], and the [-h/--help] that
    [ArgumentParser] adds by default.  [parse_args] returns the namespace,
    or it ends the process itself: for [--help] it writes the help text to
    standard output and exits with status 0; a command line it rejects (no
    source, both sources, an unknown option, a missing value) makes it write
    the usage and a message to standard error and exit with status 2. *)
Inductive parse_outcome : Type :=
| Parsed (args : namespace)
| HelpRequested (help : string)
| Rejected (message : string).

(** What a process leaves behind: its exit status, what it wrote to
    standard output, the diagnostics of the script on standard error, and
    the usage message of [argparse], if it wrote one. *)
Record process : Type := {
  exit_status : Z;
  standard_output : list string;
  standard_error : list diag;
  usage_error : option string
}.

(** [sys.exit(main())], [parse_args] included. *)
Definition invoke (w : world) (parsed : parse_outcome) : process :=
  match parsed with
  | Parsed args =>
      let '(status, l) := run w args in
      {| exit_status := status; standard_output := stdout_of l;
         standard_error := stderr_of l; usage_error := None |}
  | HelpRequested help =>
      {| exit_status := 0; standard_output := [help];
         standard_error := []; usage_error := None |}
  | Rejected message =>
      {| exit_status := 2; standard_output := [];
         standard_error := []; usage_error := Some message |}
  end.

End Cli.

(** ** The specification's vocabulary *)

Module Spec.

(** [p] is a substring of [s]. *)
Definition occurs_in (p s : string) : Prop :=
  exists before after, s = (before ++ p ++ after)%string.

(** A filename matches the FilterSet when some pattern of the set is a
    substring of it. *)
Definition matches (filters : list string) (name : string) : Prop :=
  exists p, In p filters /\ occurs_in p name.

Definition name_of (fe : file_entry) : string :=
  Json.dict_get (filename fe) EmptyString.

Definition total_of (fe : file_entry) : Z := Json.dict_get (line_total fe) 0.

Definition covered_of (fe : file_entry) : Z :=
  Json.dict_get (line_covered fe) 0.

Definition sum (xs : list Z) : Z := fold_right Z.add 0 xs.

(** [100 * covered / total], the percentage as the specification writes it:
    the quotient of two integers, rounded once. *)
Definition percentage (covered total : Z) : result float :=
  int_truediv (100 * covered) total.


(** The invariant of a CoverageEntry. *)
Definition entry_ok (item : string * (Z * Z)) : Prop :=
  0 <= fst (snd item) <= snd (snd item).

Definition entry_nonneg (item : string * (Z * Z)) : Prop :=
  0 <= fst (snd item) /\ 0 <= snd (snd item).

(** The records of a summary that the JSON extractor counts when the filter
    lets everything through. *)
Definition counted (entries : list file_entry) : list file_entry :=
  filter (fun fe => 0 <? total_of fe) entries.

(** A world in which [json.load] returns the same document for every path,
    there are no data files and the annotator prints nothing. *)
Definition world_with_document (entries : list file_entry) : world :=
  {| json_load := fun _ => Loaded {| files := Some entries |};
     rglob_gcda := fun _ => Ok [];
     run_gcov := fun _ => Completed EmptyString EmptyString |}.

(** Every character of [s] satisfies [f]. *)
Fixpoint every (f : ascii -> bool) (s : string) : bool :=
  match s with
  | EmptyString => true
  | String c s' => (f c && every f s')%bool
  end.

(** A float that is not negative (a zero of either sign and NaN count). *)
Definition nonneg (x : float) : Prop :=
  match x with
  | S754_finite s _ _ | S754_infinity s => s = false
  | _ => True
  end.

(** The shape of what [coverage_pattern] captures. *)
Definition coverage_groups (group1 group2 : string) : Prop :=
  exists int_part frac_part,
    group1 = (int_part ++ "." ++ frac_part)%string
    /\ every Str.is_digit int_part = true /\ int_part <> EmptyString
    /\ every Str.is_digit frac_part = true /\ frac_part <> EmptyString
    /\ every Str.is_digit group2 = true /\ group2 <> EmptyString.

Definition newline : string := String "010"%char EmptyString.

(** The text whose lines are [ls]. *)
Definition unlines (ls : list string) : string := String.concat newline ls.

Definition zeros (n : nat) : string :=
  String.concat EmptyString (repeat "0" n).


(** The invariant of section 3, claimed of every table the parser builds. *)
Definition stored_entries_claim : Prop :=
  forall (t : Gcov.table) (output : string) (t' : Gcov.table),
    Forall entry_ok t ->
    Gcov.parse_output t output = Ok t' ->
    Forall entry_ok t'.


(** A world in which the annotator behaves as [annotate] says and
    [json.load] finds no file. *)
Definition world_with_annotator (gcda_files : list string)
    (annotate : string -> run_outcome) : world :=
  {| json_load := fun _ => LoadFileNotFoundError EmptyString;
     rglob_gcda := fun _ => Ok gcda_files;
     run_gcov := annotate |}.

(** An annotator that times out on [a.gcda] and reports 30 of 40 lines of
    [src/foo.c] for any other data file. *)
Definition annotate_but_a (gcda_file : string) : run_outcome :=
  if String.eqb gcda_file "a.gcda" then TimeoutExpired "timed out"
  else Completed (unlines ["File 'src/foo.c'"; "Lines executed:75.00% of 40"])
                 EmptyString.

(** A coverage match whose percentage is at most 100 and whose line count
    is small enough for [100 * total] to be an exact binary64 value. *)
Definition modest_groups (group1 group2 : string) : Prop :=
  exists int_part frac_part,
    group1 = (int_part ++ "." ++ frac_part)%string
    /\ every Str.is_digit int_part = true
    /\ every Str.is_digit frac_part = true
    /\ Str.digits_value_from 0 (int_part ++ frac_part)
       <= 100 * 10 ^ Z.of_nat (String.length frac_part)
    /\ 100 * Str.digits_value_from 0 group2 < 2 ^ 53.

Definition modest_line (line : string) : Prop :=
  forall group1 group2,
    Str.coverage_pattern_search line = Some (group1, group2) ->
    modest_groups group1 group2.

Definition modest_output (output : string) : Prop :=
  Forall modest_line (Str.split_newline output).

(** Every output the annotator produces for the data files is modest. *)
Definition modest_world (w : world) (gcda_files : list string) : Prop :=
  forall gcda_file out err,
    In gcda_file gcda_files ->
    run_gcov w gcda_file = Completed out err ->
    modest_output (out ++ err).

(** An annotator that reports 30 of 40 lines of [src/foo.c] every time. *)
Definition annotate_foo (gcda_file : string) : run_outcome :=
  Completed (unlines ["File 'src/foo.c'"; "Lines executed:75.00% of 40"])
            EmptyString.

(** The summary of the examples of the specification's section 8. *)
Definition summary_of_section_8 : list file_entry :=
  [ {| filename := Some "src/a.c"; line_total := Some 100;
       line_covered := Some 80 |};
    {| filename := Some "test/b.c"; line_total := Some 50;
       line_covered := Some 10 |} ].

Definition record (name : string) (total covered : Z) : file_entry :=
  {| filename := Some name; line_total := Some total;
     line_covered := Some covered |}.

(** The first property of the specification's section 8, read with its
    formula [100 * sum(line_covered) / sum(line_total)]. *)
Definition json_value_claim : Prop :=
  forall (w : world) (path : string) (filters : list string)
         (entries : list file_entry),
    json_load w path = Loaded {| files := Some entries |} ->
    Forall (fun fe => matches filters (name_of fe) /\ 0 < total_of fe)
           entries ->
    fst (Json.calculate_from_json w path filters []) =
    rbind (percentage (sum (map covered_of entries))
                      (sum (map total_of entries)))
          (fun v => Ok (Some v)).

(** The two faults of an input that section 4.1 names. *)
Inductive input_fault : Type :=
| PathDoesNotExist
| NotWellFormed.

(** The fault behind what [open] and [json.load] raise.  A path that does
    not exist raises [FileNotFoundError], or [NotADirectoryError] when one
    of its directories is a file; a document that is not well-formed raises
    [json.JSONDecodeError], or [UnicodeDecodeError] when its bytes are not
    text in the encoding, or [RecursionError] when it is nested too
    deeply. *)
Definition fault_of (outcome : load_outcome) : option input_fault :=
  match outcome with
  | LoadFileNotFoundError _ => Some PathDoesNotExist
  | LoadJSONDecodeError _ => Some NotWellFormed
  | LoadOtherException (OtherException name) =>
      if String.eqb name "NotADirectoryError" then Some PathDoesNotExist
      else if String.eqb name "UnicodeDecodeError" then Some NotWellFormed
      else if String.eqb name "RecursionError" then Some NotWellFormed
      else None
  | _ => None
  end.

(** The claim of section 4.1 about such inputs: a diagnostic, no value, no
    crash. *)
Definition unreadable_input_claim : Prop :=
  forall (w : world) (path : string) (filters : list string) (l : log)
         (fault : input_fault),
    fault_of (json_load w path) = Some fault ->
    exists d,
      Json.calculate_from_json w path filters l
      = (Ok None, (l ++ [Stderr d])%list).

(** The percentage an extractor produced in an invocation, if one did. *)
Definition extractor_result (w : world) (parsed : Cli.parse_outcome)
  : option float :=
  match parsed with
  | Cli.Parsed args =>
      match fst (Cli.extract w args []) with
      | Ok (Some pct) => Some pct
      | _ => None
      end
  | _ => None
  end.

(** The claim of sections 4.3 and 6 about every invocation: status 0 and
    the one line with the percentage exactly when an extractor produced a
    result, status 1 and an empty standard output on every failure. *)
Definition exit_status_claim : Prop :=
  forall (w : world) (parsed : Cli.parse_outcome),
    match extractor_result w parsed with
    | Some pct =>
        Cli.exit_status (Cli.invoke w parsed) = 0
        /\ Cli.standard_output (Cli.invoke w parsed) = [format_1f pct]
    | None =>
        Cli.exit_status (Cli.invoke w parsed) = 1
        /\ Cli.standard_output (Cli.invoke w parsed) = []
    end.

End Spec.

Import Spec.

(** ** The vocabulary of the further properties

    The interpreter refuses to convert an [int] to or from a string of more
    than 4300 digits (the default limit since Python 3.11).  The embedding
    has no such limit: a diagnostic carries the integers it prints, whatever
    their size, and [int] converts every digit string.  The properties that
    say what a count of the annotator is converted to are stated for counts
    within the limit, and those that say that a summary is written for
    integers within the limit.

    A character of the embedding is one of the first 256 code points, and
    the only decimal digits among them are the ASCII digits.  In a text
    with other characters the class [\d], [float] and [int] also accept
    the decimal digits of the other scripts, so the properties that say what
    the coverage pattern finds in a line are stated for ASCII text. *)

Module Props.

(** The records the JSON extractor counts: the filter passes the filename
    and [line_total] is positive. *)
Definition selected (filters : list string) (fe : file_entry) : bool :=
  (Json.any_pattern_in filters (name_of fe) && (0 <? total_of fe))%bool.

(** The entries of the coverage table the gcov extractor counts. *)
Definition passes (filters : list string) (item : string * (Z * Z)) : bool :=
  Json.any_pattern_in filters (fst item).

Definition covered_in (item : string * (Z * Z)) : Z := fst (snd item).

Definition total_in (item : string * (Z * Z)) : Z := snd (snd item).

(** The per-file lines that follow the summary on standard error. *)
Definition breakdown (items : list (string * (Z * Z))) : log :=
  map (fun item => Stderr (MatchedFile (fst item) (covered_in item)
                             (total_in item))) items.

(** A percentage: positive zero, or a finite positive float that is at most
    100. *)
Definition in_percent_range (x : float) : Prop :=
  match x with
  | S754_zero false => True
  | S754_finite false m e => (scaled (Zpos m) e <= inject_Z 100)%Q
  | _ => False
  end.

(** The number a float stands for; zero for what is no number. *)
Definition value (x : float) : Q :=
  match x with
  | S754_finite s m e =>
      if s then (- scaled (Zpos m) e)%Q else scaled (Zpos m) e
  | _ => 0%Q
  end.

(** The text [f"{x:.1f}"] of a number of tenths. *)
Definition one_decimal (tenths : Z) : string :=
  (decimal_of_Z (tenths / 10) ++ "." ++ decimal_of_Z (tenths mod 10))%string.

(** A report of the annotator: a filename with its covered and total
    lines; [store_all] records the reports in their order. *)
Definition store_all (t : Gcov.table) (reports : list (string * (Z * Z)))
  : Gcov.table :=
  fold_left (fun t' r => Gcov.store t' (fst r) (covered_in r) (total_in r))
            reports t.

(** The reports a list of lines holds when the scan starts with the cursor
    [cur]: the coverage lines that follow a header, each with the filename
    of its header, in their order.  The table plays no part in it. *)
Fixpoint reports_of (cur : option string) (lines : list string)
  : result (list (string * (Z * Z))) :=
  match lines with
  | [] => Ok []
  | line :: rest =>
      match Str.file_pattern_match line with
      | Some name => reports_of (Some name) rest
      | None =>
          match Str.coverage_pattern_search line, cur with
          | Some (group1, group2), Some name =>
              rbind (float_of_string group1) (fun percent =>
              rbind (Str.int_of_string group2) (fun total =>
              rbind (Gcov.covered_of total percent) (fun covered =>
              rbind (reports_of None rest) (fun reports =>
                Ok ((name, (covered, total)) :: reports)))))
          | _, _ => reports_of cur rest
          end
      end
  end.

(** The reports of one data file: those of the output of the annotator, and
    none when the run failed in one of the two ways the loop recovers
    from. *)
Definition file_reports (w : world) (gcda_file : string)
  : result (list (string * (Z * Z))) :=
  match run_gcov w gcda_file with
  | Completed out err => reports_of None (Str.split_newline (out ++ err))
  | TimeoutExpired _ | RunFileNotFoundError _ => Ok []
  | RunOtherException e => Raise e
  end.

(** The reports of all the data files, in the order of the data files. *)
Fixpoint loop_reports (w : world) (gcda_files : list string)
  : result (list (string * (Z * Z))) :=
  match gcda_files with
  | [] => Ok []
  | gcda_file :: rest =>
      rbind (file_reports w gcda_file) (fun reports =>
      rbind (loop_reports w rest) (fun reports' =>
        Ok (reports ++ reports')%list))
  end.

(** The warnings of the loop over the data files: one for each run of the
    annotator that timed out or could not be started. *)
Definition run_warnings (w : world) (gcda_files : list string) : log :=
  flat_map (fun gcda_file =>
              match run_gcov w gcda_file with
              | TimeoutExpired e | RunFileNotFoundError e =>
                  [Stderr (GcovFailed gcda_file e)]
              | _ => []
              end) gcda_files.

(** A run of the annotator that the loop recovers from. *)
Definition run_fails (w : world) (gcda_file : string) : Prop :=
  exists e, run_gcov w gcda_file = TimeoutExpired e
            \/ run_gcov w gcda_file = RunFileNotFoundError e.

(** [t'] keeps what [t] records: every filename of [t], with a total that
    is not smaller, and with the same entry when the total is the same. *)
Definition keeps_records (t t' : Gcov.table) : Prop :=
  forall name covered total,
    Gcov.lookup t name = Some (covered, total) ->
    exists covered' total',
      Gcov.lookup t' name = Some (covered', total')
      /\ total <= total' /\ (total' = total -> covered' = covered).

(** The record of a summary that says what an entry of the table says. *)
Definition as_record (item : string * (Z * Z)) : file_entry :=
  record (fst item) (total_in item) (covered_in item).

(** No run of the annotator on the data files raises anything but the two
    exceptions the loop catches. *)
Definition no_other_exception (w : world) (gcda_files : list string) : Prop :=
  forall gcda_file e,
    In gcda_file gcda_files -> run_gcov w gcda_file <> RunOtherException e.

(** The longest digit string [int] converts by default; a longer one
    raises [ValueError]. *)
Definition int_max_str_digits : nat := 4300.

(** Every count the annotator prints for the data files is within the
    limit of [int]. *)
Definition short_counts (w : world) (gcda_files : list string) : Prop :=
  forall gcda_file out err line group1 group2,
    In gcda_file gcda_files ->
    run_gcov w gcda_file = Completed out err ->
    In line (Str.split_newline (out ++ err)) ->
    Str.coverage_pattern_search line = Some (group1, group2) ->
    (String.length group2 <= int_max_str_digits)%nat.

(** An integer the interpreter prints: at most [int_max_str_digits]
    decimal digits. *)
Definition printable (n : Z) : Prop :=
  Z.abs n < 10 ^ Z.of_nat int_max_str_digits.

Definition is_ascii (c : ascii) : bool := (N_of_ascii c <? 128)%N.

(** Everything the annotator prints for the data files is ASCII text. *)
Definition ascii_outputs (w : world) (gcda_files : list string) : Prop :=
  forall gcda_file out err,
    In gcda_file gcda_files ->
    run_gcov w gcda_file = Completed out err ->
    every is_ascii (out ++ err) = true.

Definition not_quote (c : ascii) : bool := negb (Ascii.eqb c "'"%char).

Definition not_newline (c : ascii) : bool := negb (Ascii.eqb c "010"%char).

(** [rest] does not go on with a digit. *)
Definition no_digit_ahead (rest : string) : Prop :=
  match rest with
  | EmptyString => True
  | String c _ => Str.is_digit c = false
  end.

End Props.

Import Props.

(** * Proofs *)

(** ** The monad and the output log *)

Lemma stdout_of_app (l1 l2 : log) :
  stdout_of (l1 ++ l2)%list = (stdout_of l1 ++ stdout_of l2)%list.
Proof. unfold stdout_of. apply flat_map_app. Qed.

Lemma stderr_of_app (l1 l2 : log) :
  stderr_of (l1 ++ l2)%list = (stderr_of l1 ++ stderr_of l2)%list.
Proof. unfold stderr_of. apply flat_map_app. Qed.

Lemma quiet_ret {A : Type} (a : A) : quiet (ret a).
Proof. intro l. reflexivity. Qed.

Lemma quiet_raise {A : Type} (e : exn) : quiet (@raise A e).
Proof. intro l. reflexivity. Qed.

Lemma quiet_lift {A : Type} (r : result A) : quiet (lift r).
Proof. intro l. reflexivity. Qed.

Lemma quiet_print_err (d : diag) : quiet (print_err d).
Proof.
  intro l. unfold print_err. simpl. rewrite stdout_of_app. simpl.
  apply app_nil_r.
Qed.

Lemma quiet_bind {A B : Type} (m : M A) (k : A -> M B) :
  quiet m -> (forall a, quiet (k a)) -> quiet (bind m k).
Proof.
  intros Hm Hk l. unfold bind. specialize (Hm l).
  destruct (m l) as [[a | e] l']; simpl in *.
  - rewrite Hk. exact Hm.
  - exact Hm.
Qed.

Lemma quiet_for_each {A : Type} (f : A -> M unit) (xs : list A) :
  (forall x, quiet (f x)) -> quiet (for_each f xs).
Proof.
  intro Hf. induction xs as [| x xs IH]; simpl.
  - apply quiet_ret.
  - apply quiet_bind; [apply Hf | intros _; exact IH].
Qed.

Create HintDb quiet.

#[local] Hint Resolve quiet_ret quiet_raise quiet_lift quiet_print_err
  quiet_for_each : quiet.

Ltac quiet_step :=
  first [ apply quiet_bind; [ | intro ] | solve [ auto with quiet ] ].

(** ** Strings *)

Lemma strip_prefix_spec (p s r : string) :
  Str.strip_prefix p s = Some r <-> s = (p ++ r)%string.
Proof.
  revert s. induction p as [| a p IH]; intros s; simpl.
  - split; [intros [= ->]; reflexivity | intros ->; reflexivity].
  - destruct s as [| b s].
    + split; [discriminate | intros [=]].
    + destruct (Ascii.eqb_spec a b) as [-> | Hne].
      * rewrite IH. split; [intros ->; reflexivity | intros [= ->]; reflexivity].
      * split; [discriminate | intros [= Hab _]; congruence].
Qed.

Lemma starts_with_spec (p s : string) :
  Str.starts_with p s = true <-> exists r, s = (p ++ r)%string.
Proof.
  unfold Str.starts_with.
  destruct (Str.strip_prefix p s) as [r |] eqn:E.
  - apply strip_prefix_spec in E. split; [intros _; eauto | reflexivity].
  - split; [discriminate |].
    intros [r Hr]. apply strip_prefix_spec in Hr. congruence.
Qed.

Lemma str_in_spec (p s : string) :
  Str.str_in p s = true <-> occurs_in p s.
Proof.
  unfold occurs_in. induction s as [| c s IH]; simpl.
  - destruct (Str.starts_with p EmptyString) eqn:E.
    + apply starts_with_spec in E. destruct E as [r Hr].
      split; [intros _; exists EmptyString, r; exact Hr | reflexivity].
    + split; [discriminate |].
      intros (before & after & H).
      destruct before; [| discriminate]. simpl in H.
      assert (Str.starts_with p EmptyString = true) as E'
        by (apply starts_with_spec; eauto).
      congruence.
  - destruct (Str.starts_with p (String c s)) eqn:E.
    + apply starts_with_spec in E. destruct E as [r Hr].
      split; [intros _; exists EmptyString, r; exact Hr | reflexivity].
    + rewrite IH. split.
      * intros (before & after & ->). exists (String c before), after.
        reflexivity.
      * intros (before & after & H). destruct before as [| b before].
        -- simpl in H.
           assert (Str.starts_with p (String c s) = true) as E'
             by (apply starts_with_spec; eauto).
           congruence.
        -- injection H as _ H. eauto.
Qed.

Lemma any_pattern_in_spec (filters : list string) (name : string) :
  Json.any_pattern_in filters name = true <-> matches filters name.
Proof.
  unfold Json.any_pattern_in, matches. rewrite existsb_exists.
  split; intros (p & Hin & Hp); exists p; (split; [exact Hin |]);
    apply str_in_spec; exact Hp.
Qed.

Lemma str_in_empty (s : string) : Str.str_in EmptyString s = true.
Proof. destruct s; reflexivity. Qed.

(** ** The JSON extractor *)

Lemma json_step_match (filters : list string) (fe : file_entry)
    (total_lines covered_lines : Z) (matched_files : list string) :
  matches filters (name_of fe) ->
  0 < total_of fe ->
  Json.json_step filters (total_lines, covered_lines, matched_files) fe =
  (total_lines + total_of fe, covered_lines + covered_of fe,
   (matched_files ++ [name_of fe])%list).
Proof.
  intros Hm Hpos. apply any_pattern_in_spec in Hm.
  unfold Json.json_step. fold (name_of fe). rewrite Hm.
  fold (total_of fe) (covered_of fe).
  apply Z.ltb_lt in Hpos. rewrite Hpos. reflexivity.
Qed.

Lemma json_step_no_match (filters : list string) (fe : file_entry)
    (a : Json.acc) :
  ~ matches filters (name_of fe) -> Json.json_step filters a fe = a.
Proof.
  intro Hn. destruct a as [[total_lines covered_lines] matched_files].
  unfold Json.json_step. fold (name_of fe).
  destruct (Json.any_pattern_in filters (name_of fe)) eqn:E.
  - apply any_pattern_in_spec in E. contradiction.
  - reflexivity.
Qed.

Lemma json_fold_all_counted (filters : list string)
    (entries : list file_entry) :
  Forall (fun fe => matches filters (name_of fe) /\ 0 < total_of fe) entries ->
  forall (total_lines covered_lines : Z) (matched_files : list string),
    fold_left (Json.json_step filters) entries
              (total_lines, covered_lines, matched_files) =
    (total_lines + sum (map total_of entries),
     covered_lines + sum (map covered_of entries),
     (matched_files ++ map name_of entries)%list).
Proof.
  induction 1 as [| fe entries [Hm Hpos] _ IH]; intros T C ms;
    cbn [fold_left map sum fold_right].
  - rewrite !Z.add_0_r, app_nil_r. reflexivity.
  - rewrite json_step_match by assumption. rewrite IH.
    rewrite <- app_assoc. cbn [app]. fold (sum (map total_of entries)).
    fold (sum (map covered_of entries)). f_equal. f_equal; lia.
Qed.

Lemma sum_totals_positive (entries : list file_entry) :
  entries <> [] ->
  Forall (fun fe => 0 < total_of fe) entries ->
  0 < sum (map total_of entries).
Proof.
  intros Hne Hall. induction Hall as [| fe entries Hpos Hall IH].
  - contradiction.
  - simpl. destruct entries as [| fe' entries'].
    + simpl. lia.
    + assert (0 < sum (map total_of (fe' :: entries'))) by (apply IH; discriminate).
      lia.
Qed.

Lemma coverage_pct_raises (covered total : Z) (e : exn) :
  total <> 0 -> Json.coverage_pct covered total = Raise e ->
  e = OverflowError.
Proof.
  intro Hne. unfold Json.coverage_pct, int_truediv.
  destruct (Z.eqb_spec total 0) as [E | _]; [contradiction |].
  destruct (covered =? 0); cbn [rbind].
  - unfold float_mul_int.
    replace (float_of_int 100)
      with (Ok (S754_finite false 7036874417766400 (-46)))
      by (vm_compute; reflexivity).
    discriminate.
  - destruct (is_infinite _); cbn [rbind].
    + intros [= <-]. reflexivity.
    + unfold float_mul_int.
      replace (float_of_int 100)
        with (Ok (S754_finite false 7036874417766400 (-46)))
        by (vm_compute; reflexivity).
      discriminate.
Qed.

(** C1, as amended.  When the summary holds at least one record, every
    record's filename matches the FilterSet, every record has
    [line_total > 0], and the two sums are integers the interpreter prints
    (at most 4300 digits), the JSON extractor sums [line_covered] and
    [line_total] over all records and computes
    [(sum(line_covered) / sum(line_total)) * 100] as binary64 arithmetic
    evaluates it: the quotient is rounded before it is multiplied by 100.
    It reports the two sums and returns that value, unless the quotient is
    too large for a float: then it raises [OverflowError], the only
    exception of the computation, and has written nothing. *)
Theorem json_value_sums_all_records (w : world) (path : string)
    (filters : list string) (entries : list file_entry) (l : log) :
  json_load w path = Loaded {| files := Some entries |} ->
  entries <> [] ->
  Forall (fun fe => matches filters (name_of fe) /\ 0 < total_of fe) entries ->
  printable (sum (map covered_of entries)) ->
  printable (sum (map total_of entries)) ->
  Json.calculate_from_json w path filters l =
  match Json.coverage_pct (sum (map covered_of entries))
                          (sum (map total_of entries)) with
  | Ok v =>
      (Ok (Some v),
       (l ++ [Stderr (MatchedSummary (List.length entries)
                        (sum (map covered_of entries))
                        (sum (map total_of entries)))])%list)
  | Raise e => (Raise e, l)
  end
  /\ (forall e,
        Json.coverage_pct (sum (map covered_of entries))
                          (sum (map total_of entries)) = Raise e ->
        e = OverflowError).
Proof.
  intros Hload Hne Hall _ _.
  assert (0 < sum (map total_of entries)) as Hpos.
  { apply sum_totals_positive; [exact Hne |].
    eapply Forall_impl; [| exact Hall]. intros fe [_ H]. exact H. }
  split;
    [| intros e He; eapply coverage_pct_raises; [| exact He]; lia].
  unfold Json.calculate_from_json. rewrite Hload.
  simpl Json.dict_get. rewrite (json_fold_all_counted filters entries Hall).
  simpl. rewrite length_map.
  destruct (Z.eqb_spec (sum (map total_of entries)) 0) as [E | _]; [lia |].
  unfold bind, lift.
  destruct (Json.coverage_pct _ _) as [v | e]; reflexivity.
Qed.

Lemma json_value_sums_all_records_witness :
  Json.calculate_from_json
    (world_with_document [record "src/a.c" 100 80; record "src/b.c" 50 10])
    "coverage_summary.json" ["src/"] [] =
  (Ok (Some (S754_finite false 8444249301319680 (-47))),
   [Stderr (MatchedSummary 2 90 150)]).
Proof.
  assert (printable 90) as H90 by (vm_compute; reflexivity).
  assert (printable 150) as H150 by (vm_compute; reflexivity).
  etransitivity.
  - apply (proj1 (json_value_sums_all_records
                    (world_with_document
                       [record "src/a.c" 100 80; record "src/b.c" 50 10])
                    "coverage_summary.json" ["src/"]
                    [record "src/a.c" 100 80; record "src/b.c" 50 10] []
                    eq_refl
                    ltac:(discriminate)
                    ltac:(repeat constructor;
                          solve [ apply any_pattern_in_spec; reflexivity
                                | reflexivity ])
                    H90 H150)).
  - vm_compute. reflexivity.
Defined.

(** C1, as the specification states it, fails: 23 covered lines of 80 give
    [28.749999999999996] (printed [28.7]), while [100 * 23 / 80] is [28.75]
    (printed [28.8]). *)
Lemma json_value_claim_fails : ~ json_value_claim.
Proof.
  intro H.
  specialize (H (world_with_document [record "src/a.c" 80 23])
                "coverage_summary.json" ["src/"] [record "src/a.c" 80 23]
                eq_refl).
  assert (Forall (fun fe => matches ["src/"] (name_of fe) /\ 0 < total_of fe)
            [record "src/a.c" 80 23]) as Hall.
  { repeat constructor. apply any_pattern_in_spec. reflexivity. }
  specialize (H Hall). vm_compute in H. discriminate H.
Qed.

(** C6, as amended.  The JSON extractor catches two exceptions of [open]
    and [json.load] and no other.  On [FileNotFoundError] and on
    [json.JSONDecodeError] it writes one diagnostic to standard error and
    returns [None]: it raises nothing and returns no aggregate, and the run
    ends with status 1 and an empty standard output.  Any other exception
    goes through: [NotADirectoryError] for a path that does not exist
    because one of its directories is a file, [UnicodeDecodeError] or
    [RecursionError] for a document that is not well-formed, end the run
    with status 1 and a traceback, without the diagnostic. *)
Theorem json_unreadable_input_is_a_failure (w : world) (path : string)
    (filters : list string) (l : log) (e : string) :
  json_load w path = LoadFileNotFoundError e
  \/ json_load w path = LoadJSONDecodeError e ->
  Json.calculate_from_json w path filters l
  = (Ok None, (l ++ [Stderr (ErrorReadingCoverage e)])%list)
  /\ (forall args : Cli.namespace,
        Cli.args_json args = Some path -> path <> EmptyString ->
        Cli.run w args = (1, [Stderr (ErrorReadingCoverage e)]))
  /\ (forall (w' : world) (path' : string) (x : exn),
        json_load w' path' = LoadOtherException x ->
        Json.calculate_from_json w' path' filters l = (Raise x, l)
        /\ (forall args : Cli.namespace,
              Cli.args_json args = Some path' -> path' <> EmptyString ->
              Cli.run w' args = (1, [Stderr (Traceback x)]))).
Proof.
  intro H.
  assert (forall f l0,
             Json.calculate_from_json w path f l0
             = (Ok None, (l0 ++ [Stderr (ErrorReadingCoverage e)])%list))
    as Hcalc.
  { intros f l0. unfold Json.calculate_from_json.
    destruct H as [H | H]; rewrite H; reflexivity. }
  split; [apply Hcalc |]. split.
  - intros args Hjson Hne. unfold Cli.run, Cli.main, Cli.extract, bind.
    assert (Str.is_empty path = false) as Hemp
      by (destruct path; [exfalso; apply Hne; reflexivity | reflexivity]).
    rewrite Hjson, Hemp, Hcalc. reflexivity.
  - intros w' path' x Hload. split.
    + unfold Json.calculate_from_json. rewrite Hload. reflexivity.
    + intros args Hjson Hne. unfold Cli.run, Cli.main, Cli.extract, bind.
      assert (Str.is_empty path' = false) as Hemp
        by (destruct path'; [exfalso; apply Hne; reflexivity | reflexivity]).
      rewrite Hjson, Hemp.
      unfold Json.calculate_from_json. rewrite Hload. reflexivity.
Qed.

Lemma json_unreadable_input_is_a_failure_witness :
  Json.calculate_from_json
    {| json_load := fun _ => LoadJSONDecodeError "Expecting value";
       rglob_gcda := fun _ => Ok [];
       run_gcov := fun _ => Completed EmptyString EmptyString |}
    "truncated.json" ["src/"] [] =
  (Ok None, [Stderr (ErrorReadingCoverage "Expecting value")]).
Proof.
  apply (json_unreadable_input_is_a_failure
           {| json_load := fun _ => LoadJSONDecodeError "Expecting value";
              rglob_gcda := fun _ => Ok [];
              run_gcov := fun _ => Completed EmptyString EmptyString |}
           "truncated.json" ["src/"] [] "Expecting value").
  right. reflexivity.
Defined.

(** C6, as the specification states it, fails: a path one of whose
    directories is a file does not exist, [open] raises
    [NotADirectoryError] for it, no handler catches that, and the extractor
    crashes instead of returning a failure. *)
Lemma unreadable_input_claim_fails : ~ unreadable_input_claim.
Proof.
  intro H.
  destruct (H {| json_load :=
                   fun _ => LoadOtherException
                              (OtherException "NotADirectoryError");
                 rglob_gcda := fun _ => Ok [];
                 run_gcov := fun _ => Completed EmptyString EmptyString |}
              "coverage_summary.json/x" ["src/"] [] PathDoesNotExist
              eq_refl) as [d Hd].
  discriminate Hd.
Qed.

Lemma quiet_calculate_from_json (w : world) (path : string)
    (filters : list string) :
  quiet (Json.calculate_from_json w path filters).
Proof.
  unfold Json.calculate_from_json.
  destruct (json_load w path) as [data | e | e | e].
  - destruct (fold_left _ _ _) as [[total_lines covered_lines] matched_files].
    destruct (total_lines =? 0); repeat quiet_step.
  - repeat quiet_step.
  - repeat quiet_step.
  - auto with quiet.
Qed.

Lemma json_fold_unfiltered (filters : list string) :
  In EmptyString filters ->
  forall (entries : list file_entry) (total_lines covered_lines : Z)
         (matched_files : list string),
    fold_left (Json.json_step filters) entries
              (total_lines, covered_lines, matched_files) =
    (total_lines + sum (map total_of (counted entries)),
     covered_lines + sum (map covered_of (counted entries)),
     (matched_files ++ map name_of (counted entries))%list).
Proof.
  intros Hin. induction entries as [| fe entries IH]; intros T C ms;
    cbn [fold_left counted filter].
  - cbn. rewrite !Z.add_0_r, app_nil_r. reflexivity.
  - assert (matches filters (name_of fe)) as Hm.
    { exists EmptyString. split; [exact Hin |].
      apply str_in_spec, str_in_empty. }
    fold (counted entries).
    destruct (0 <? total_of fe) eqn:Hpos.
    + rewrite json_step_match by (try apply Z.ltb_lt; assumption).
      rewrite IH. cbn [map sum fold_right]. rewrite <- app_assoc. cbn [app].
      fold (sum (map total_of (counted entries))).
      fold (sum (map covered_of (counted entries))).
      f_equal. f_equal; lia.
    + replace (Json.json_step filters (T, C, ms) fe) with (T, C, ms).
      * apply IH.
      * unfold Json.json_step. fold (name_of fe) (total_of fe).
        rewrite Hpos. destruct (Json.any_pattern_in filters (name_of fe));
          reflexivity.
Qed.

(** ** Numerals and the groups of the coverage pattern *)

Lemma span_app (f : ascii -> bool) (s : string) :
  s = (fst (Str.span f s) ++ snd (Str.span f s))%string.
Proof.
  induction s as [| c s IH]; cbn [Str.span]; [reflexivity |].
  destruct (f c); [| reflexivity].
  destruct (Str.span f s) as [run rest]. cbn in *. f_equal. exact IH.
Qed.

Lemma span_every (f : ascii -> bool) (s : string) :
  every f (fst (Str.span f s)) = true.
Proof.
  induction s as [| c s IH]; cbn [Str.span]; [reflexivity |].
  destruct (f c) eqn:E; [| reflexivity].
  destruct (Str.span f s) as [run rest]. cbn in *. rewrite E. exact IH.
Qed.

(** A greedy run stops exactly where the class stops. *)
Lemma span_run (f : ascii -> bool) (run rest : string) :
  every f run = true ->
  match rest with
  | EmptyString => True
  | String c _ => f c = false
  end ->
  Str.span f (run ++ rest) = (run, rest).
Proof.
  intros Hrun Hrest. induction run as [| c run IH]; cbn [append Str.span].
  - destruct rest as [| c rest]; [reflexivity |]. cbn [Str.span].
    rewrite Hrest. reflexivity.
  - cbn [every] in Hrun. apply andb_true_iff in Hrun as [Hc Hrun].
    rewrite Hc, (IH Hrun). reflexivity.
Qed.

Lemma numeral_parts_unique (int_part frac_part int_part' frac_part' : string) :
  every Str.is_digit int_part = true ->
  every Str.is_digit int_part' = true ->
  (int_part ++ "." ++ frac_part)%string
  = (int_part' ++ "." ++ frac_part')%string ->
  int_part = int_part' /\ frac_part = frac_part'.
Proof.
  intros H H' E.
  pose proof (span_run Str.is_digit int_part ("." ++ frac_part) H eq_refl)
    as S1.
  pose proof (span_run Str.is_digit int_part' ("." ++ frac_part') H' eq_refl)
    as S2.
  rewrite E in S1. rewrite S1 in S2. cbn [append] in S2.
  split; congruence.
Qed.

Lemma every_app (f : ascii -> bool) (s1 s2 : string) :
  every f (s1 ++ s2) = (every f s1 && every f s2)%bool.
Proof.
  induction s1 as [| c s1 IH]; cbn [append every]; [reflexivity |].
  rewrite IH. apply andb_assoc.
Qed.

Lemma digit_value_range (c : ascii) :
  Str.is_digit c = true -> 0 <= Str.digit_value c <= 9.
Proof.
  unfold Str.is_digit, Str.digit_value. intro H.
  apply andb_true_iff in H as [H1 H2].
  apply N.leb_le in H1, H2. lia.
Qed.

Lemma digits_value_nonneg (s : string) :
  every Str.is_digit s = true ->
  forall acc, 0 <= acc -> 0 <= Str.digits_value_from acc s.
Proof.
  induction s as [| c s IH]; cbn [every Str.digits_value_from]; intros H acc Hacc.
  - exact Hacc.
  - apply andb_true_iff in H as [Hc Hs].
    apply IH; [exact Hs |]. pose proof (digit_value_range c Hc). lia.
Qed.

Lemma all_digits_every (s : string) :
  Str.all_digits s = true -> every Str.is_digit s = true.
Proof.
  unfold Str.all_digits. intro H.
  pose proof (span_app Str.is_digit s) as Happ.
  pose proof (span_every Str.is_digit s) as Hev.
  destruct (Str.span Str.is_digit s) as [run rest]. cbn in *.
  destruct rest; [| discriminate].
  rewrite Happ. rewrite every_app, Hev. reflexivity.
Qed.

Lemma every_all_digits (s : string) :
  every Str.is_digit s = true -> Str.all_digits s = true.
Proof.
  intro H. unfold Str.all_digits.
  pose proof (span_run Str.is_digit s EmptyString H I) as E.
  replace (s ++ EmptyString)%string with s in E.
  - rewrite E. reflexivity.
  - clear. induction s as [| c s IH]; cbn; [reflexivity | f_equal; exact IH].
Qed.

Lemma int_of_string_nonneg (s : string) (n : Z) :
  Str.int_of_string s = Ok n -> 0 <= n.
Proof.
  unfold Str.int_of_string.
  destruct (negb (Str.is_empty s) && Str.all_digits s)%bool eqn:E;
    [| discriminate].
  intros [= <-]. apply andb_true_iff in E as [_ E].
  apply digits_value_nonneg; [apply all_digits_every; exact E | lia].
Qed.

Lemma append_empty_r (s : string) : (s ++ EmptyString)%string = s.
Proof. induction s as [| c s IH]; cbn; [reflexivity | f_equal; exact IH]. Qed.

Lemma is_empty_false (s : string) : Str.is_empty s = false <-> s <> EmptyString.
Proof. destruct s; cbn; split; congruence. Qed.

Lemma coverage_pattern_at_groups (s group1 group2 : string) :
  Str.coverage_pattern_at s = Some (group1, group2) ->
  coverage_groups group1 group2.
Proof.
  unfold Str.coverage_pattern_at.
  destruct (Str.strip_prefix "Lines executed:" s) as [r0 |]; [| discriminate].
  pose proof (span_every Str.is_digit r0) as H1.
  destruct (Str.span Str.is_digit r0) as [int_part r1].
  destruct (Str.is_empty int_part) eqn:E1; [discriminate |].
  destruct (Str.strip_prefix "." r1) as [r2 |]; [| discriminate].
  pose proof (span_every Str.is_digit r2) as H2.
  destruct (Str.span Str.is_digit r2) as [frac_part r3].
  destruct (Str.is_empty frac_part) eqn:E2; [discriminate |].
  destruct (Str.strip_prefix "% of " r3) as [r4 |]; [| discriminate].
  pose proof (span_every Str.is_digit r4) as H3.
  destruct (Str.span Str.is_digit r4) as [count r5].
  destruct (Str.is_empty count) eqn:E3; [discriminate |].
  intros [= <- <-]. exists int_part, frac_part. cbn [fst] in *.
  apply is_empty_false in E1, E2, E3. repeat split; assumption.
Qed.

Lemma coverage_pattern_search_groups (line group1 group2 : string) :
  Str.coverage_pattern_search line = Some (group1, group2) ->
  coverage_groups group1 group2.
Proof.
  induction line as [| c line IH]; cbn [Str.coverage_pattern_search].
  - destruct (Str.coverage_pattern_at EmptyString) as [[g1 g2] |] eqn:E;
      [| discriminate].
    intros [= <- <-]. eapply coverage_pattern_at_groups; exact E.
  - destruct (Str.coverage_pattern_at (String c line)) as [[g1 g2] |] eqn:E.
    + intros [= <- <-]. eapply coverage_pattern_at_groups; exact E.
    + exact IH.
Qed.

(** ** Signs of binary64 results *)

Lemma binary_round_aux_nonneg (mx ex : Z) (lx : location) :
  nonneg (binary_round_aux prec emax false mx ex lx).
Proof.
  unfold binary_round_aux.
  destruct (shr_fexp prec emax mx ex lx) as [mrs' e'].
  destruct (shr_fexp prec emax _ e' loc_Exact) as [mrs'' e''].
  destruct (shr_m mrs'') as [| m | m]; [exact I | | exact I].
  destruct (e'' <=? emax - prec); exact eq_refl.
Qed.

Lemma fdiv_finite_nonneg (m1 m2 : positive) (e1 e2 : Z) :
  nonneg (fdiv (S754_finite false m1 e1) (S754_finite false m2 e2)).
Proof.
  unfold fdiv, SFdiv.
  destruct (SFdiv_core_binary prec emax (Zpos m1) e1 (Zpos m2) e2)
    as [[mz ez] lz].
  apply binary_round_aux_nonneg.
Qed.

Lemma fdiv_nonneg (x : float) (m : positive) (e : Z) :
  nonneg x -> nonneg (fdiv x (S754_finite false m e)).
Proof.
  destruct x as [s | s | | s mx ex]; cbn [nonneg]; intro H; subst;
    try exact I; try reflexivity.
  apply fdiv_finite_nonneg.
Qed.

Lemma fmul_nonneg (x y : float) : nonneg x -> nonneg y -> nonneg (fmul x y).
Proof.
  destruct x as [sx | sx | | sx mx ex]; destruct y as [sy | sy | | sy my ey];
    cbn [nonneg]; intros Hx Hy; subst; try exact I; try reflexivity.
  apply binary_round_aux_nonneg.
Qed.

Lemma float_of_int_nonneg (n : Z) (x : float) :
  0 <= n -> float_of_int n = Ok x -> nonneg x.
Proof.
  unfold float_of_int. intros Hn.
  destruct (is_infinite _); [discriminate |]. intros [= <-].
  destruct n as [| p | p]; [exact I | | lia].
  unfold binary_normalize, binary_round.
  destruct (shl_align _ _ _) as [mz ez]. apply binary_round_aux_nonneg.
Qed.

Lemma int_of_float_nonneg (x : float) (n : Z) :
  nonneg x -> int_of_float x = Ok n -> 0 <= n.
Proof.
  destruct x as [s | s | | s m e]; cbn [nonneg int_of_float]; intros H;
    try discriminate.
  - intros [= <-]. lia.
  - subst s. intros [= <-]. cbn [cond_Zopp]. apply Z.shiftl_nonneg. lia.
Qed.

Lemma covered_of_nonneg (total : Z) (percent : float) (covered : Z) :
  0 <= total -> nonneg percent ->
  Gcov.covered_of total percent = Ok covered -> 0 <= covered.
Proof.
  intros Ht Hp. unfold Gcov.covered_of, int_mul_float, float_div_int.
  destruct (float_of_int total) as [ft | e] eqn:Eft; [| discriminate].
  cbn [rbind].
  replace (float_of_int 100)
    with (Ok (S754_finite false 7036874417766400 (-46)))
    by (vm_compute; reflexivity).
  cbn [rbind]. apply int_of_float_nonneg.
  apply fdiv_nonneg, fmul_nonneg; [| exact Hp].
  eapply float_of_int_nonneg; eassumption.
Qed.

Lemma float_of_string_groups (int_part frac_part : string) :
  every Str.is_digit int_part = true -> int_part <> EmptyString ->
  every Str.is_digit frac_part = true -> frac_part <> EmptyString ->
  float_of_string (int_part ++ "." ++ frac_part) =
  Ok (let num := Str.digits_value_from 0 (int_part ++ frac_part) in
      if num =? 0 then S754_zero false
      else fdiv (exact_of_Z num)
                (exact_of_Z (10 ^ Z.of_nat (String.length frac_part)))).
Proof.
  intros Hi Hin Hf Hfn. unfold float_of_string.
  rewrite (span_run Str.is_digit int_part ("." ++ frac_part) Hi)
    by reflexivity.
  cbn [append Str.strip_prefix Ascii.eqb Bool.eqb].
  pose proof (span_run Str.is_digit frac_part EmptyString Hf I) as E.
  rewrite append_empty_r in E. rewrite E.
  apply is_empty_false in Hin, Hfn. rewrite Hin, Hfn. cbn.
  destruct (_ =? 0); reflexivity.
Qed.

Lemma groups_convert (group1 group2 : string) :
  coverage_groups group1 group2 ->
  exists percent total,
    float_of_string group1 = Ok percent /\ nonneg percent
    /\ Str.int_of_string group2 = Ok total /\ 0 <= total.
Proof.
  intros (int_part & frac_part & -> & Hi & Hin & Hf & Hfn & Hc & Hcn).
  rewrite (float_of_string_groups _ _ Hi Hin Hf Hfn).
  assert (Str.int_of_string group2 = Ok (Str.digits_value_from 0 group2)) as E.
  { unfold Str.int_of_string. apply is_empty_false in Hcn. rewrite Hcn.
    rewrite (every_all_digits _ Hc). reflexivity. }
  eexists _, _. split; [reflexivity |]. split; [| split; [exact E |]].
  - cbv zeta.
    assert (0 <= Str.digits_value_from 0 (int_part ++ frac_part)) as Hnum.
    { apply digits_value_nonneg; [| lia]. rewrite every_app, Hi, Hf.
      reflexivity. }
    destruct (Z.eqb_spec (Str.digits_value_from 0 (int_part ++ frac_part)) 0)
      as [_ | Hnz]; [exact I |].
    assert (0 < 10 ^ Z.of_nat (String.length frac_part)) as Hden
      by (apply Z.pow_pos_nonneg; lia).
    destruct (Str.digits_value_from 0 (int_part ++ frac_part)) as [| p | p];
      [congruence | | lia].
    destruct (10 ^ Z.of_nat (String.length frac_part)) as [| q | q];
      [lia | | lia].
    apply fdiv_finite_nonneg.
  - eapply int_of_string_nonneg; exact E.
Qed.

(** ** The coverage table *)

Lemma lookup_assign_same (t : Gcov.table) (name : string) (v : Z * Z) :
  Gcov.lookup (Gcov.assign t name v) name = Some v.
Proof.
  induction t as [| [k old] t IH]; cbn [Gcov.assign Gcov.lookup].
  - rewrite String.eqb_refl. reflexivity.
  - destruct (String.eqb_spec k name) as [-> | Hne]; cbn [Gcov.lookup].
    + rewrite String.eqb_refl. reflexivity.
    + apply String.eqb_neq in Hne. rewrite Hne. exact IH.
Qed.

Lemma lookup_assign_other (t : Gcov.table) (name other : string) (v : Z * Z) :
  other <> name ->
  Gcov.lookup (Gcov.assign t name v) other = Gcov.lookup t other.
Proof.
  intro Hne. induction t as [| [k old] t IH]; cbn [Gcov.assign Gcov.lookup].
  - destruct (String.eqb_spec name other); [congruence | reflexivity].
  - destruct (String.eqb_spec k name) as [-> | Hk]; cbn [Gcov.lookup].
    + destruct (String.eqb_spec name other); [congruence | reflexivity].
    + rewrite IH. reflexivity.
Qed.

Lemma assign_keeps (Q : Z * Z -> Prop) (t : Gcov.table) (name : string)
    (v : Z * Z) :
  Forall (fun item => Q (snd item)) t -> Q v ->
  Forall (fun item => Q (snd item)) (Gcov.assign t name v).
Proof.
  intros Ht Hv. induction Ht as [| [k old] t Hold Ht IH]; cbn [Gcov.assign].
  - constructor; [exact Hv | constructor].
  - destruct (String.eqb k name); constructor; assumption.
Qed.

Lemma store_keeps (Q : Z * Z -> Prop) (t : Gcov.table) (name : string)
    (covered total : Z) :
  Forall (fun item => Q (snd item)) t -> Q (covered, total) ->
  Forall (fun item => Q (snd item)) (Gcov.store t name covered total).
Proof.
  intros Ht Hv. unfold Gcov.store.
  destruct (Gcov.lookup t name) as [[prev_cov prev_total] |].
  - destruct (prev_total <? total); [apply assign_keeps |]; assumption.
  - apply assign_keeps; assumption.
Qed.

(** C2.  A coverage line for a filename that already has an entry replaces
    the entry exactly when its total is strictly larger; on an equal or
    smaller total the table stays as it is, so the entry seen first is kept;
    the entries of other filenames are never touched. *)
Theorem duplicate_keeps_strictly_greater_total (t : Gcov.table)
    (name : string) (prev_cov prev_total covered total : Z) :
  Gcov.lookup t name = Some (prev_cov, prev_total) ->
  Gcov.lookup (Gcov.store t name covered total) name
  = Some (if prev_total <? total then (covered, total)
          else (prev_cov, prev_total))
  /\ (total <= prev_total -> Gcov.store t name covered total = t)
  /\ (forall other, other <> name ->
        Gcov.lookup (Gcov.store t name covered total) other
        = Gcov.lookup t other).
Proof.
  intro Hprev. unfold Gcov.store. rewrite Hprev.
  destruct (Z.ltb_spec prev_total total) as [Hlt | Hge].
  - split; [apply lookup_assign_same |]. split; [lia |].
    intros other Hne. apply lookup_assign_other. exact Hne.
  - split; [exact Hprev |]. split; intros; reflexivity.
Qed.

Lemma duplicate_keeps_strictly_greater_total_witness :
  Gcov.lookup (Gcov.store [("src/foo.c", (30, 40))] "src/foo.c" 40 40)
              "src/foo.c"
  = Some (30, 40)
  /\ Gcov.lookup (Gcov.store [("src/foo.c", (30, 40))] "src/foo.c" 20 50)
                 "src/foo.c"
     = Some (20, 50).
Proof.
  split.
  - exact (proj1 (duplicate_keeps_strictly_greater_total
                    [("src/foo.c", (30, 40))] "src/foo.c" 30 40 40 40
                    eq_refl)).
  - exact (proj1 (duplicate_keeps_strictly_greater_total
                    [("src/foo.c", (30, 40))] "src/foo.c" 30 40 20 50
                    eq_refl)).
Defined.

(** ** The line scanner *)

Lemma file_pattern_match_nonempty (line name : string) :
  Str.file_pattern_match line = Some name -> name <> EmptyString.
Proof.
  unfold Str.file_pattern_match.
  destruct (Str.strip_prefix "File '" line) as [rest |]; [| discriminate].
  destruct (Str.span _ rest) as [run after].
  destruct (Str.is_empty run) eqn:E; [discriminate |].
  destruct after as [| c after]; [discriminate |].
  destruct (Ascii.eqb c "'"); [| discriminate].
  intros [= <-]. apply is_empty_false. exact E.
Qed.

Lemma scan_line_coverage (st : Gcov.scan_state)
    (line group1 group2 name : string) :
  Str.file_pattern_match line = None ->
  Str.coverage_pattern_search line = Some (group1, group2) ->
  Gcov.cursor st = Some name ->
  exists percent total,
    float_of_string group1 = Ok percent /\ nonneg percent
    /\ Str.int_of_string group2 = Ok total /\ 0 <= total
    /\ Gcov.scan_line st line =
       rbind (Gcov.covered_of total percent) (fun covered =>
         Ok {| Gcov.current_file := None;
               Gcov.file_coverage :=
                 Gcov.store (Gcov.file_coverage st) name covered total |}).
Proof.
  intros Hfile Hcov Hcur.
  destruct (groups_convert group1 group2
              (coverage_pattern_search_groups _ _ _ Hcov))
    as (percent & total & Hp & Hnn & Ht & Hpos).
  exists percent, total. repeat (split; [assumption |]).
  unfold Gcov.scan_line. rewrite Hfile, Hcov, Hcur, Hp, Ht. reflexivity.
Qed.



Lemma scan_line_ignored (st : Gcov.scan_state) (line : string) :
  Str.file_pattern_match line = None ->
  Gcov.cursor st = None \/ Str.coverage_pattern_search line = None ->
  Gcov.scan_line st line = Ok st.
Proof.
  intros Hfile H. unfold Gcov.scan_line. rewrite Hfile.
  destruct H as [H | H]; rewrite H.
  - destruct (Str.coverage_pattern_search line) as [[g1 g2] |]; reflexivity.
  - reflexivity.
Qed.

(** ** Rounding below and above a grid point *)

(** Shifting a mantissa right. *)

Lemma shifted_one (mrs : shr_record) :
  0 <= shr_m mrs -> shifted 1 mrs (shr_1 mrs).
Proof.
  destruct mrs as [m r s]. cbn [shr_m]. intro Hm. unfold shifted, exact_record.
  change (2 ^ 1) with 2.
  destruct m as [| [p | p |] |]; cbn [shr_1 shr_m shr_r shr_s]; try lia.
  - split; [reflexivity |]. intros [-> ->] _. split; reflexivity.
  - split; [rewrite Pos2Z.inj_xI; apply Z.div_unique with 1; lia |].
    intros _ H. rewrite Pos2Z.inj_xI in H.
    rewrite Z.add_comm, Z.mul_comm, Z_mod_plus_full in H. discriminate H.
  - split; [rewrite Pos2Z.inj_xO; apply Z.div_unique with 0; lia |].
    intros [-> ->] _. split; reflexivity.
  - split; [reflexivity |]. intros _ H. discriminate H.
Qed.

Lemma shifted_trans (j k : Z) (a b c : shr_record) :
  0 <= j -> 0 <= k -> 0 <= shr_m a ->
  shifted j a b -> shifted k b c -> shifted (j + k) a c.
Proof.
  intros Hj Hk Ha [Hab Eab] [Hbc Ebc]. unfold shifted.
  assert (0 < 2 ^ j) by (apply Z.pow_pos_nonneg; lia).
  assert (0 < 2 ^ k) by (apply Z.pow_pos_nonneg; lia).
  rewrite Z.pow_add_r by lia. split.
  - rewrite Hbc, Hab. apply Z.div_div; lia.
  - intros Hex Hmod.
    apply Z.mod_divide in Hmod; [| lia]. destruct Hmod as [z Hz].
    apply Ebc.
    + apply Eab; [exact Hex |]. apply Z.mod_divide; [lia |].
      exists (z * 2 ^ k). lia.
    + rewrite Hab, Hz. replace (z * (2 ^ j * 2 ^ k)) with (z * 2 ^ k * 2 ^ j)
        by ring.
      rewrite Z.div_mul by lia. apply Z.mod_mul. lia.
Qed.

Lemma shifted_nonneg (k : Z) (a b : shr_record) :
  0 <= k -> 0 <= shr_m a -> shifted k a b -> 0 <= shr_m b.
Proof.
  intros Hk Ha [Hab _]. rewrite Hab. apply Z.div_pos; [exact Ha |].
  apply Z.pow_pos_nonneg; lia.
Qed.

Lemma shifted_iter (p : positive) :
  forall mrs, 0 <= shr_m mrs -> shifted (Zpos p) mrs (iter_pos shr_1 p mrs).
Proof.
  induction p as [p IH | p IH |]; intros mrs Hm; cbn [iter_pos].
  - pose proof (shifted_one mrs Hm) as H1.
    assert (0 <= shr_m (shr_1 mrs)) as Hm1
      by (apply (shifted_nonneg 1 mrs); [lia | exact Hm | exact H1]).
    pose proof (IH _ Hm1) as H2.
    assert (0 <= shr_m (iter_pos shr_1 p (shr_1 mrs))) as Hm2
      by (apply (shifted_nonneg (Zpos p) (shr_1 mrs));
          [lia | exact Hm1 | exact H2]).
    pose proof (IH _ Hm2) as H3.
    replace (Zpos p~1) with (1 + (Zpos p + Zpos p)) by lia.
    eapply shifted_trans; [lia | lia | exact Hm | exact H1 |].
    eapply shifted_trans; [lia | lia | exact Hm1 | exact H2 | exact H3].
  - pose proof (IH _ Hm) as H2.
    assert (0 <= shr_m (iter_pos shr_1 p mrs)) as Hm2
      by (apply (shifted_nonneg (Zpos p) mrs); [lia | exact Hm | exact H2]).
    pose proof (IH _ Hm2) as H3.
    replace (Zpos p~0) with (Zpos p + Zpos p) by lia.
    eapply shifted_trans; [lia | lia | exact Hm | exact H2 | exact H3].
  - apply shifted_one. exact Hm.
Qed.

(** [shr_fexp] and [round_nearest_even]. *)

Lemma shr_fexp_spec (m e : Z) (l : location) :
  0 <= m ->
  let n := shift_amount m e in
  let '(mrs, e') := shr_fexp prec emax m e l in
  e' = e + n
  /\ shr_m mrs = m / 2 ^ n
  /\ (l = loc_Exact -> m mod 2 ^ n = 0 -> loc_of_shr_record mrs = loc_Exact).
Proof.
  intros Hm n. unfold shr_fexp, shr. subst n. unfold shift_amount.
  set (d := fexp prec emax (Zdigits2 m + e) - e).
  assert (shr_m (shr_record_of_loc m l) = m) as Hrec
    by (destruct l as [| []]; reflexivity).
  assert (l = loc_Exact -> exact_record (shr_record_of_loc m l)) as Hex
    by (intros ->; split; reflexivity).
  assert (forall mrs, exact_record mrs -> loc_of_shr_record mrs = loc_Exact)
    as Hloc by (intros [m0 r s] [H1 H2]; cbn in *; subst; reflexivity).
  destruct d as [| p | p].
  - rewrite Z.max_l by lia. rewrite Z.add_0_r, Z.pow_0_r, Z.div_1_r.
    split; [reflexivity |]. split; [exact Hrec |]. auto.
  - rewrite Z.max_r by lia.
    pose proof (shifted_iter p (shr_record_of_loc m l)) as [H1 H2];
      [rewrite Hrec; exact Hm |].
    rewrite Hrec in *. split; [reflexivity |]. split; [exact H1 |]. auto.
  - rewrite Z.max_l by lia. rewrite Z.add_0_r, Z.pow_0_r, Z.div_1_r.
    split; [reflexivity |]. split; [exact Hrec |]. auto.
Qed.

Lemma round_nearest_even_bounds (m : Z) (l : location) :
  m <= round_nearest_even m l <= m + 1
  /\ (l = loc_Exact -> round_nearest_even m l = m).
Proof.
  unfold round_nearest_even. destruct l as [| []];
    try destruct (Z.even m); split; try lia; try reflexivity; discriminate.
Qed.

Lemma digits2_pos_bounds (p : positive) :
  2 ^ (Zpos (digits2_pos p) - 1) <= Zpos p < 2 ^ Zpos (digits2_pos p).
Proof.
  induction p as [p IH | p IH |]; cbn [digits2_pos].
  - rewrite Pos2Z.inj_succ. change (Zpos p~1) with (2 * Zpos p + 1).
    replace (Z.succ (Zpos (digits2_pos p)) - 1) with (Zpos (digits2_pos p))
      by lia.
    rewrite Z.pow_succ_r by lia.
    replace (2 ^ Zpos (digits2_pos p))
      with (2 * 2 ^ (Zpos (digits2_pos p) - 1)) in *
      by (rewrite <- Z.pow_succ_r by lia; f_equal; lia).
    generalize dependent (2 ^ (Zpos (digits2_pos p) - 1)). intros; lia.
  - rewrite Pos2Z.inj_succ. change (Zpos p~0) with (2 * Zpos p).
    replace (Z.succ (Zpos (digits2_pos p)) - 1) with (Zpos (digits2_pos p))
      by lia.
    rewrite Z.pow_succ_r by lia.
    replace (2 ^ Zpos (digits2_pos p))
      with (2 * 2 ^ (Zpos (digits2_pos p) - 1)) in *
      by (rewrite <- Z.pow_succ_r by lia; f_equal; lia).
    generalize dependent (2 ^ (Zpos (digits2_pos p) - 1)). intros; lia.
  - cbn. lia.
Qed.

Lemma fexp_monotone (a b : Z) :
  a <= b -> fexp prec emax a <= fexp prec emax b.
Proof. unfold fexp. lia. Qed.

(** Values as rationals. *)

Lemma pow2_pos (e : Z) : (0 < pow2 e)%Q.
Proof. apply Qpower_0_lt. reflexivity. Qed.

Lemma pow2_add (a b : Z) : (pow2 (a + b) == pow2 a * pow2 b)%Q.
Proof. apply Qpower_plus. discriminate. Qed.

Lemma pow2_Z (k : Z) : 0 <= k -> (pow2 k == inject_Z (2 ^ k))%Q.
Proof. intro H. unfold pow2. rewrite Zpower_Qpower by exact H. reflexivity. Qed.

Lemma pow2_le (a b : Z) : a <= b -> (pow2 a <= pow2 b)%Q.
Proof.
  intro H. replace b with (a + (b - a)) by lia. rewrite pow2_add.
  rewrite (pow2_Z (b - a)) by lia.
  assert (1 <= 2 ^ (b - a)) as H1
    by (pose proof (Z.pow_pos_nonneg 2 (b - a)); lia).
  rewrite Zle_Qle in H1.
  pose proof (pow2_pos a). change (inject_Z 1) with 1%Q in H1. nra.
Qed.

Lemma scaled_mono (m m' e : Z) : m <= m' -> (scaled m e <= scaled m' e)%Q.
Proof.
  intro H. unfold scaled. rewrite Zle_Qle in H.
  pose proof (pow2_pos e). nra.
Qed.

Lemma scaled_shift (m e n : Z) :
  0 <= m -> 0 <= n -> (scaled (m / 2 ^ n) (e + n) <= scaled m e)%Q.
Proof.
  intros Hm Hn. unfold scaled. rewrite pow2_add, (pow2_Z n) by exact Hn.
  assert (m / 2 ^ n * 2 ^ n <= m) as H.
  { pose proof (Z.mul_div_le m (2 ^ n)) as H.
    rewrite Z.mul_comm. apply H. apply Z.pow_pos_nonneg; lia. }
  rewrite Zle_Qle in H. rewrite inject_Z_mult in H.
  pose proof (pow2_pos e). nra.
Qed.

Lemma scaled_shift_exact (m e n : Z) :
  0 <= m -> 0 <= n ->
  (scaled m e <= scaled (m / 2 ^ n) (e + n))%Q -> m mod 2 ^ n = 0.
Proof.
  intros Hm Hn. unfold scaled. rewrite pow2_add, (pow2_Z n) by exact Hn.
  intro H. pose proof (pow2_pos e) as Hp.
  assert (inject_Z m <= inject_Z (m / 2 ^ n) * inject_Z (2 ^ n))%Q as H'
    by nra.
  rewrite <- inject_Z_mult in H'. rewrite <- Zle_Qle in H'.
  assert (0 < 2 ^ n) as Hpow by (apply Z.pow_pos_nonneg; lia).
  pose proof (Z.div_mod m (2 ^ n) ltac:(lia)) as Hdm.
  pose proof (Z.mod_pos_bound m (2 ^ n) Hpow). lia.
Qed.

Lemma location_exact_dec (l : location) : {l = loc_Exact} + {l <> loc_Exact}.
Proof. destruct l; [left; reflexivity | right; discriminate]. Qed.

Lemma scaled_lt_inv (a b e : Z) : (scaled a e < scaled b e)%Q -> a < b.
Proof.
  unfold scaled. intro H. pose proof (pow2_pos e).
  rewrite Zlt_Qlt. nra.
Qed.

Lemma scaled_le_inv (a b e : Z) : (scaled a e <= scaled b e)%Q -> a <= b.
Proof.
  unfold scaled. intro H. pose proof (pow2_pos e).
  rewrite Zle_Qle. nra.
Qed.

Lemma scaled_rescale (m e k : Z) :
  0 <= k -> (scaled (m * 2 ^ k) e == scaled m (e + k))%Q.
Proof.
  intro Hk. unfold scaled.
  rewrite inject_Z_mult, pow2_add, (pow2_Z k) by exact Hk. ring.
Qed.

Lemma dyadic_nonneg (M j : Z) : 0 <= M -> (0 <= dyadic M j)%Q.
Proof.
  intro H. unfold dyadic, scaled. pose proof (pow2_pos (- j)).
  rewrite Zle_Qle in H. change (inject_Z 0) with 0%Q in H. nra.
Qed.

Lemma dyadic_lt_pow2 (M j : Z) :
  M < 2 ^ 53 -> (dyadic M j < pow2 (53 - j))%Q.
Proof.
  intro H. unfold dyadic, scaled.
  replace (53 - j) with (53 + - j) by lia.
  rewrite pow2_add, (pow2_Z 53) by lia.
  pose proof (pow2_pos (- j)). rewrite Zlt_Qlt in H. nra.
Qed.

(** A grid point [M * 2 ^ (- j)] that lies between two neighbours of a
    coarser or equal grid [2 ^ e], [e <= - j] being the finer one, is at most
    the lower neighbour. *)
Lemma grid_point_below (q e M j : Z) :
  e <= - j -> (dyadic M j < scaled (q + 1) e)%Q -> (dyadic M j <= scaled q e)%Q.
Proof.
  intros He H.
  assert (dyadic M j == scaled (M * 2 ^ (- j - e)) e)%Q as E.
  { unfold dyadic. rewrite scaled_rescale by lia.
    replace (e + (- j - e)) with (- j) by lia. reflexivity. }
  rewrite E in *. apply scaled_lt_inv in H. apply scaled_mono. lia.
Qed.

(** A mantissa cut to [prec] bits at a normal exponent has its top bit
    set. *)
Lemma normal_cut (p : positive) (e : Z) :
  let e' := fexp prec emax (Zpos (digits2_pos p) + e) in
  emin prec emax < e' -> e <= e' ->
  (pow2 (52 + e') <= scaled (Zpos p / 2 ^ (e' - e)) e')%Q.
Proof.
  intros e' Hnorm Hle.
  assert (e' = Zpos (digits2_pos p) + e - 53) as He'
    by (unfold e', fexp, prec in *; lia).
  pose proof (digits2_pos_bounds p) as [Hd _].
  assert (0 < 2 ^ (e' - e)) as Hpow by (apply Z.pow_pos_nonneg; lia).
  assert (2 ^ 52 <= Zpos p / 2 ^ (e' - e)) as Hq.
  { apply Z.div_le_lower_bound; [exact Hpow |].
    rewrite <- Z.pow_add_r by lia.
    replace (e' - e + 52) with (Zpos (digits2_pos p) - 1) by lia. exact Hd. }
  apply (scaled_mono _ _ e') in Hq. unfold scaled at 1 in Hq.
  rewrite <- (pow2_Z 52), <- pow2_add in Hq by lia. exact Hq.
Qed.

(** Rounding does not cross a grid point that is itself a float: a value at
    most [M * 2 ^ (- j)], with [M < 2 ^ 53], rounds to at most that. *)
Lemma round_below (mx ex : Z) (lx : location) (M j : Z) :
  0 <= mx -> 0 <= M < 2 ^ 53 -> 0 <= j <= 1074 ->
  (scaled mx ex <= dyadic M j)%Q ->
  (lx <> loc_Exact -> (scaled mx ex < dyadic M j)%Q) ->
  lx = loc_Exact \/ ex <= fexp prec emax (Zdigits2 mx + ex) ->
  below (binary_round_aux prec emax false mx ex lx) (dyadic M j).
Proof.
  intros Hmx HM Hj Hle Hlt Hcexp. unfold binary_round_aux.
  pose proof (dyadic_lt_pow2 M j ltac:(lia)) as Htop.
  pose proof (shr_fexp_spec mx ex lx Hmx) as S1.
  destruct (shr_fexp prec emax mx ex lx) as [mrs' e'].
  cbv zeta in S1. destruct S1 as (He' & Hq & Hloc').
  set (n := shift_amount mx ex) in *.
  assert (0 <= n) as Hn by (unfold n, shift_amount; lia).
  pose proof (round_nearest_even_bounds (shr_m mrs') (loc_of_shr_record mrs'))
    as [Hr1 Hr1e].
  set (r1 := round_nearest_even (shr_m mrs') (loc_of_shr_record mrs')) in *.
  assert (0 <= shr_m mrs') as Hq0.
  { rewrite Hq. apply Z.div_pos; [exact Hmx | apply Z.pow_pos_nonneg; lia]. }
  assert (0 <= r1) as Hr0 by lia.
  assert (scaled (shr_m mrs') e' <= scaled mx ex)%Q as Hcut.
  { rewrite Hq, He'. apply scaled_shift; assumption. }
  assert (scaled r1 e' <= dyadic M j)%Q as G.
  { destruct (location_exact_dec (loc_of_shr_record mrs')) as [Hex | Hin].
    - rewrite (Hr1e Hex). lra.
    - assert (scaled r1 e' <= scaled (shr_m mrs' + 1) e')%Q as Hup
        by (apply scaled_mono; lia).
      destruct (Qlt_le_dec (dyadic M j) (scaled (shr_m mrs' + 1) e'))
        as [Habove |]; [| lra].
      exfalso. destruct (Z_le_gt_dec e' (- j)) as [He0 | He0].
      + pose proof (grid_point_below _ _ _ _ He0 Habove) as Hge.
        assert (lx = loc_Exact) as Hlx.
        { destruct (location_exact_dec lx) as [E | E]; [exact E |].
          specialize (Hlt E). lra. }
        apply Hin, Hloc'; [exact Hlx |].
        apply (scaled_shift_exact mx ex n Hmx Hn).
        rewrite <- He', <- Hq. lra.
      + assert (e' = fexp prec emax (Zdigits2 mx + ex)) as Hfexp.
        { destruct (Z_le_gt_dec ex (fexp prec emax (Zdigits2 mx + ex)))
            as [Hc | Hc].
          - rewrite He'. unfold n, shift_amount. lia.
          - exfalso. destruct Hcexp as [Hlx | Hc']; [| lia].
            apply Hin, Hloc'; [exact Hlx |].
            replace n with 0 by (unfold n, shift_amount; lia).
            apply Z.mod_1_r. }
        unfold fexp, emin, prec, emax in Hfexp.
        destruct mx as [| p | p]; [cbn [Zdigits2] in Hfexp; lia | | lia].
        cbn [Zdigits2] in Hfexp.
        pose proof (digits2_pos_bounds p) as [Hd _].
        assert (scaled (2 ^ (Zpos (digits2_pos p) - 1)) ex
                <= scaled (Zpos p) ex)%Q as Hlow
          by (apply scaled_mono; exact Hd).
        unfold scaled at 1 in Hlow.
        rewrite <- pow2_Z, <- pow2_add in Hlow by lia.
        assert (pow2 (53 - j) <= pow2 (Zpos (digits2_pos p) - 1 + ex))%Q
          as H53 by (apply pow2_le; lia).
        lra. }
  assert (0 <= shift_amount r1 e') as Hn2 by (unfold shift_amount; lia).
  pose proof (shr_fexp_spec r1 e' loc_Exact Hr0) as S2.
  destruct (shr_fexp prec emax r1 e' loc_Exact) as [mrs'' e''].
  cbv zeta in S2. destruct S2 as (He'' & Hm'' & _).
  assert (scaled (shr_m mrs'') e'' <= dyadic M j)%Q as Hfin.
  { rewrite Hm'', He''.
    pose proof (scaled_shift r1 e' _ Hr0 Hn2). lra. }
  destruct (shr_m mrs'') as [| m | m] eqn:Em; cbn [below].
  - exact I.
  - destruct (Z.leb_spec e'' (emax - prec)) as [Hfit | Hover];
      cbn [below]; [exact Hfin |].
    unfold emax, prec in Hover.
    assert (scaled 1 e'' <= scaled (Zpos m) e'')%Q as H1
      by (apply scaled_mono; lia).
    unfold scaled at 1 in H1.
    assert (pow2 (53 - j) <= pow2 e'')%Q as H53 by (apply pow2_le; lia).
    change (inject_Z 1) with 1%Q in H1. lra.
  - exfalso.
    assert (0 <= r1 / 2 ^ shift_amount r1 e')
      by (apply Z.div_pos; [exact Hr0 | apply Z.pow_pos_nonneg; lia]).
    lia.
Qed.

(** A shift by [shift_amount] keeps a value at or above a grid point that is
    itself a float. *)
Lemma shift_above (m e M j : Z) :
  0 <= m -> 0 <= M < 2 ^ 53 -> 0 <= j <= 1074 ->
  (dyadic M j < scaled (m + 1) e)%Q ->
  (dyadic M j <= scaled m e)%Q \/ e <= fexp prec emax (Zdigits2 m + e) ->
  (dyadic M j <= scaled (m / 2 ^ shift_amount m e) (e + shift_amount m e))%Q.
Proof.
  intros Hm HM Hj Hlt Hor.
  pose proof (dyadic_lt_pow2 M j ltac:(lia)) as Htop.
  set (n := shift_amount m e).
  assert (0 <= n) as Hn by (unfold n, shift_amount; lia).
  assert (0 < 2 ^ n) as Hpow by (apply Z.pow_pos_nonneg; lia).
  set (q := m / 2 ^ n).
  assert (m + 1 <= (q + 1) * 2 ^ n) as Hup.
  { pose proof (Z.div_mod m (2 ^ n) ltac:(lia)) as Hdm.
    pose proof (Z.mod_pos_bound m (2 ^ n) Hpow). fold q in Hdm. lia. }
  assert (dyadic M j < scaled (q + 1) (e + n))%Q as Hlt'.
  { apply (scaled_mono _ _ e) in Hup. rewrite scaled_rescale in Hup by lia.
    lra. }
  destruct (Z_le_gt_dec (e + n) (- j)) as [Hgrid | Hcoarse];
    [apply grid_point_below; assumption |].
  destruct (Z.eq_dec n 0) as [Hn0 | Hn0].
  - destruct Hor as [Hdirect | Hc].
    + unfold q. rewrite Hn0, Z.pow_0_r, Z.div_1_r, Z.add_0_r. exact Hdirect.
    + assert (e = fexp prec emax (Zdigits2 m + e)) as Hfexp
        by (unfold n, shift_amount in Hn0; lia).
      destruct m as [| p | p]; [| | lia].
      * exfalso. cbn [Zdigits2] in Hfexp.
        unfold fexp, emin, prec, emax in Hfexp. lia.
      * cbn [Zdigits2] in Hfexp.
        pose proof (normal_cut p e) as Hcut. cbv zeta in Hcut.
        rewrite <- Hfexp in Hcut. rewrite Z.sub_diag, Z.pow_0_r in Hcut.
        rewrite Z.div_1_r in Hcut.
        unfold q. rewrite Hn0, Z.pow_0_r, Z.div_1_r, Z.add_0_r.
        assert (pow2 (53 - j) <= pow2 (52 + e))%Q by (apply pow2_le; lia).
        assert (emin prec emax < e) by (unfold emin, prec, emax; lia).
        specialize (Hcut ltac:(assumption) ltac:(lia)). lra.
  - assert (e + n = fexp prec emax (Zdigits2 m + e)) as Hfexp
      by (unfold n, shift_amount in *; lia).
    destruct m as [| p | p]; [| | lia].
    + exfalso. cbn [Zdigits2] in Hfexp.
      unfold fexp, emin, prec, emax in Hfexp. lia.
    + cbn [Zdigits2] in Hfexp.
      pose proof (normal_cut p e) as Hcut. cbv zeta in Hcut.
      rewrite <- Hfexp in Hcut.
      replace (e + n - e) with n in Hcut by lia. fold q in Hcut.
      assert (pow2 (53 - j) <= pow2 (52 + (e + n)))%Q by (apply pow2_le; lia).
      assert (emin prec emax < e + n) by (unfold emin, prec, emax; lia).
      specialize (Hcut ltac:(assumption) ltac:(lia)). lra.
Qed.

(** Rounding does not cross a grid point from above either. *)
Lemma round_above (mx ex : Z) (lx : location) (M j : Z) :
  0 <= mx -> 0 <= M < 2 ^ 53 -> 0 <= j <= 1074 ->
  (dyadic M j < scaled (mx + 1) ex)%Q ->
  (dyadic M j <= scaled mx ex)%Q
  \/ ex <= fexp prec emax (Zdigits2 mx + ex) ->
  above (binary_round_aux prec emax false mx ex lx) (dyadic M j).
Proof.
  intros Hmx HM Hj Hlt Hcexp. unfold binary_round_aux.
  pose proof (shr_fexp_spec mx ex lx Hmx) as S1.
  destruct (shr_fexp prec emax mx ex lx) as [mrs' e'].
  cbv zeta in S1. destruct S1 as (He' & Hq & _).
  pose proof (round_nearest_even_bounds (shr_m mrs') (loc_of_shr_record mrs'))
    as [Hr1 _].
  set (r1 := round_nearest_even (shr_m mrs') (loc_of_shr_record mrs')) in *.
  assert (0 <= shr_m mrs') as Hq0.
  { rewrite Hq. apply Z.div_pos; [exact Hmx |].
    apply Z.pow_pos_nonneg; unfold shift_amount; lia. }
  assert (0 <= r1) as Hr0 by lia.
  assert (dyadic M j <= scaled r1 e')%Q as G.
  { apply Qle_trans with (scaled (shr_m mrs') e');
      [| apply scaled_mono; lia].
    rewrite Hq, He'. apply shift_above; assumption. }
  pose proof (shr_fexp_spec r1 e' loc_Exact Hr0) as S2.
  destruct (shr_fexp prec emax r1 e' loc_Exact) as [mrs'' e''].
  cbv zeta in S2. destruct S2 as (He'' & Hm'' & _).
  assert (dyadic M j <= scaled (shr_m mrs'') e'')%Q as Hfin.
  { rewrite Hm'', He''. apply shift_above; try assumption; [| left; exact G].
    apply Qle_lt_trans with (scaled r1 e'); [exact G |].
    unfold scaled. pose proof (pow2_pos e'). rewrite inject_Z_plus.
    change (inject_Z 1) with 1%Q. nra. }
  destruct (shr_m mrs'') as [| m | m] eqn:Em; cbn [above].
  - unfold scaled in Hfin. change (inject_Z 0) with 0%Q in Hfin. lra.
  - destruct (e'' <=? emax - prec); cbn [above]; [exact Hfin | exact I].
  - exfalso.
    assert (0 <= r1 / 2 ^ shift_amount r1 e')
      by (apply Z.div_pos; [exact Hr0 |];
          apply Z.pow_pos_nonneg; unfold shift_amount; lia).
    lia.
Qed.

(** Division. *)

Lemma new_location_exact (nb k : Z) :
  new_location nb k = loc_Exact <-> k = 0.
Proof.
  unfold new_location, new_location_even, new_location_odd.
  destruct (Z.even nb); destruct (Z.eqb_spec k 0) as [-> | Hk];
    split; intro H; try reflexivity; try discriminate; contradiction.
Qed.

Lemma Zdigits2_nonneg (q : Z) : 0 <= q -> 0 <= Zdigits2 q.
Proof. destruct q; cbn; lia. Qed.

Lemma Zdigits2_lower (q k : Z) : 0 <= k -> 2 ^ k <= q -> k + 1 <= Zdigits2 q.
Proof.
  intros Hk Hq.
  assert (0 < 2 ^ k) by (apply Z.pow_pos_nonneg; lia).
  destruct q as [| p | p]; try lia. cbn [Zdigits2].
  pose proof (digits2_pos_bounds p) as [_ Hup].
  assert (2 ^ k < 2 ^ Zpos (digits2_pos p)) as Hlt by lia.
  apply Z.pow_lt_mono_r_iff in Hlt; lia.
Qed.

Lemma scaled_pos (m : positive) (e : Z) : (0 < scaled (Zpos m) e)%Q.
Proof.
  unfold scaled. pose proof (pow2_pos e).
  assert (0 < Zpos m) as H1 by lia. rewrite Zlt_Qlt in H1.
  change (inject_Z 0) with 0%Q in H1. nra.
Qed.

(** The quotient [SFdiv_core_binary] hands to the rounding: it is the exact
    quotient cut at an exponent fine enough for a correct rounding. *)
Lemma div_core_spec (m1 m2 : positive) (e1 e2 : Z) :
  let '(q, e', l) := SFdiv_core_binary prec emax (Zpos m1) e1 (Zpos m2) e2 in
  0 <= q
  /\ (scaled q e' * scaled (Zpos m2) e2 <= scaled (Zpos m1) e1)%Q
  /\ (scaled (Zpos m1) e1 < scaled (q + 1) e' * scaled (Zpos m2) e2)%Q
  /\ (l <> loc_Exact ->
      (scaled q e' * scaled (Zpos m2) e2 < scaled (Zpos m1) e1)%Q)
  /\ e' <= fexp prec emax (Zdigits2 q + e').
Proof.
  unfold SFdiv_core_binary. cbn [Zdigits2].
  set (d1 := Zpos (digits2_pos m1)). set (d2 := Zpos (digits2_pos m2)).
  set (e' := Z.min (fexp prec emax (d1 + e1 - (d2 + e2))) (e1 - e2)).
  set (s := e1 - e2 - e').
  assert (0 <= s) as Hs by (unfold s, e'; lia).
  set (m' := match s with
             | 0 => Zpos m1
             | Zpos _ => Z.shiftl (Zpos m1) s
             | Zneg _ => 0
             end).
  assert (m' = Zpos m1 * 2 ^ s) as Hm'.
  { unfold m'. destruct s as [| p | p]; [rewrite Z.pow_0_r; lia | | lia].
    apply Z.shiftl_mul_pow2. lia. }
  pose proof (Z_div_mod m' (Zpos m2) ltac:(lia)) as Hdiv.
  destruct (Z.div_eucl m' (Zpos m2)) as [q r]. destruct Hdiv as [Hqr Hr].
  assert (0 < 2 ^ s) as Hpow by (apply Z.pow_pos_nonneg; lia).
  assert (0 <= q) as Hq by nia.
  assert (scaled m' (e' + e2) == scaled (Zpos m1) e1)%Q as Hval.
  { rewrite Hm', scaled_rescale by exact Hs.
    replace (e' + e2 + s) with e1 by (unfold s; lia). reflexivity. }
  assert (forall a, scaled a e' * scaled (Zpos m2) e2
                    == scaled (a * Zpos m2) (e' + e2))%Q as Hprod.
  { intro a. unfold scaled. rewrite inject_Z_mult, pow2_add. ring. }
  pose proof (pow2_pos (e' + e2)) as Hp.
  split; [exact Hq |]. split; [| split; [| split]].
  - rewrite Hprod, <- Hval. apply scaled_mono. lia.
  - rewrite Hprod, <- Hval. unfold scaled.
    assert (m' < (q + 1) * Zpos m2) as Hlt by lia. rewrite Zlt_Qlt in Hlt.
    nra.
  - intro Hl. rewrite new_location_exact in Hl.
    rewrite Hprod, <- Hval. unfold scaled.
    assert (q * Zpos m2 < m') as Hlt by lia. rewrite Zlt_Qlt in Hlt. nra.
  - apply Z.le_trans with (fexp prec emax (d1 + e1 - (d2 + e2)));
      [unfold e'; lia |].
    apply fexp_monotone.
    enough (d1 + s - d2 <= Zdigits2 q) by (unfold s in *; lia).
    destruct (Z_le_gt_dec (d1 + s - d2) 0) as [HD | HD];
      [pose proof (Zdigits2_nonneg q Hq); lia |].
    enough (d1 + s - d2 - 1 + 1 <= Zdigits2 q) by lia.
    apply Zdigits2_lower; [lia |].
    pose proof (digits2_pos_bounds m1) as [Hlow1 _].
    pose proof (digits2_pos_bounds m2) as [_ Hup2].
    fold d1 in Hlow1. fold d2 in Hup2.
    assert (2 ^ (d1 + s - d2 - 1) * 2 ^ d2 = 2 ^ (d1 - 1) * 2 ^ s) as Hsplit.
    { rewrite <- !Z.pow_add_r by (unfold d1, d2 in *; lia). f_equal. lia. }
    assert (0 < 2 ^ (d1 + s - d2 - 1)) by (apply Z.pow_pos_nonneg; lia).
    assert (2 ^ (d1 + s - d2 - 1) * Zpos m2 <= m') as Hbound by nia.
    nia.
Qed.

Lemma fdiv_below (m1 m2 : positive) (e1 e2 : Z) (M j : Z) :
  0 <= M < 2 ^ 53 -> 0 <= j <= 1074 ->
  (scaled (Zpos m1) e1 <= dyadic M j * scaled (Zpos m2) e2)%Q ->
  below (fdiv (S754_finite false m1 e1) (S754_finite false m2 e2))
        (dyadic M j).
Proof.
  intros HM Hj H. unfold fdiv, SFdiv. cbn [xorb].
  pose proof (div_core_spec m1 m2 e1 e2) as Hcore.
  destruct (SFdiv_core_binary prec emax (Zpos m1) e1 (Zpos m2) e2)
    as [[q e'] l].
  destruct Hcore as (Hq & Hle & _ & Hlt & Hcexp).
  pose proof (scaled_pos m2 e2) as Hpos.
  apply round_below; try assumption.
  - nra.
  - intro Hl. specialize (Hlt Hl). nra.
  - right. exact Hcexp.
Qed.

Lemma fdiv_above (m1 m2 : positive) (e1 e2 : Z) (M j : Z) :
  0 <= M < 2 ^ 53 -> 0 <= j <= 1074 ->
  (dyadic M j * scaled (Zpos m2) e2 <= scaled (Zpos m1) e1)%Q ->
  above (fdiv (S754_finite false m1 e1) (S754_finite false m2 e2))
        (dyadic M j).
Proof.
  intros HM Hj H. unfold fdiv, SFdiv. cbn [xorb].
  pose proof (div_core_spec m1 m2 e1 e2) as Hcore.
  destruct (SFdiv_core_binary prec emax (Zpos m1) e1 (Zpos m2) e2)
    as [[q e'] l].
  destruct Hcore as (Hq & Hle & Hup & Hlt & Hcexp).
  pose proof (scaled_pos m2 e2) as Hpos.
  assert (dyadic M j < scaled (q + 1) e')%Q as Hstrict by nra.
  apply round_above; try assumption. right. exact Hcexp.
Qed.

(** The conversions of [covered_of]. *)

Lemma dyadic_mul (a b ja jb : Z) :
  (dyadic a ja * dyadic b jb == dyadic (a * b) (ja + jb))%Q.
Proof.
  unfold dyadic, scaled. replace (- (ja + jb)) with (- ja + - jb) by lia.
  rewrite inject_Z_mult, pow2_add. ring.
Qed.

Lemma dyadic_mono (a b j : Z) : a <= b -> (dyadic a j <= dyadic b j)%Q.
Proof. apply scaled_mono. Qed.

Lemma dyadic_le_inv (a b j : Z) : (dyadic a j <= dyadic b j)%Q -> a <= b.
Proof. apply scaled_le_inv. Qed.

Lemma dyadic_0 (j : Z) : (dyadic 0 j == 0)%Q.
Proof. unfold dyadic, scaled. change (inject_Z 0) with 0%Q. ring. Qed.

Lemma iter_xO_value (d mx : positive) :
  Zpos (Pos.iter xO mx d) = Zpos mx * 2 ^ Zpos d.
Proof.
  induction d as [| d IH] using Pos.peano_ind.
  - cbn. lia.
  - rewrite Pos.iter_succ, Pos2Z.inj_succ, Z.pow_succ_r by lia.
    change (Zpos (Pos.iter xO mx d)~0) with (2 * Zpos (Pos.iter xO mx d)).
    rewrite IH. ring.
Qed.

Lemma shl_align_value (mx : positive) (ex ex' : Z) :
  (scaled (Zpos (fst (shl_align mx ex ex'))) (snd (shl_align mx ex ex'))
   == scaled (Zpos mx) ex)%Q.
Proof.
  unfold shl_align. destruct (ex' - ex) as [| d | d] eqn:E; cbn [fst snd];
    try reflexivity.
  rewrite iter_xO_value, scaled_rescale by lia.
  replace (ex' + Zpos d) with ex by lia. reflexivity.
Qed.

(** An integer below [2 ^ 53] converts to itself. *)
Lemma binary_normalize_exact (n : Z) :
  0 <= n < 2 ^ 53 ->
  below (binary_normalize prec emax n 0 false) (dyadic n 0)
  /\ above (binary_normalize prec emax n 0 false) (dyadic n 0).
Proof.
  intros Hn. destruct n as [| p | p]; [| | lia].
  - split; [exact I |]. cbn [binary_normalize above]. rewrite dyadic_0. lra.
  - unfold binary_normalize, binary_round.
    pose proof (shl_align_value p 0
                  (fexp prec emax (Zpos (digits2_pos p) + 0))) as Hv.
    destruct (shl_align p 0 _) as [mz ez]. cbn [fst snd] in Hv.
    change (scaled (Zpos p) 0) with (dyadic (Zpos p) 0) in Hv.
    split.
    + apply round_below; try lia.
      * rewrite Hv. lra.
      * intro H. contradiction.
      * left. reflexivity.
    + apply round_above; try lia.
      * rewrite <- Hv. unfold scaled. pose proof (pow2_pos ez).
        rewrite inject_Z_plus. change (inject_Z 1) with 1%Q. nra.
      * left. rewrite Hv. lra.
Qed.

Lemma float_of_int_exact (n : Z) (x : float) :
  0 <= n < 2 ^ 53 -> float_of_int n = Ok x ->
  below x (dyadic n 0) /\ above x (dyadic n 0).
Proof.
  intro Hn. unfold float_of_int.
  destruct (is_infinite _); [discriminate |]. intros [= <-].
  apply binary_normalize_exact. exact Hn.
Qed.

Lemma float_of_int_succeeds (n : Z) :
  0 <= n < 2 ^ 53 -> exists x, float_of_int n = Ok x.
Proof.
  intro Hn. unfold float_of_int.
  pose proof (binary_normalize_exact n Hn) as [Hb _].
  destruct (binary_normalize prec emax n 0 false) as [s | s | | [] m e];
    cbn in *; try contradiction; eauto.
Qed.

Lemma fmul_below (x y : float) (a b ja jb : Z) :
  0 <= a -> 0 <= b -> a * b < 2 ^ 53 -> 0 <= ja -> 0 <= jb ->
  ja + jb <= 1074 ->
  below x (dyadic a ja) -> below y (dyadic b jb) ->
  below (fmul x y) (dyadic (a * b) (ja + jb)).
Proof.
  intros Ha Hb Hab Hja Hjb Hj.
  destruct x as [sx | sx | | [] mx ex]; destruct y as [sy | sy | | [] my ey];
    cbn [below]; try contradiction; try (intros; exact I).
  intros Hx Hy. unfold fmul, SFmul. cbn [xorb].
  assert (scaled (Zpos (mx * my)) (ex + ey)
          == scaled (Zpos mx) ex * scaled (Zpos my) ey)%Q as Hprod.
  { unfold scaled. rewrite Pos2Z.inj_mul, inject_Z_mult, pow2_add. ring. }
  pose proof (scaled_pos mx ex). pose proof (scaled_pos my ey).
  apply round_below; try lia.
  - rewrite Hprod, <- dyadic_mul. nra.
  - intro H1. contradiction.
  - left. reflexivity.
Qed.

Lemma fmul_above (x y : float) (a b ja jb : Z) (Ux Uy : Q) :
  0 <= a -> 0 <= b -> a * b < 2 ^ 53 -> 0 <= ja -> 0 <= jb ->
  ja + jb <= 1074 ->
  below x Ux -> below y Uy ->
  above x (dyadic a ja) -> above y (dyadic b jb) ->
  above (fmul x y) (dyadic (a * b) (ja + jb)).
Proof.
  intros Ha Hb Hab Hja Hjb Hj.
  pose proof (dyadic_nonneg a ja Ha) as Hda.
  pose proof (dyadic_nonneg b jb Hb) as Hdb.
  destruct x as [sx | sx | | [] mx ex]; destruct y as [sy | sy | | [] my ey];
    cbn [below above]; try contradiction;
    intros _ _ Hx Hy; cbn [fmul SFmul above];
    try (rewrite <- dyadic_mul; nra).
  cbn [xorb].
  assert (scaled (Zpos (mx * my)) (ex + ey)
          == scaled (Zpos mx) ex * scaled (Zpos my) ey)%Q as Hprod.
  { unfold scaled. rewrite Pos2Z.inj_mul, inject_Z_mult, pow2_add. ring. }
  pose proof (scaled_pos mx ex). pose proof (scaled_pos my ey).
  assert (dyadic (a * b) (ja + jb) <= scaled (Zpos (mx * my)) (ex + ey))%Q
    as Hle by (rewrite Hprod, <- dyadic_mul; nra).
  apply round_above; try lia.
  - apply Qle_lt_trans with (scaled (Zpos (mx * my)) (ex + ey));
      [exact Hle |].
    unfold scaled. pose proof (pow2_pos (ex + ey)).
    rewrite inject_Z_plus. change (inject_Z 1) with 1%Q. nra.
  - left. exact Hle.
Qed.

Lemma hundred_value : (scaled (Zpos 7036874417766400) (-46) == inject_Z 100)%Q.
Proof. vm_compute. reflexivity. Qed.

Lemma dyadic_hundred (V j : Z) :
  (dyadic (100 * V) j == dyadic V j * inject_Z 100)%Q.
Proof. unfold dyadic, scaled. rewrite inject_Z_mult. ring. Qed.

Lemma fdiv_hundred_below (x : float) (A V j : Z) :
  0 <= V < 2 ^ 53 -> 0 <= j <= 1074 -> A <= 100 * V ->
  below x (dyadic A j) ->
  below (fdiv x (S754_finite false 7036874417766400 (-46))) (dyadic V j).
Proof.
  intros HV Hj HA.
  destruct x as [s | s | | [] m e]; cbn [below]; try contradiction.
  - intros _. exact I.
  - intro H. apply fdiv_below; [exact HV | exact Hj |].
    rewrite hundred_value, <- dyadic_hundred.
    pose proof (dyadic_mono _ _ j HA). lra.
Qed.

Lemma fdiv_hundred_above (x : float) (A V j : Z) (U : Q) :
  0 <= V < 2 ^ 53 -> 0 <= j <= 1074 -> 100 * V <= A ->
  below x U -> above x (dyadic A j) ->
  above (fdiv x (S754_finite false 7036874417766400 (-46))) (dyadic V j).
Proof.
  intros HV Hj HA.
  pose proof (dyadic_mono _ _ j HA) as Hmono.
  destruct x as [s | s | | [] m e]; cbn [below above]; try contradiction;
    intros _ H.
  - cbn [fdiv SFdiv above]. rewrite dyadic_hundred in Hmono.
    change (inject_Z 100) with 100%Q in Hmono. lra.
  - apply fdiv_above; [exact HV | exact Hj |].
    rewrite hundred_value, <- dyadic_hundred. lra.
Qed.

Lemma scaled_as_dyadic (m e j : Z) :
  0 <= e -> 0 <= j -> (scaled m e == dyadic (m * 2 ^ e * 2 ^ j) j)%Q.
Proof.
  intros He Hj. unfold dyadic. rewrite !scaled_rescale by assumption.
  replace (- j + j + e) with e by lia. reflexivity.
Qed.

(** Both sides of a comparison at a negative exponent [e], brought to the
    exponent [e - j]. *)
Lemma dyadic_vs_scaled (V j m e : Z) :
  e < 0 -> 0 <= j ->
  (dyadic V j == scaled (V * 2 ^ (- e)) (e - j))%Q
  /\ (scaled m e == scaled (m * 2 ^ j) (e - j))%Q.
Proof.
  intros He Hj. split.
  - rewrite scaled_rescale by lia. unfold dyadic.
    replace (e - j + - e) with (- j) by lia. reflexivity.
  - rewrite scaled_rescale by lia.
    replace (e - j + j) with e by lia. reflexivity.
Qed.

Lemma int_of_float_le (y : float) (V j n : Z) :
  0 <= V -> 0 <= j -> below y (dyadic V j) -> int_of_float y = Ok n ->
  n <= V / 2 ^ j.
Proof.
  intros HV Hj.
  assert (0 < 2 ^ j) as Hpj by (apply Z.pow_pos_nonneg; lia).
  destruct y as [s | s | | [] m e]; cbn [below int_of_float];
    try contradiction.
  - intros _ [= <-]. apply Z.div_pos; lia.
  - intros H [= <-]. cbn [cond_Zopp].
    apply Z.div_le_lower_bound; [exact Hpj |].
    destruct (Z_le_gt_dec 0 e) as [He | He].
    + rewrite Z.shiftl_mul_pow2 by exact He.
      rewrite (scaled_as_dyadic _ e j) in H by assumption.
      apply dyadic_le_inv in H. lia.
    + replace e with (- - e) by lia. rewrite Z.shiftl_opp_r.
      rewrite Z.shiftr_div_pow2 by lia.
      assert (0 < 2 ^ (- e)) as Hpe by (apply Z.pow_pos_nonneg; lia).
      destruct (dyadic_vs_scaled V j (Zpos m) e ltac:(lia) Hj) as [E1 E2].
      rewrite E1, E2 in H. apply scaled_le_inv in H.
      pose proof (Z.mul_div_le (Zpos m) (2 ^ (- e)) Hpe) as Hfloor.
      nia.
Qed.

Lemma int_of_float_ge (y : float) (V j n : Z) :
  0 <= j -> above y (dyadic V j) -> int_of_float y = Ok n ->
  V / 2 ^ j <= n.
Proof.
  intros Hj.
  assert (0 < 2 ^ j) as Hpj by (apply Z.pow_pos_nonneg; lia).
  destruct y as [s | [] | | [] m e]; cbn [above int_of_float];
    try contradiction; try discriminate.
  - intros H [= <-]. rewrite <- (dyadic_0 j) in H.
    apply dyadic_le_inv in H.
    apply Z.div_le_upper_bound; [exact Hpj | lia].
  - intros H [= <-]. cbn [cond_Zopp].
    destruct (Z_le_gt_dec 0 e) as [He | He].
    + rewrite Z.shiftl_mul_pow2 by exact He.
      apply Z.div_le_upper_bound; [exact Hpj |].
      rewrite (scaled_as_dyadic _ e j) in H by assumption.
      apply dyadic_le_inv in H. lia.
    + replace e with (- - e) by lia. rewrite Z.shiftl_opp_r.
      rewrite Z.shiftr_div_pow2 by lia.
      assert (0 < 2 ^ (- e)) as Hpe by (apply Z.pow_pos_nonneg; lia).
      destruct (dyadic_vs_scaled V j (Zpos m) e ltac:(lia) Hj) as [E1 E2].
      rewrite E1, E2 in H. apply scaled_le_inv in H.
      apply Z.div_le_lower_bound; [exact Hpe |].
      pose proof (Z.mul_div_le V (2 ^ j) Hpj) as Hfloor.
      nia.
Qed.

Lemma covered_of_bounds (total : Z) (percent : float) (covered : Z)
    (ML MU j : Z) :
  0 <= total < 2 ^ 53 -> 0 <= ML -> 0 <= MU -> total * MU < 2 ^ 53 - 100 ->
  ML <= MU -> 0 <= j <= 1074 ->
  below percent (dyadic MU j) -> above percent (dyadic ML j) ->
  Gcov.covered_of total percent = Ok covered ->
  total * ML / 100 / 2 ^ j <= covered <= (total * MU + 99) / 100 / 2 ^ j.
Proof.
  intros Ht HML HMU Hsmall Hlu Hj Hpb Hpa.
  unfold Gcov.covered_of, int_mul_float, float_div_int.
  destruct (float_of_int total) as [ft | e] eqn:Eft; [| discriminate].
  cbn [rbind].
  replace (float_of_int 100)
    with (Ok (S754_finite false 7036874417766400 (-46)))
    by (vm_compute; reflexivity).
  cbn [rbind].
  destruct (float_of_int_exact total ft Ht Eft) as [Htb Hta].
  assert (total * ML <= total * MU) as Hprod by nia.
  assert (0 <= total * ML) as Hlow by nia.
  pose proof (fmul_below ft percent total MU 0 j) as Hxb.
  pose proof (fmul_above ft percent total ML 0 j (dyadic total 0)
                (dyadic MU j)) as Hxa.
  rewrite Z.add_0_l in Hxb, Hxa.
  specialize (Hxb ltac:(lia) HMU ltac:(lia) ltac:(lia) ltac:(lia) ltac:(lia)
                  Htb Hpb).
  specialize (Hxa ltac:(lia) HML ltac:(lia) ltac:(lia) ltac:(lia) ltac:(lia)
                  Htb Hpb Hta Hpa).
  set (X := fmul ft percent) in *.
  set (VU := (total * MU + 99) / 100). set (VL := total * ML / 100).
  assert (100 * VL <= total * ML) as HVL
    by (apply Z.mul_div_le; lia).
  assert (total * MU <= 100 * VU /\ 100 * VU <= total * MU + 99) as [HVU HVU'].
  { unfold VU. pose proof (Z.div_mod (total * MU + 99) 100 ltac:(lia)).
    pose proof (Z.mod_pos_bound (total * MU + 99) 100 ltac:(lia)). lia. }
  assert (0 <= VL) as HVL0 by (apply Z.div_pos; lia).
  assert (VU < 2 ^ 53) as HVUs by (apply Z.div_lt_upper_bound; lia).
  pose proof (fdiv_hundred_above X (total * ML) VL j (dyadic (total * MU) j)
                ltac:(lia) Hj HVL Hxb Hxa) as Hya.
  pose proof (fdiv_hundred_below X (total * MU) VU j ltac:(lia) Hj HVU Hxb)
    as Hyb.
  intro Hint. split.
  - apply (int_of_float_ge _ VL j covered ltac:(lia) Hya Hint).
  - apply (int_of_float_le _ VU j covered ltac:(lia) ltac:(lia) Hyb Hint).
Qed.

Lemma covered_of_succeeds (total : Z) (percent : float) (MU j : Z) :
  0 <= total < 2 ^ 53 -> 0 <= MU -> total * MU < 2 ^ 53 - 100 ->
  0 <= j <= 1074 -> below percent (dyadic MU j) ->
  exists covered, Gcov.covered_of total percent = Ok covered.
Proof.
  intros Ht HMU Hsmall Hj Hpb.
  unfold Gcov.covered_of, int_mul_float, float_div_int.
  destruct (float_of_int_succeeds total Ht) as [ft Eft]. rewrite Eft.
  cbn [rbind].
  replace (float_of_int 100)
    with (Ok (S754_finite false 7036874417766400 (-46)))
    by (vm_compute; reflexivity).
  cbn [rbind].
  destruct (float_of_int_exact total ft Ht Eft) as [Htb _].
  pose proof (fmul_below ft percent total MU 0 j) as Hxb.
  rewrite Z.add_0_l in Hxb.
  specialize (Hxb ltac:(lia) HMU ltac:(lia) ltac:(lia) ltac:(lia) ltac:(lia)
                  Htb Hpb).
  assert (total * MU <= 100 * ((total * MU + 99) / 100)) as HVU.
  { pose proof (Z.div_mod (total * MU + 99) 100 ltac:(lia)).
    pose proof (Z.mod_pos_bound (total * MU + 99) 100 ltac:(lia)). lia. }
  assert (0 <= (total * MU + 99) / 100 < 2 ^ 53) as HV.
  { split; [apply Z.div_pos; nia |].
    apply Z.div_lt_upper_bound; lia. }
  pose proof (fdiv_hundred_below (fmul ft percent) (total * MU) _ j
                HV Hj HVU Hxb) as Hyb.
  destruct (fdiv _ _) as [s | s | | [] m e]; cbn in Hyb; try contradiction;
    cbn [int_of_float]; eauto.
Qed.

Lemma covered_of_le_total (total : Z) (percent : float) (covered : Z) :
  0 <= total -> 100 * total < 2 ^ 53 -> below percent (dyadic 100 0) ->
  Gcov.covered_of total percent = Ok covered -> covered <= total.
Proof.
  intros Ht Hsmall Hp. unfold Gcov.covered_of, int_mul_float, float_div_int.
  destruct (float_of_int total) as [ft | e] eqn:Eft; [| discriminate].
  cbn [rbind].
  replace (float_of_int 100)
    with (Ok (S754_finite false 7036874417766400 (-46)))
    by (vm_compute; reflexivity).
  cbn [rbind]. intro Hint.
  destruct (float_of_int_exact total ft ltac:(lia) Eft) as [Htb _].
  pose proof (fmul_below ft percent total 100 0 0) as Hxb.
  rewrite Z.add_0_l in Hxb.
  specialize (Hxb ltac:(lia) ltac:(lia) ltac:(lia) ltac:(lia) ltac:(lia)
                  ltac:(lia) Htb Hp).
  pose proof (fdiv_hundred_below (fmul ft percent) (total * 100) total 0
                ltac:(lia) ltac:(lia) ltac:(lia) Hxb) as Hyb.
  pose proof (int_of_float_le _ total 0 covered Ht ltac:(lia) Hyb Hint) as H.
  rewrite Z.pow_0_r, Z.div_1_r in H. exact H.
Qed.

(** The float of a decimal numeral lies between the grid points that
    enclose the numeral. *)
Lemma float_of_string_bounds (int_part frac_part : string) (percent : float)
    (ML MU j : Z) :
  every Str.is_digit int_part = true -> int_part <> EmptyString ->
  every Str.is_digit frac_part = true -> frac_part <> EmptyString ->
  0 <= ML -> 0 <= MU < 2 ^ 53 -> 0 <= j <= 1074 ->
  ML * 10 ^ Z.of_nat (String.length frac_part)
  <= Str.digits_value_from 0 (int_part ++ frac_part) * 2 ^ j
  <= MU * 10 ^ Z.of_nat (String.length frac_part) ->
  float_of_string (int_part ++ "." ++ frac_part) = Ok percent ->
  below percent (dyadic MU j) /\ above percent (dyadic ML j).
Proof.
  intros Hi Hin Hf Hfn HML HMU Hj [Hlo Hhi].
  rewrite (float_of_string_groups _ _ Hi Hin Hf Hfn). cbv zeta.
  intros [= <-].
  assert (0 <= Str.digits_value_from 0 (int_part ++ frac_part)) as Hnum.
  { apply digits_value_nonneg; [| lia]. rewrite every_app, Hi, Hf.
    reflexivity. }
  assert (0 < 10 ^ Z.of_nat (String.length frac_part)) as Hden
    by (apply Z.pow_pos_nonneg; lia).
  assert (0 < 2 ^ j) as Hpj by (apply Z.pow_pos_nonneg; lia).
  set (num := Str.digits_value_from 0 (int_part ++ frac_part)) in *.
  set (den := 10 ^ Z.of_nat (String.length frac_part)) in *.
  assert (ML <= MU) as Hlu by nia.
  destruct (Z.eqb_spec num 0) as [Hz | Hnz].
  - split; [exact I |]. cbn [above].
    assert (ML = 0) as -> by nia. rewrite dyadic_0. lra.
  - assert (forall M, dyadic M j * scaled den 0 == dyadic (M * den) j)%Q
      as Hmul.
    { intro M. unfold dyadic, scaled. change (pow2 0) with 1%Q.
      rewrite inject_Z_mult. ring. }
    assert (scaled num 0 == dyadic (num * 2 ^ j) j)%Q as Hnumd.
    { rewrite (scaled_as_dyadic num 0 j) by lia.
      rewrite Z.pow_0_r, Z.mul_1_r. reflexivity. }
    destruct num as [| p | p]; [congruence | | lia].
    destruct den as [| q | q]; [lia | | lia].
    cbn [exact_of_Z]. split.
    + apply fdiv_below; [exact HMU | exact Hj |].
      rewrite Hmul, Hnumd. apply dyadic_mono. exact Hhi.
    + apply fdiv_above; [lia | exact Hj |].
      rewrite Hmul, Hnumd. apply dyadic_mono. exact Hlo.
Qed.

Lemma float_of_string_below (int_part frac_part : string) (percent : float) :
  every Str.is_digit int_part = true -> int_part <> EmptyString ->
  every Str.is_digit frac_part = true -> frac_part <> EmptyString ->
  Str.digits_value_from 0 (int_part ++ frac_part)
  <= 100 * 10 ^ Z.of_nat (String.length frac_part) ->
  float_of_string (int_part ++ "." ++ frac_part) = Ok percent ->
  below percent (dyadic 100 0).
Proof.
  intros Hi Hin Hf Hfn Hle Hp.
  assert (0 <= Str.digits_value_from 0 (int_part ++ frac_part)) as Hnum.
  { apply digits_value_nonneg; [| lia]. rewrite every_app, Hi, Hf.
    reflexivity. }
  assert (0 < 10 ^ Z.of_nat (String.length frac_part)) as Hden
    by (apply Z.pow_pos_nonneg; lia).
  assert (0 * 10 ^ Z.of_nat (String.length frac_part)
          <= Str.digits_value_from 0 (int_part ++ frac_part) * 2 ^ 0
          <= 100 * 10 ^ Z.of_nat (String.length frac_part)) as Hrange
    by (rewrite Z.pow_0_r; lia).
  destruct (float_of_string_bounds int_part frac_part percent 0 100 0
              Hi Hin Hf Hfn ltac:(lia) ltac:(lia) ltac:(lia) Hrange Hp)
    as [H _].
  exact H.
Qed.


(** ** What the parser stores *)

Lemma scan_line_nonneg (st st' : Gcov.scan_state) (line : string) :
  Forall entry_nonneg (Gcov.file_coverage st) ->
  Gcov.scan_line st line = Ok st' ->
  Forall entry_nonneg (Gcov.file_coverage st').
Proof.
  intros Hst.
  destruct (Str.file_pattern_match line) as [name |] eqn:Hfile.
  - unfold Gcov.scan_line. rewrite Hfile. intros [= <-]. exact Hst.
  - destruct (Gcov.cursor st) as [name |] eqn:Hcur.
    + destruct (Str.coverage_pattern_search line) as [[g1 g2] |] eqn:Hcov.
      * destruct (scan_line_coverage st line g1 g2 name Hfile Hcov Hcur)
          as (percent & total & _ & Hnn & _ & Hpos & ->).
        destruct (Gcov.covered_of total percent) as [covered | e] eqn:Ec;
          [| discriminate].
        intros [= <-]. cbn [Gcov.file_coverage rbind].
        apply (store_keeps (fun v => 0 <= fst v /\ 0 <= snd v));
          [exact Hst |].
        split; [| exact Hpos]. eapply covered_of_nonneg; eassumption.
      * rewrite scan_line_ignored by auto. intros [= <-]. exact Hst.
    + rewrite scan_line_ignored by auto. intros [= <-]. exact Hst.
Qed.

Lemma scan_lines_nonneg (lines : list string) :
  forall st st' : Gcov.scan_state,
    Forall entry_nonneg (Gcov.file_coverage st) ->
    Gcov.scan_lines st lines = Ok st' ->
    Forall entry_nonneg (Gcov.file_coverage st').
Proof.
  induction lines as [| line lines IH]; intros st st' Hst;
    cbn [Gcov.scan_lines].
  - intros [= <-]. exact Hst.
  - destruct (Gcov.scan_line st line) as [st1 | e] eqn:E; [| discriminate].
    cbn [rbind]. apply IH. eapply scan_line_nonneg; eassumption.
Qed.

Lemma parse_output_nonneg (t t' : Gcov.table) (output : string) :
  Forall entry_nonneg t ->
  Gcov.parse_output t output = Ok t' ->
  Forall entry_nonneg t'.
Proof.
  intros Ht. unfold Gcov.parse_output.
  destruct (Gcov.scan_lines _ _) as [st | e] eqn:E; [| discriminate].
  intros [= <-]. eapply scan_lines_nonneg; [| exact E]. exact Ht.
Qed.

Lemma gcda_step_nonneg (w : world) (t t' : Gcov.table) (gcda_file : string)
    (l l' : log) :
  Forall entry_nonneg t ->
  Gcov.gcda_step w t gcda_file l = (Ok t', l') ->
  Forall entry_nonneg t'.
Proof.
  intros Ht. unfold Gcov.gcda_step.
  destruct (run_gcov w gcda_file) as [out err | e | e | e].
  - unfold lift. intros [= H _]. eapply parse_output_nonneg; eassumption.
  - cbn. intros [= <- _]. exact Ht.
  - cbn. intros [= <- _]. exact Ht.
  - discriminate.
Qed.

Lemma gcda_loop_nonneg (w : world) (gcda_files : list string) :
  forall (t t' : Gcov.table) (l l' : log),
    Forall entry_nonneg t ->
    Gcov.gcda_loop w t gcda_files l = (Ok t', l') ->
    Forall entry_nonneg t'.
Proof.
  induction gcda_files as [| gcda_file rest IH]; intros t t' l l' Ht;
    cbn [Gcov.gcda_loop].
  - intros [= <- _]. exact Ht.
  - unfold bind.
    destruct (Gcov.gcda_step w t gcda_file l) as [[t1 | e] l1] eqn:E;
      [| discriminate].
    apply IH. eapply gcda_step_nonneg; eassumption.
Qed.

Lemma int_of_string_value (s : string) (n : Z) :
  Str.int_of_string s = Ok n -> n = Str.digits_value_from 0 s.
Proof.
  unfold Str.int_of_string.
  destruct (negb (Str.is_empty s) && Str.all_digits s)%bool;
    [intros [= <-]; reflexivity | discriminate].
Qed.

Lemma scan_line_ok (st st' : Gcov.scan_state) (line : string) :
  modest_line line ->
  Forall entry_ok (Gcov.file_coverage st) ->
  Gcov.scan_line st line = Ok st' ->
  Forall entry_ok (Gcov.file_coverage st').
Proof.
  intros Hline Hst.
  destruct (Str.file_pattern_match line) as [name |] eqn:Hfile.
  - unfold Gcov.scan_line. rewrite Hfile. intros [= <-]. exact Hst.
  - destruct (Gcov.cursor st) as [name |] eqn:Hcur.
    + destruct (Str.coverage_pattern_search line) as [[g1 g2] |] eqn:Hcov.
      * destruct (scan_line_coverage st line g1 g2 name Hfile Hcov Hcur)
          as (percent & total & Hp & Hnn & Ht & Hpos & ->).
        destruct (Gcov.covered_of total percent) as [covered | e] eqn:Ec;
          [| discriminate].
        intros [= <-]. cbn [Gcov.file_coverage rbind].
        apply (store_keeps (fun v => 0 <= fst v <= snd v)); [exact Hst |].
        cbn [fst snd]. split; [eapply covered_of_nonneg; eassumption |].
        destruct (Hline g1 g2 Hcov)
          as (int_part & frac_part & -> & Hi & Hf & Hle & Hsmall).
        pose proof (coverage_pattern_search_groups _ _ _ Hcov)
          as (ip & fp & E & Hi' & Hin & Hf' & Hfn & _).
        destruct (numeral_parts_unique _ _ _ _ Hi Hi' E) as [-> ->].
        apply int_of_string_value in Ht. subst total.
        apply (covered_of_le_total _ percent covered Hpos Hsmall);
          [| exact Ec].
        exact (float_of_string_below _ _ percent Hi Hin Hf Hfn Hle Hp).
      * rewrite scan_line_ignored by auto. intros [= <-]. exact Hst.
    + rewrite scan_line_ignored by auto. intros [= <-]. exact Hst.
Qed.

Lemma scan_lines_ok (lines : list string) :
  Forall modest_line lines ->
  forall st st' : Gcov.scan_state,
    Forall entry_ok (Gcov.file_coverage st) ->
    Gcov.scan_lines st lines = Ok st' ->
    Forall entry_ok (Gcov.file_coverage st').
Proof.
  induction 1 as [| line lines Hline _ IH]; intros st st' Hst;
    cbn [Gcov.scan_lines].
  - intros [= <-]. exact Hst.
  - destruct (Gcov.scan_line st line) as [st1 | e] eqn:E; [| discriminate].
    cbn [rbind]. apply IH. eapply scan_line_ok; eassumption.
Qed.

Lemma parse_output_ok (t t' : Gcov.table) (output : string) :
  modest_output output ->
  Forall entry_ok t ->
  Gcov.parse_output t output = Ok t' ->
  Forall entry_ok t'.
Proof.
  intros Hout Ht. unfold Gcov.parse_output.
  destruct (Gcov.scan_lines _ _) as [st | e] eqn:E; [| discriminate].
  intros [= <-]. eapply (scan_lines_ok _ Hout); [| exact E]. exact Ht.
Qed.

Lemma gcda_loop_ok (w : world) (gcda_files : list string) :
  modest_world w gcda_files ->
  forall (t t' : Gcov.table) (l l' : log),
    Forall entry_ok t ->
    Gcov.gcda_loop w t gcda_files l = (Ok t', l') ->
    Forall entry_ok t'.
Proof.
  induction gcda_files as [| gcda_file rest IH]; intros Hw t t' l l' Ht;
    cbn [Gcov.gcda_loop].
  - intros [= <- _]. exact Ht.
  - unfold bind.
    destruct (Gcov.gcda_step w t gcda_file l) as [[t1 | e] l1] eqn:E;
      [| discriminate].
    apply IH.
    + intros f out err Hin. apply Hw. right. exact Hin.
    + unfold Gcov.gcda_step in E.
      destruct (run_gcov w gcda_file) as [out err | e | e | e] eqn:Erun.
      * unfold lift in E. injection E as E _.
        eapply parse_output_ok; [| exact Ht | exact E].
        eapply Hw; [left; reflexivity | exact Erun].
      * cbn in E. injection E as <- _. exact Ht.
      * cbn in E. injection E as <- _. exact Ht.
      * discriminate E.
Qed.

Lemma annotate_foo_is_modest (gcda_files : list string) :
  modest_world (world_with_annotator gcda_files annotate_foo) gcda_files.
Proof.
  intros gcda_file out err _ Hrun. injection Hrun as <- <-.
  unfold modest_output.
  assert (Str.split_newline
            (unlines ["File 'src/foo.c'"; "Lines executed:75.00% of 40"]
             ++ EmptyString)
          = ["File 'src/foo.c'"; "Lines executed:75.00% of 40"]) as ->
    by (vm_compute; reflexivity).
  apply Forall_cons; [| apply Forall_cons; [| apply Forall_nil]];
    intros g1 g2 H; vm_compute in H.
  - discriminate H.
  - injection H as <- <-. exists "75", "00".
    split; [reflexivity |]. split; [reflexivity |]. split; [reflexivity |].
    split; [vm_compute; discriminate | vm_compute; reflexivity].
Qed.

Lemma annotate_foo_is_ascii (gcda_files : list string) :
  ascii_outputs (world_with_annotator gcda_files annotate_foo) gcda_files.
Proof.
  intros gcda_file out err _ Hrun. injection Hrun as <- <-.
  vm_compute. reflexivity.
Qed.

Lemma annotate_foo_counts_are_short (gcda_files : list string) :
  short_counts (world_with_annotator gcda_files annotate_foo) gcda_files.
Proof.
  intros gcda_file out err line g1 g2 _ Hrun Hin Hcov.
  injection Hrun as <- <-.
  assert (Str.split_newline
            (unlines ["File 'src/foo.c'"; "Lines executed:75.00% of 40"]
             ++ EmptyString)
          = ["File 'src/foo.c'"; "Lines executed:75.00% of 40"]) as E
    by (vm_compute; reflexivity).
  rewrite E in Hin. destruct Hin as [<- | [<- | []]]; vm_compute in Hcov.
  - discriminate Hcov.
  - injection Hcov as _ <-. vm_compute. lia.
Qed.

(** C4, as amended.  Every entry of the table the gcov extractor builds has
    [0 <= coveredLines] and [0 <= totalLines], whatever the annotator
    printed.  It also has [coveredLines <= totalLines] when the annotator
    printed ASCII text in which every percentage is at most 100 and every
    line count is below [2 ^ 53 / 100] and has no more digits than [int]
    converts (4300).  The parser does not clamp the covered count, so a
    percentage above 100 can store an entry with more covered than total
    lines: [150.00% of 10] stores [(15, 10)]. *)
Theorem stored_entries_bounds (w : world) (gcda_files : list string)
    (t t' : Gcov.table) (l l' : log) :
  Gcov.gcda_loop w t gcda_files l = (Ok t', l') ->
  (Forall entry_nonneg t -> Forall entry_nonneg t')
  /\ (modest_world w gcda_files -> ascii_outputs w gcda_files ->
      short_counts w gcda_files ->
      Forall entry_ok t -> Forall entry_ok t')
  /\ Gcov.parse_output [] (unlines ["File 'src/foo.c'";
                                    "Lines executed:150.00% of 10"])
     = Ok [("src/foo.c", (15, 10))].
Proof.
  intro Hloop. split; [| split].
  - intro Ht. eapply gcda_loop_nonneg; eassumption.
  - intros Hw _ _ Ht. eapply gcda_loop_ok; eassumption.
  - vm_compute. reflexivity.
Qed.

Lemma stored_entries_bounds_witness :
  Forall entry_nonneg [("src/foo.c", (30, 40))]
  /\ Forall entry_ok [("src/foo.c", (30, 40))].
Proof.
  assert (Gcov.gcda_loop (world_with_annotator ["a.gcda"] annotate_foo) []
                         ["a.gcda"] []
          = (Ok [("src/foo.c", (30, 40))], [])) as Hrun
    by (vm_compute; reflexivity).
  pose proof (stored_entries_bounds
                (world_with_annotator ["a.gcda"] annotate_foo) ["a.gcda"]
                [] [("src/foo.c", (30, 40))] [] [] Hrun) as (H1 & H2 & _).
  split.
  - apply H1. constructor.
  - apply H2;
      [apply annotate_foo_is_modest | apply annotate_foo_is_ascii
      | apply annotate_foo_counts_are_short | constructor].
Defined.

(** C4, as the specification states it, fails: the annotator output
    [File 'src/foo.c'] followed by [Lines executed:150.00% of 10] stores
    the entry [(15, 10)]. *)
Lemma stored_entries_claim_fails : ~ stored_entries_claim.
Proof.
  intro H.
  specialize (H [] (unlines ["File 'src/foo.c'";
                             "Lines executed:150.00% of 10"])
                [("src/foo.c", (15, 10))]
                (Forall_nil _)).
  assert (Forall entry_ok [("src/foo.c", (15, 10))]) as Hbad
    by (apply H; vm_compute; reflexivity).
  inversion Hbad as [| item rest [_ Hle] _]. cbn in Hle. lia.
Qed.

(** ** The covered count *)




(** ** Data files the annotator fails on *)

Lemma gcda_loop_app (w : world) (before after : list string) :
  forall (t : Gcov.table) (l : log),
    Gcov.gcda_loop w t (before ++ after) l =
    match Gcov.gcda_loop w t before l with
    | (Ok t1, l1) => Gcov.gcda_loop w t1 after l1
    | (Raise e, l1) => (Raise e, l1)
    end.
Proof.
  induction before as [| gcda_file before IH]; intros t l;
    cbn [app Gcov.gcda_loop].
  - reflexivity.
  - unfold bind.
    destruct (Gcov.gcda_step w t gcda_file l) as [[t1 | e] l1];
      [apply IH | reflexivity].
Qed.

Lemma gcda_step_result_any_log (w : world) (t : Gcov.table)
    (gcda_file : string) (l l' : log) :
  fst (Gcov.gcda_step w t gcda_file l) = fst (Gcov.gcda_step w t gcda_file l').
Proof.
  unfold Gcov.gcda_step.
  destruct (run_gcov w gcda_file); reflexivity.
Qed.

Lemma gcda_loop_result_any_log (w : world) (gcda_files : list string) :
  forall (t : Gcov.table) (l l' : log),
    fst (Gcov.gcda_loop w t gcda_files l)
    = fst (Gcov.gcda_loop w t gcda_files l').
Proof.
  induction gcda_files as [| gcda_file rest IH]; intros t l l';
    cbn [Gcov.gcda_loop]; [reflexivity |].
  unfold bind.
  pose proof (gcda_step_result_any_log w t gcda_file l l') as E.
  destruct (Gcov.gcda_step w t gcda_file l) as [r1 l1].
  destruct (Gcov.gcda_step w t gcda_file l') as [r1' l1'].
  cbn [fst] in E. subst r1'.
  destruct r1 as [t1 | e]; [apply IH | reflexivity].
Qed.

Lemma gcda_step_failed_run (w : world) (t : Gcov.table) (gcda_file : string)
    (l : log) (e : string) :
  run_gcov w gcda_file = TimeoutExpired e
  \/ run_gcov w gcda_file = RunFileNotFoundError e ->
  Gcov.gcda_step w t gcda_file l
  = (Ok t, (l ++ [Stderr (GcovFailed gcda_file e)])%list).
Proof.
  intros [H | H]; unfold Gcov.gcda_step; rewrite H; reflexivity.
Qed.

(** C7.  A data file on which the annotator times out or cannot be started
    costs one warning and nothing else: the table accumulated from the data
    files before it goes on unchanged to the data files after it, and the
    table the loop ends with is the one it would end with were the file not
    there. *)
Theorem failed_annotator_run_is_skipped (w : world)
    (before after : list string) (gcda_file : string) (t : Gcov.table)
    (l : log) (e : string) :
  run_gcov w gcda_file = TimeoutExpired e
  \/ run_gcov w gcda_file = RunFileNotFoundError e ->
  Gcov.gcda_loop w t (before ++ gcda_file :: after) l =
  match Gcov.gcda_loop w t before l with
  | (Ok t1, l1) =>
      Gcov.gcda_loop w t1 after (l1 ++ [Stderr (GcovFailed gcda_file e)])%list
  | (Raise x, l1) => (Raise x, l1)
  end
  /\ fst (Gcov.gcda_loop w t (before ++ gcda_file :: after) l)
     = fst (Gcov.gcda_loop w t (before ++ after) l).
Proof.
  intro H. rewrite !gcda_loop_app.
  destruct (Gcov.gcda_loop w t before l) as [[t1 | x] l1];
    [| split; reflexivity].
  cbn [Gcov.gcda_loop]. unfold bind.
  rewrite (gcda_step_failed_run w t1 gcda_file l1 e H).
  split; [reflexivity |]. apply gcda_loop_result_any_log.
Qed.

Lemma failed_annotator_run_is_skipped_witness :
  Gcov.gcda_loop (world_with_annotator [] annotate_but_a) []
                 ["b.gcda"; "a.gcda"; "c.gcda"] []
  = (Ok [("src/foo.c", (30, 40))],
     [Stderr (GcovFailed "a.gcda" "timed out")]).
Proof.
  etransitivity.
  - exact (proj1 (failed_annotator_run_is_skipped
                    (world_with_annotator [] annotate_but_a)
                    ["b.gcda"] ["c.gcda"] "a.gcda" [] [] "timed out"
                    (or_introl eq_refl))).
  - vm_compute. reflexivity.
Defined.

(** ** Nothing but the result reaches standard output *)

Lemma quiet_gcda_step (w : world) (t : Gcov.table) (gcda_file : string) :
  quiet (Gcov.gcda_step w t gcda_file).
Proof.
  unfold Gcov.gcda_step.
  destruct (run_gcov w gcda_file); repeat quiet_step.
Qed.

Lemma quiet_gcda_loop (w : world) (gcda_files : list string) :
  forall t, quiet (Gcov.gcda_loop w t gcda_files).
Proof.
  induction gcda_files as [| gcda_file rest IH]; intro t;
    cbn [Gcov.gcda_loop].
  - apply quiet_ret.
  - apply quiet_bind; [apply quiet_gcda_step | exact IH].
Qed.

Lemma quiet_aggregate (filters : list string) (t : Gcov.table) :
  quiet (Gcov.aggregate filters t).
Proof.
  unfold Gcov.aggregate.
  destruct (fold_left _ _ _) as [[total_lines covered_lines] matched_files].
  destruct (total_lines =? 0); repeat quiet_step.
  apply quiet_for_each. intros [[name cov] total]. apply quiet_print_err.
Qed.

Lemma quiet_calculate_from_gcov (w : world) (build_dir : option string)
    (filters : list string) :
  quiet (Gcov.calculate_from_gcov w build_dir filters).
Proof.
  unfold Gcov.calculate_from_gcov.
  destruct build_dir as [dir |]; [| apply quiet_raise].
  apply quiet_bind; [apply quiet_lift |]. intros [| gcda_file rest].
  - repeat quiet_step.
  - apply quiet_bind; [apply quiet_gcda_loop | intro; apply quiet_aggregate].
Qed.

Lemma quiet_extract (w : world) (args : Cli.namespace) :
  quiet (Cli.extract w args).
Proof.
  unfold Cli.extract.
  destruct (Cli.args_json args) as [path |].
  - destruct (Str.is_empty path);
      [apply quiet_calculate_from_gcov | apply quiet_calculate_from_json].
  - apply quiet_calculate_from_gcov.
Qed.

(** ** The filter *)

Lemma gcov_step_match (filters : list string) (name : string) (cov total : Z)
    (total_lines covered_lines : Z) (matched_files : list (string * Z * Z)) :
  matches filters name ->
  Gcov.gcov_step filters (total_lines, covered_lines, matched_files)
                 (name, (cov, total))
  = (total_lines + total, covered_lines + cov,
     (matched_files ++ [(name, cov, total)])%list).
Proof.
  intro Hm. apply any_pattern_in_spec in Hm. unfold Gcov.gcov_step.
  rewrite Hm. reflexivity.
Qed.

Lemma gcov_step_no_match (filters : list string) (a : Gcov.acc)
    (item : string * (Z * Z)) :
  ~ matches filters (fst item) -> Gcov.gcov_step filters a item = a.
Proof.
  intro Hn. destruct a as [[total_lines covered_lines] matched_files].
  destruct item as [name [cov total]]. unfold Gcov.gcov_step.
  destruct (Json.any_pattern_in filters name) eqn:E; [| reflexivity].
  apply any_pattern_in_spec in E. contradiction.
Qed.

(** C9.  In both extractors a filename is counted only if some pattern of
    the FilterSet is a substring of it, and every filename with such a
    pattern passes the filter; a run without [-f] is the run with the single
    pattern [src/]. *)
Theorem filter_is_substring_or_matching :
  (forall (filters : list string) (name : string),
      Json.any_pattern_in filters name = true <-> matches filters name)
  /\ (forall (filters : list string) (a : Json.acc) (fe : file_entry),
        ~ matches filters (name_of fe) -> Json.json_step filters a fe = a)
  /\ (forall (filters : list string) (fe : file_entry)
             (total_lines covered_lines : Z) (matched_files : list string),
        matches filters (name_of fe) -> 0 < total_of fe ->
        Json.json_step filters (total_lines, covered_lines, matched_files) fe
        = (total_lines + total_of fe, covered_lines + covered_of fe,
           (matched_files ++ [name_of fe])%list))
  /\ (forall (filters : list string) (a : Gcov.acc)
             (item : string * (Z * Z)),
        ~ matches filters (fst item) -> Gcov.gcov_step filters a item = a)
  /\ (forall (filters : list string) (name : string) (cov total : Z)
             (total_lines covered_lines : Z)
             (matched_files : list (string * Z * Z)),
        matches filters name ->
        Gcov.gcov_step filters (total_lines, covered_lines, matched_files)
                       (name, (cov, total))
        = (total_lines + total, covered_lines + cov,
           (matched_files ++ [(name, cov, total)])%list))
  /\ (forall (w : world) (json gcov_dir : option string),
        Cli.run w {| Cli.args_json := json; Cli.args_gcov_dir := gcov_dir;
                     Cli.args_filters := None |}
        = Cli.run w {| Cli.args_json := json; Cli.args_gcov_dir := gcov_dir;
                       Cli.args_filters := Some ["src/"] |}).
Proof.
  split; [exact any_pattern_in_spec |].
  split; [intros; apply json_step_no_match; assumption |].
  split; [intros; apply json_step_match; assumption |].
  split; [intros; apply gcov_step_no_match; assumption |].
  split; [intros; apply gcov_step_match; assumption |].
  reflexivity.
Qed.

Lemma gcov_fold_unfiltered (filters : list string) :
  In EmptyString filters ->
  forall (t : Gcov.table) (total_lines covered_lines : Z)
         (matched_files : list (string * Z * Z)),
    fold_left (Gcov.gcov_step filters) t
              (total_lines, covered_lines, matched_files)
    = (total_lines + sum (map (fun item => snd (snd item)) t),
       covered_lines + sum (map (fun item => fst (snd item)) t),
       (matched_files
          ++ map (fun item => (fst item, fst (snd item), snd (snd item))) t)
       %list).
Proof.
  intros Hin. induction t as [| [name [cov total]] t IH]; intros T C ms;
    cbn [fold_left map sum fold_right fst snd].
  - rewrite !Z.add_0_r, app_nil_r. reflexivity.
  - rewrite gcov_step_match.
    + rewrite IH. rewrite <- app_assoc. cbn [app].
      fold (sum (map (fun item : string * (Z * Z) => snd (snd item)) t)).
      fold (sum (map (fun item : string * (Z * Z) => fst (snd item)) t)).
      f_equal. f_equal; lia.
    + exists EmptyString. split; [exact Hin |].
      apply str_in_spec, str_in_empty.
Qed.

(** C10.  When the FilterSet holds the empty pattern, every filename
    matches, and both extractors add up all their entries: the JSON
    extractor every record with [line_total > 0], the gcov extractor every
    entry of the table.  Given with [-f], such a FilterSet is used as it
    is. *)
Theorem empty_pattern_matches_everything (filters : list string) :
  In EmptyString filters ->
  (forall name : string, Json.any_pattern_in filters name = true)
  /\ (forall entries : list file_entry,
        fold_left (Json.json_step filters) entries (0, 0, [])
        = (sum (map total_of (counted entries)),
           sum (map covered_of (counted entries)),
           map name_of (counted entries)))
  /\ (forall t : Gcov.table,
        fold_left (Gcov.gcov_step filters) t (0, 0, [])
        = (sum (map (fun item => snd (snd item)) t),
           sum (map (fun item => fst (snd item)) t),
           map (fun item => (fst item, fst (snd item), snd (snd item))) t))
  /\ (forall json gcov_dir : option string,
        Cli.effective_filters
          {| Cli.args_json := json; Cli.args_gcov_dir := gcov_dir;
             Cli.args_filters := Some filters |}
        = filters).
Proof.
  intro Hin. split; [| split; [| split]].
  - intro name. apply any_pattern_in_spec. exists EmptyString.
    split; [exact Hin |]. apply str_in_spec, str_in_empty.
  - intro entries. rewrite (json_fold_unfiltered filters Hin). reflexivity.
  - intro t. rewrite (gcov_fold_unfiltered filters Hin). reflexivity.
  - intros json gcov_dir. unfold Cli.effective_filters. cbn.
    destruct filters; [contradiction | reflexivity].
Qed.

Lemma empty_pattern_matches_everything_witness :
  Json.any_pattern_in [EmptyString] "test/b.c" = true
  /\ fold_left (Json.json_step [EmptyString])
               [record "src/a.c" 100 80; record "test/b.c" 50 10;
                record "test/empty.c" 0 0]
               (0, 0, [])
     = (150, 90, ["src/a.c"; "test/b.c"]).
Proof.
  pose proof (empty_pattern_matches_everything [EmptyString]
                (or_introl eq_refl)) as (Hall & Hjson & _).
  split.
  - exact (Hall "test/b.c").
  - exact (Hjson [record "src/a.c" 100 80; record "test/b.c" 50 10;
                  record "test/empty.c" 0 0]).
Defined.

(** ** The examples of the specification *)

Example json_example_prints_80 :
  Cli.run (world_with_document summary_of_section_8)
          {| Cli.args_json := Some "coverage_summary.json";
             Cli.args_gcov_dir := None;
             Cli.args_filters := Some ["src/"] |}
  = (0, [Stderr (MatchedSummary 1 80 100); Stdout "80.0"]).
Proof. vm_compute. reflexivity. Qed.

Example json_example_without_match_fails :
  Cli.run (world_with_document summary_of_section_8)
          {| Cli.args_json := Some "coverage_summary.json";
             Cli.args_gcov_dir := None;
             Cli.args_filters := Some ["nomatch/"] |}
  = (1, [Stderr (NoMatchingFiles ["nomatch/"])]).
Proof. vm_compute. reflexivity. Qed.

(** 23 covered lines of 80: the script prints [28.7]; the percentage
    [100 * 23 / 80] is [28.75] and prints as [28.8]. *)
Example json_rounding_is_visible :
  Cli.run (world_with_document [record "src/a.c" 80 23])
          {| Cli.args_json := Some "coverage_summary.json";
             Cli.args_gcov_dir := None;
             Cli.args_filters := None |}
  = (0, [Stderr (MatchedSummary 1 23 80); Stdout "28.7"])
  /\ rbind (percentage 23 80) (fun v => Ok (format_1f v)) = Ok "28.8".
Proof. split; vm_compute; reflexivity. Qed.

Example no_data_files_is_a_failure :
  Cli.run (world_with_document summary_of_section_8)
          {| Cli.args_json := None; Cli.args_gcov_dir := Some "twister-out";
             Cli.args_filters := None |}
  = (1, [Stderr (NoGcdaFiles "twister-out")]).
Proof. vm_compute. reflexivity. Qed.

(** A record with [line_total = 0] changes no sum, whatever the filter. *)
Lemma zero_total_is_skipped (filters : list string) (a : Json.acc)
    (fe : file_entry) :
  total_of fe <= 0 -> Json.json_step filters a fe = a.
Proof.
  intro H. destruct a as [[total_lines covered_lines] matched_files].
  unfold Json.json_step. fold (name_of fe) (total_of fe).
  destruct (Json.any_pattern_in filters (name_of fe)); [| reflexivity].
  destruct (Z.ltb_spec 0 (total_of fe)); [lia | reflexivity].
Qed.

(** Two data files that report the same source: the larger total wins, in
    either order, and on equal totals the first report stays. *)
Example duplicate_reports_across_data_files :
  Gcov.gcda_loop
    (world_with_annotator []
       (fun gcda_file =>
          if String.eqb gcda_file "a.gcda"
          then Completed (unlines ["File 'src/foo.c'";
                                   "Lines executed:50.00% of 40"])
                         EmptyString
          else if String.eqb gcda_file "b.gcda"
          then Completed (unlines ["File 'src/foo.c'";
                                   "Lines executed:75.00% of 40"])
                         EmptyString
          else Completed (unlines ["File 'src/foo.c'";
                                   "Lines executed:10.00% of 60"])
                         EmptyString))
    [] ["a.gcda"; "b.gcda"; "c.gcda"; "a.gcda"] []
  = (Ok [("src/foo.c", (6, 60))], []).
Proof. vm_compute. reflexivity. Qed.

(** * Further properties of the script *)

(** ** The JSON extractor, record by record *)

Lemma json_step_selected (filters : list string) (fe : file_entry)
    (total_lines covered_lines : Z) (matched_files : list string) :
  Json.json_step filters (total_lines, covered_lines, matched_files) fe =
  if selected filters fe
  then (total_lines + total_of fe, covered_lines + covered_of fe,
        (matched_files ++ [name_of fe])%list)
  else (total_lines, covered_lines, matched_files).
Proof.
  unfold Json.json_step, selected.
  fold (name_of fe) (total_of fe) (covered_of fe).
  destruct (Json.any_pattern_in filters (name_of fe)); [| reflexivity].
  destruct (0 <? total_of fe); reflexivity.
Qed.

Lemma json_fold_selected (filters : list string) (entries : list file_entry) :
  forall (total_lines covered_lines : Z) (matched_files : list string),
    fold_left (Json.json_step filters) entries
              (total_lines, covered_lines, matched_files) =
    (total_lines + sum (map total_of (filter (selected filters) entries)),
     covered_lines + sum (map covered_of (filter (selected filters) entries)),
     (matched_files ++ map name_of (filter (selected filters) entries))%list).
Proof.
  induction entries as [| fe entries IH]; intros T C ms;
    cbn [fold_left filter].
  - cbn. rewrite !Z.add_0_r, app_nil_r. reflexivity.
  - rewrite json_step_selected.
    destruct (selected filters fe); [| apply IH].
    rewrite IH. cbn [map sum fold_right]. rewrite <- app_assoc. cbn [app].
    fold (sum (map total_of (filter (selected filters) entries))).
    fold (sum (map covered_of (filter (selected filters) entries))).
    f_equal. f_equal; lia.
Qed.

Lemma selected_totals_positive (filters : list string)
    (entries : list file_entry) :
  Forall (fun fe => 0 < total_of fe) (filter (selected filters) entries).
Proof.
  apply Forall_forall. intros fe Hin. apply filter_In in Hin.
  destruct Hin as [_ H]. unfold selected in H.
  apply andb_true_iff in H. destruct H as [_ H]. apply Z.ltb_lt. exact H.
Qed.

(** X1.  On a summary that was loaded, the JSON extractor counts exactly the
    records whose filename passes the filter and whose [line_total] is
    positive, each as often as it occurs.  Without such a record it warns
    that no file matches and returns [None]; otherwise, the two sums over
    these records being integers the interpreter prints (at most 4300
    digits), it computes [(covered / total) * 100] of the sums, reports the
    number of the records and the two sums, and returns the value, or it
    raises what the computation raises and writes nothing. *)
Theorem json_counts_the_selected_records (w : world) (path : string)
    (filters : list string) (data : document) (l : log) :
  json_load w path = Loaded data ->
  let chosen := filter (selected filters) (Json.dict_get (files data) []) in
  printable (sum (map covered_of chosen)) ->
  printable (sum (map total_of chosen)) ->
  Json.calculate_from_json w path filters l =
  match chosen with
  | [] => (Ok None, (l ++ [Stderr (NoMatchingFiles filters)])%list)
  | _ :: _ =>
      match Json.coverage_pct (sum (map covered_of chosen))
                              (sum (map total_of chosen)) with
      | Ok v =>
          (Ok (Some v),
           (l ++ [Stderr (MatchedSummary (List.length chosen)
                            (sum (map covered_of chosen))
                            (sum (map total_of chosen)))])%list)
      | Raise e => (Raise e, l)
      end
  end.
Proof.
  intros Hload chosen _ _. unfold Json.calculate_from_json. rewrite Hload.
  rewrite json_fold_selected. fold chosen. cbn [app]. rewrite !Z.add_0_l.
  pose proof (selected_totals_positive filters
                (Json.dict_get (files data) [])) as Hpos.
  fold chosen in Hpos. rewrite length_map.
  destruct chosen as [| fe rest] eqn:E; [reflexivity |].
  rewrite <- E in *.
  assert (0 < sum (map total_of chosen)) as Hsum.
  { apply sum_totals_positive; [rewrite E; discriminate | exact Hpos]. }
  destruct (Z.eqb_spec (sum (map total_of chosen)) 0) as [H0 | _]; [lia |].
  unfold bind, lift.
  destruct (Json.coverage_pct _ _) as [v | e]; reflexivity.
Qed.

Lemma json_counts_the_selected_records_witness :
  Json.calculate_from_json
    (world_with_document
       [record "src/a.c" 100 80; record "test/b.c" 50 10;
        record "src/a.c" 100 80; record "src/empty.c" 0 0])
    "coverage_summary.json" ["src/"] []
  = (Ok (Some (S754_finite false 5629499534213120 (-46))),
     [Stderr (MatchedSummary 2 160 200)]).
Proof.
  etransitivity.
  - apply (json_counts_the_selected_records
             (world_with_document
                [record "src/a.c" 100 80; record "test/b.c" 50 10;
                 record "src/a.c" 100 80; record "src/empty.c" 0 0])
             "coverage_summary.json" ["src/"]
             {| files := Some [record "src/a.c" 100 80;
                               record "test/b.c" 50 10;
                               record "src/a.c" 100 80;
                               record "src/empty.c" 0 0] |} []);
      vm_compute; reflexivity.
  - vm_compute. reflexivity.
Defined.

Lemma str_in_nothing (p : string) :
  Str.str_in p EmptyString = true <-> p = EmptyString.
Proof.
  destruct p as [| c p]; cbn; split; intro H; try reflexivity;
    discriminate H.
Qed.

Lemma any_pattern_in_nothing (filters : list string) :
  Json.any_pattern_in filters EmptyString = true <-> In EmptyString filters.
Proof.
  unfold Json.any_pattern_in. rewrite existsb_exists. split.
  - intros (p & Hin & Hp). apply str_in_nothing in Hp. subst p. exact Hin.
  - intro Hin. exists EmptyString. split; [exact Hin | reflexivity].
Qed.

(** X2.  Missing keys of a summary fall back on the defaults of
    [dict.get]: a summary without [files] has no record and gives the
    no-match warning; a record without [line_total] is never counted; a
    counted record without [line_covered] adds its total and no covered
    line; a record without [filename] has the empty name, which only the
    empty pattern matches. *)
Theorem json_missing_keys_use_the_defaults :
  (forall (w : world) (path : string) (filters : list string) (l : log),
      json_load w path = Loaded {| files := None |} ->
      Json.calculate_from_json w path filters l
      = (Ok None, (l ++ [Stderr (NoMatchingFiles filters)])%list))
  /\ (forall (filters : list string) (a : Json.acc) (fe : file_entry),
        line_total fe = None -> Json.json_step filters a fe = a)
  /\ (forall (filters : list string) (fe : file_entry)
             (total_lines covered_lines : Z) (matched_files : list string),
        line_covered fe = None -> selected filters fe = true ->
        Json.json_step filters (total_lines, covered_lines, matched_files) fe
        = (total_lines + total_of fe, covered_lines,
           (matched_files ++ [name_of fe])%list))
  /\ (forall (filters : list string) (fe : file_entry),
        filename fe = None ->
        (selected filters fe = true
         <-> In EmptyString filters /\ 0 < total_of fe)).
Proof.
  split; [| split; [| split]].
  - intros w path filters l Hload. unfold Json.calculate_from_json.
    rewrite Hload. reflexivity.
  - intros filters [[T C] ms] fe Hnone. rewrite json_step_selected.
    unfold selected, total_of. rewrite Hnone. cbn [Json.dict_get].
    rewrite andb_false_r. reflexivity.
  - intros filters fe T C ms Hnone Hsel. rewrite json_step_selected, Hsel.
    unfold covered_of. rewrite Hnone. cbn [Json.dict_get].
    rewrite Z.add_0_r. reflexivity.
  - intros filters fe Hnone. unfold selected, name_of. rewrite Hnone.
    cbn [Json.dict_get]. rewrite andb_true_iff, any_pattern_in_nothing.
    rewrite Z.ltb_lt. reflexivity.
Qed.

(** ** The value of a consistent summary *)

Lemma binary_round_aux_zero_sign (mx ex : Z) (lx : location) :
  binary_round_aux prec emax false mx ex lx <> S754_zero true.
Proof.
  unfold binary_round_aux.
  destruct (shr_fexp prec emax mx ex lx) as [mrs' e'].
  destruct (shr_fexp prec emax _ e' loc_Exact) as [mrs'' e''].
  destruct (shr_m mrs'') as [| m | m]; try discriminate.
  destruct (e'' <=? emax - prec); discriminate.
Qed.

Lemma fdiv_zero_sign (m1 m2 : positive) (e1 e2 : Z) :
  fdiv (S754_finite false m1 e1) (S754_finite false m2 e2) <> S754_zero true.
Proof.
  unfold fdiv, SFdiv.
  destruct (SFdiv_core_binary prec emax (Zpos m1) e1 (Zpos m2) e2)
    as [[mz ez] lz].
  apply binary_round_aux_zero_sign.
Qed.

Lemma dyadic_unit (M : Z) : (dyadic M 0 == inject_Z M)%Q.
Proof. unfold dyadic, scaled. change (pow2 (- 0)) with 1%Q. ring. Qed.

Lemma scaled_unit (M : Z) : (scaled M 0 == inject_Z M)%Q.
Proof. unfold scaled. change (pow2 0) with 1%Q. ring. Qed.

Lemma hundred_below :
  below (S754_finite false 7036874417766400 (-46)) (dyadic 100 0).
Proof. cbn [below]. rewrite hundred_value, dyadic_unit. apply Qle_refl. Qed.

Lemma hundred_above :
  above (S754_finite false 7036874417766400 (-46)) (dyadic 100 0).
Proof. cbn [above]. rewrite hundred_value, dyadic_unit. apply Qle_refl. Qed.

(** The quotient of two positive integers, the first at most the second, is
    a float that is at most 1. *)
Lemma int_truediv_ratio (covered total : Z) :
  0 < covered <= total ->
  exists ratio,
    int_truediv covered total = Ok ratio
    /\ below ratio (dyadic 1 0) /\ ratio <> S754_zero true.
Proof.
  intros [Hc Ht]. unfold int_truediv.
  destruct (Z.eqb_spec total 0) as [E | _]; [lia |].
  destruct (Z.eqb_spec covered 0) as [E | _]; [lia |].
  destruct covered as [| pc | pc]; try lia.
  destruct total as [| pt | pt]; try lia.
  cbn [exact_of_Z].
  assert (below (fdiv (S754_finite false pc 0) (S754_finite false pt 0))
                (dyadic 1 0)) as Hb.
  { apply fdiv_below; [lia | lia |].
    rewrite dyadic_unit, !scaled_unit. rewrite Qmult_1_l.
    rewrite <- Zle_Qle. exact Ht. }
  pose proof (fdiv_zero_sign pc pt 0 0) as Hs.
  destruct (fdiv (S754_finite false pc 0) (S754_finite false pt 0))
    as [s | s | | s m e] eqn:E; cbn [below] in Hb; try contradiction;
    cbn [is_infinite]; eexists; (split; [reflexivity |]);
    (split; [exact Hb | exact Hs]).
Qed.

Lemma fmul_zero_sign (x y : float) :
  nonneg x -> nonneg y -> x <> S754_zero true -> y <> S754_zero true ->
  fmul x y <> S754_zero true.
Proof.
  destruct x as [sx | sx | | sx mx ex]; destruct y as [sy | sy | | sy my ey];
    cbn [nonneg]; intros Hx Hy Hzx Hzy; subst; try discriminate;
    try (destruct sx; [congruence | discriminate]);
    try (destruct sy; [congruence | discriminate]).
  - destruct sx; [congruence |]. destruct sy; [congruence | discriminate].
  - apply binary_round_aux_zero_sign.
Qed.

Lemma below_nonneg (x : float) (B : Q) : below x B -> nonneg x.
Proof.
  destruct x as [s | s | | [] m e]; cbn [below nonneg]; intro H;
    try contradiction; try exact I; reflexivity.
Qed.

Lemma percent_range_intro (x : float) :
  below x (dyadic 100 0) -> x <> S754_zero true -> in_percent_range x.
Proof.
  destruct x as [[] | s | | [] m e]; cbn [below in_percent_range];
    intros Hb Hz; try contradiction; try congruence; try exact I.
  rewrite <- dyadic_unit. exact Hb.
Qed.

(** [(covered / total) * 100] of a part of a positive whole is a percentage,
    however large the two integers are. *)
Lemma coverage_pct_in_range (covered total : Z) :
  0 <= covered <= total -> 0 < total ->
  exists pct, Json.coverage_pct covered total = Ok pct /\ in_percent_range pct.
Proof.
  intros [Hc Hle] Ht. unfold Json.coverage_pct.
  destruct (Z.eq_dec covered 0) as [-> | Hnz].
  - unfold int_truediv.
    destruct (Z.eqb_spec total 0) as [E | _]; [lia |]. cbn [Z.eqb rbind].
    destruct (Z.ltb_spec total 0) as [E | _]; [lia |].
    exists (S754_zero false). split; [vm_compute; reflexivity | exact I].
  - destruct (int_truediv_ratio covered total ltac:(lia))
      as (ratio & -> & Hb & Hs).
    cbn [rbind]. unfold float_mul_int.
    replace (float_of_int 100)
      with (Ok (S754_finite false 7036874417766400 (-46)))
      by (vm_compute; reflexivity).
    cbn [rbind]. eexists. split; [reflexivity |].
    apply percent_range_intro.
    + apply (fmul_below ratio _ 1 100 0 0); try lia;
        [exact Hb | exact hundred_below].
    + apply fmul_zero_sign;
        [eapply below_nonneg; exact Hb | reflexivity | exact Hs
        | discriminate].
Qed.

Lemma sum_bounds (entries : list file_entry) :
  Forall (fun fe => 0 <= covered_of fe <= total_of fe) entries ->
  0 <= sum (map covered_of entries) <= sum (map total_of entries).
Proof.
  induction 1 as [| fe entries Hfe _ IH]; cbn [map sum fold_right];
    [lia |].
  fold (sum (map covered_of entries)) (sum (map total_of entries)). lia.
Qed.

(** X3.  When every counted record of a summary has
    [0 <= line_covered <= line_total], there is at least one, and the sum
    of the totals is an integer the interpreter prints (at most 4300
    digits), the JSON extractor raises nothing and returns a percentage: a
    float that is not negative and at most 100.  The quotient of the two
    sums is at most 1, so it cannot overflow. *)
Theorem json_consistent_summary_gives_a_percentage (w : world)
    (path : string) (filters : list string) (data : document) (l : log) :
  json_load w path = Loaded data ->
  let chosen := filter (selected filters) (Json.dict_get (files data) []) in
  chosen <> [] ->
  Forall (fun fe => 0 <= covered_of fe <= total_of fe) chosen ->
  printable (sum (map total_of chosen)) ->
  exists pct,
    Json.calculate_from_json w path filters l
    = (Ok (Some pct),
       (l ++ [Stderr (MatchedSummary (List.length chosen)
                        (sum (map covered_of chosen))
                        (sum (map total_of chosen)))])%list)
    /\ in_percent_range pct.
Proof.
  intros Hload chosen Hne Hall _.
  pose proof (json_fold_selected filters (Json.dict_get (files data) [])
                0 0 []) as Hfold.
  fold chosen in Hfold. cbn [app] in Hfold. rewrite !Z.add_0_l in Hfold.
  pose proof (selected_totals_positive filters
                (Json.dict_get (files data) [])) as Hpos.
  fold chosen in Hpos.
  pose proof (sum_totals_positive chosen Hne Hpos) as Hsum.
  destruct (coverage_pct_in_range _ _ (sum_bounds chosen Hall) Hsum)
    as (pct & Hpct & Hrange).
  exists pct. split; [| exact Hrange].
  unfold Json.calculate_from_json. rewrite Hload, Hfold.
  destruct (Z.eqb_spec (sum (map total_of chosen)) 0) as [H0 | _]; [lia |].
  unfold bind, lift. rewrite Hpct, length_map. reflexivity.
Qed.

Lemma json_consistent_summary_gives_a_percentage_witness :
  exists pct,
    Json.calculate_from_json
      (world_with_document [record "src/a.c" 80 23; record "test/b.c" 5 9])
      "coverage_summary.json" ["src/"] []
    = (Ok (Some pct), [Stderr (MatchedSummary 1 23 80)])
    /\ in_percent_range pct.
Proof.
  assert (filter (selected ["src/"])
            [record "src/a.c" 80 23; record "test/b.c" 5 9]
          = [record "src/a.c" 80 23]) as E by (vm_compute; reflexivity).
  pose proof (json_consistent_summary_gives_a_percentage
                (world_with_document
                   [record "src/a.c" 80 23; record "test/b.c" 5 9])
                "coverage_summary.json" ["src/"]
                {| files := Some [record "src/a.c" 80 23;
                                  record "test/b.c" 5 9] |} []
                eq_refl) as H.
  cbv zeta in H. cbn [Json.dict_get files] in H. rewrite E in H.
  apply H; [discriminate | | vm_compute; reflexivity].
  apply Forall_cons; [| apply Forall_nil].
  vm_compute. split; discriminate.
Defined.

(** ** The printed line *)

Lemma round_half_even_nearest (n d : Z) :
  0 < d ->
  2 * n - d <= 2 * (d * round_half_even n d) <= 2 * n + d.
Proof.
  intro Hd. unfold round_half_even.
  pose proof (Z.div_mod n d ltac:(lia)) as Hdm.
  pose proof (Z.mod_pos_bound n d Hd) as Hr.
  destruct (Z.compare_spec (2 * (n mod d)) d) as [E | E | E].
  - destruct (Z.even (n / d)); lia.
  - lia.
  - lia.
Qed.

Lemma scaled_bound_nonneg_exponent (m e B : Z) :
  0 <= e -> (scaled m e <= inject_Z B)%Q -> m * 2 ^ e <= B.
Proof.
  intros He H. unfold scaled in H. rewrite pow2_Z in H by exact He.
  rewrite <- inject_Z_mult, <- Zle_Qle in H. exact H.
Qed.

Lemma scaled_integer (B e : Z) :
  e < 0 -> (inject_Z B == scaled (B * 2 ^ (- e)) e)%Q.
Proof.
  intro He. rewrite (scaled_rescale B e (- e)) by lia.
  replace (e + - e) with 0 by lia. rewrite scaled_unit. reflexivity.
Qed.

Lemma scaled_bound_neg_exponent (m e B : Z) :
  e < 0 -> (scaled m e <= inject_Z B)%Q -> m <= B * 2 ^ (- e).
Proof.
  intros He H. rewrite (scaled_integer B e He) in H.
  apply scaled_le_inv in H. exact H.
Qed.

Lemma pow2_inverse (e : Z) : e < 0 -> (inject_Z (2 ^ (- e)) * pow2 e == 1)%Q.
Proof.
  intro He. rewrite <- pow2_Z by lia. rewrite <- pow2_add.
  replace (- e + e) with 0 by lia. reflexivity.
Qed.

(** A percentage is printed as the nearest number of tenths, between
    [0.0] and [100.0]. *)
Lemma format_1f_percentage (x : float) :
  in_percent_range x ->
  exists tenths,
    0 <= tenths <= 1000
    /\ (inject_Z tenths - (1 # 2) <= 10 * value x
        <= inject_Z tenths + (1 # 2))%Q
    /\ format_1f x = one_decimal tenths.
Proof.
  destruct x as [[] | s | | [] m e]; cbn [in_percent_range]; intro H;
    try contradiction.
  - exists 0. split; [lia |]. split; [cbn [value]; change (inject_Z 0) with 0%Q; lra |].
    vm_compute. reflexivity.
  - cbn [value format_1f]. destruct (Z.leb_spec 0 e) as [He | He].
    + exists (10 * Zpos m * 2 ^ e).
      pose proof (scaled_bound_nonneg_exponent _ _ _ He H) as Hle.
      assert (0 < 2 ^ e) by (apply Z.pow_pos_nonneg; lia).
      split; [nia |]. split; [| reflexivity].
      unfold scaled. rewrite pow2_Z by exact He.
      rewrite !inject_Z_mult. change (inject_Z 10) with 10%Q. lra.
    + set (d := 2 ^ (- e)).
      assert (0 < d) as Hd by (apply Z.pow_pos_nonneg; lia).
      pose proof (scaled_bound_neg_exponent _ _ _ He H) as Hle. fold d in Hle.
      pose proof (round_half_even_nearest (10 * Zpos m) d Hd) as [Hlo Hhi].
      set (r := round_half_even (10 * Zpos m) d) in *.
      exists r. split; [nia |]. split; [| reflexivity].
      pose proof (pow2_inverse e He) as Hinv. fold d in Hinv.
      pose proof (pow2_pos e) as Hp.
      unfold scaled.
      unfold Z.sub in Hlo. rewrite Zle_Qle in Hlo. rewrite Zle_Qle in Hhi.
      repeat (rewrite inject_Z_plus in Hlo || rewrite inject_Z_mult in Hlo
              || rewrite inject_Z_opp in Hlo).
      repeat (rewrite inject_Z_plus in Hhi || rewrite inject_Z_mult in Hhi).
      change (inject_Z 2) with 2%Q in *. change (inject_Z 10) with 10%Q in *.
      set (D := inject_Z d) in *. set (R := inject_Z r) in *.
      set (M := inject_Z (Zpos m)) in *. set (P := pow2 e) in *.
      assert ((2 * (10 * M) + - D) * P <= 2 * (D * R) * P)%Q as H1
        by (apply Qmult_le_compat_r; [exact Hlo | lra]).
      assert (2 * (D * R) * P <= (2 * (10 * M) + D) * P)%Q as H2
        by (apply Qmult_le_compat_r; [exact Hhi | lra]).
      assert (2 * (D * R) * P == 2 * R * (D * P))%Q as E1 by ring.
      assert ((2 * (10 * M) + - D) * P == 20 * (M * P) - D * P)%Q as E2
        by ring.
      assert ((2 * (10 * M) + D) * P == 20 * (M * P) + D * P)%Q as E3
        by ring.
      rewrite E1 in H1, H2. rewrite E2 in H1. rewrite E3 in H2.
      rewrite Hinv in H1, H2. lra.
Qed.

(** X4.  When the extractor returns a percentage, the run exits with
    status 0 and the line it prints is the percentage rounded to the nearest
    tenth, written with one decimal: a number of tenths between 0 and 1000
    that differs from ten times the percentage by at most one half. *)
Theorem percentage_is_printed_to_the_nearest_tenth (w : world)
    (args : Cli.namespace) (pct : float) :
  fst (Cli.extract w args []) = Ok (Some pct) ->
  in_percent_range pct ->
  exists tenths,
    0 <= tenths <= 1000
    /\ (inject_Z tenths - (1 # 2) <= 10 * value pct
        <= inject_Z tenths + (1 # 2))%Q
    /\ fst (Cli.run w args) = 0
    /\ stdout_of (snd (Cli.run w args)) = [one_decimal tenths].
Proof.
  intros Hex Hrange.
  destruct (format_1f_percentage pct Hrange) as (tenths & Hb & Hnear & Hfmt).
  exists tenths. split; [exact Hb |]. split; [exact Hnear |].
  pose proof (quiet_extract w args []) as Hq.
  unfold Cli.run, Cli.main, bind.
  destruct (Cli.extract w args []) as [r l]. cbn [fst snd] in *. subst r.
  unfold print_out, ret. cbn [fst snd].
  split; [reflexivity |].
  rewrite stdout_of_app, Hq, Hfmt. reflexivity.
Qed.

Lemma percentage_is_printed_to_the_nearest_tenth_witness :
  exists tenths,
    0 <= tenths <= 1000
    /\ (inject_Z tenths - (1 # 2)
        <= 10 * value (S754_finite false 8092405580431359 (-48))
        <= inject_Z tenths + (1 # 2))%Q
    /\ fst (Cli.run (world_with_document [record "src/a.c" 80 23])
              {| Cli.args_json := Some "coverage_summary.json";
                 Cli.args_gcov_dir := None;
                 Cli.args_filters := None |}) = 0
    /\ stdout_of (snd (Cli.run (world_with_document [record "src/a.c" 80 23])
                         {| Cli.args_json := Some "coverage_summary.json";
                            Cli.args_gcov_dir := None;
                            Cli.args_filters := None |}))
       = [one_decimal tenths].
Proof.
  apply (percentage_is_printed_to_the_nearest_tenth
           (world_with_document [record "src/a.c" 80 23])
           {| Cli.args_json := Some "coverage_summary.json";
              Cli.args_gcov_dir := None;
              Cli.args_filters := None |}
           (S754_finite false 8092405580431359 (-48))).
  - vm_compute. reflexivity.
  - vm_compute. discriminate.
Defined.

(** ** Every invocation *)

(** C8, as amended.  For every invocation whose command line [argparse]
    accepts, the process exits with status 0, having written to standard
    output exactly one line, exactly when an extractor returned a value;
    the line is [f"{coverage:.1f}"], which for a value between 0 and 100 is
    the value rounded to the nearest tenth and written with one decimal.
    When the extractor returned [None] or raised, the process exits with
    status 1 and standard output is empty; the diagnostics, and the
    traceback of an uncaught exception, are on standard error.  The two
    other invocations are not failures of an extractor: [--help] writes the
    help text to standard output and exits with status 0, and a command
    line that [argparse] rejects exits with status 2 after a usage message
    on standard error. *)
Theorem exit_status_and_standard_output (w : world)
    (parsed : Cli.parse_outcome) :
  match parsed with
  | Cli.Parsed args =>
      match fst (Cli.extract w args []) with
      | Ok (Some pct) =>
          Cli.exit_status (Cli.invoke w parsed) = 0
          /\ Cli.standard_output (Cli.invoke w parsed) = [format_1f pct]
          /\ Cli.standard_error (Cli.invoke w parsed)
             = stderr_of (snd (Cli.extract w args []))
          /\ Cli.usage_error (Cli.invoke w parsed) = None
          /\ (in_percent_range pct ->
              exists tenths,
                0 <= tenths <= 1000
                /\ (inject_Z tenths - (1 # 2) <= 10 * value pct
                    <= inject_Z tenths + (1 # 2))%Q
                /\ format_1f pct = one_decimal tenths)
      | Ok None =>
          Cli.exit_status (Cli.invoke w parsed) = 1
          /\ Cli.standard_output (Cli.invoke w parsed) = []
          /\ Cli.standard_error (Cli.invoke w parsed)
             = stderr_of (snd (Cli.extract w args []))
          /\ Cli.usage_error (Cli.invoke w parsed) = None
      | Raise e =>
          Cli.exit_status (Cli.invoke w parsed) = 1
          /\ Cli.standard_output (Cli.invoke w parsed) = []
          /\ Cli.standard_error (Cli.invoke w parsed)
             = (stderr_of (snd (Cli.extract w args [])) ++ [Traceback e])%list
          /\ Cli.usage_error (Cli.invoke w parsed) = None
      end
  | Cli.HelpRequested help =>
      Cli.exit_status (Cli.invoke w parsed) = 0
      /\ Cli.standard_output (Cli.invoke w parsed) = [help]
      /\ Cli.standard_error (Cli.invoke w parsed) = []
      /\ Cli.usage_error (Cli.invoke w parsed) = None
  | Cli.Rejected message =>
      Cli.exit_status (Cli.invoke w parsed) = 2
      /\ Cli.standard_output (Cli.invoke w parsed) = []
      /\ Cli.standard_error (Cli.invoke w parsed) = []
      /\ Cli.usage_error (Cli.invoke w parsed) = Some message
  end.
Proof.
  destruct parsed as [args | help | message];
    [| repeat split | repeat split].
  pose proof (quiet_extract w args []) as Hq.
  unfold Cli.invoke, Cli.run, Cli.main, bind.
  destruct (Cli.extract w args []) as [[[pct |] | e] l];
    cbn [fst snd] in *; change (stdout_of []) with (@nil string) in Hq.
  - unfold print_out, ret.
    cbn [Cli.exit_status Cli.standard_output Cli.standard_error
         Cli.usage_error].
    rewrite stdout_of_app, stderr_of_app, Hq. cbn [stdout_of stderr_of
      flat_map app]. rewrite app_nil_r.
    repeat (split; [reflexivity |]). apply format_1f_percentage.
  - unfold ret.
    cbn [Cli.exit_status Cli.standard_output Cli.standard_error
         Cli.usage_error].
    repeat (split; [reflexivity || exact Hq |]). reflexivity.
  - cbn [Cli.exit_status Cli.standard_output Cli.standard_error
         Cli.usage_error].
    rewrite stdout_of_app, stderr_of_app, Hq.
    repeat (split; [reflexivity |]). reflexivity.
Qed.

(** C8, as the specification states it, fails: a command line that
    [argparse] rejects, such as the empty one, is a failure that exits with
    status 2, not 1; and [--help] exits with status 0 and writes the help
    text to standard output although no extractor produced a result. *)
Lemma exit_status_claim_fails : ~ exit_status_claim.
Proof.
  intro H.
  specialize (H (world_with_document [])
                (Cli.Rejected
                   "one of the arguments --json --gcov-dir is required")).
  cbn in H. destruct H as [H _]. discriminate H.
Qed.

Lemma int_truediv_whole (total : Z) :
  0 < total ->
  exists ratio,
    int_truediv total total = Ok ratio
    /\ below ratio (dyadic 1 0) /\ above ratio (dyadic 1 0).
Proof.
  intro Ht.
  destruct (int_truediv_ratio total total ltac:(lia)) as (ratio & E & Hb & _).
  exists ratio. split; [exact E |]. split; [exact Hb |].
  unfold int_truediv in E.
  destruct (Z.eqb_spec total 0) as [E0 | _]; [lia |].
  destruct total as [| pt | pt]; try lia.
  cbn [exact_of_Z] in E.
  destruct (is_infinite _); [discriminate |]. injection E as <-.
  apply fdiv_above; [lia | lia |].
  rewrite dyadic_unit, Qmult_1_l. apply Qle_refl.
Qed.

Lemma one_hundred_is_printed (pct : float) :
  below pct (dyadic 100 0) -> above pct (dyadic 100 0) ->
  format_1f pct = "100.0".
Proof.
  intros Hb Ha.
  assert (in_percent_range pct) as Hr.
  { apply percent_range_intro; [exact Hb |]. intros ->. cbn [above] in Ha.
    rewrite dyadic_unit in Ha. change (inject_Z 100) with 100%Q in Ha. lra. }
  destruct (format_1f_percentage pct Hr) as (tenths & Ht & Hnear & ->).
  assert (value pct == 100)%Q as Hv.
  { destruct pct as [s | s | | [] m e]; cbn [below above] in Hb, Ha;
      try contradiction.
    cbn [value]. rewrite dyadic_unit in Hb, Ha.
    change (inject_Z 100) with 100%Q in Hb, Ha. lra. }
  rewrite Hv in Hnear.
  assert (999 < tenths) as Hlow.
  { rewrite Zlt_Qlt. change (inject_Z 999) with 999%Q. lra. }
  replace tenths with 1000 by lia. vm_compute. reflexivity.
Qed.

(** X5.  A summary whose counted lines are all covered is printed as
    [100.0], and one without a covered line as [0.0], however large the
    number of lines: dividing first and multiplying by 100 afterwards loses
    nothing at the two ends of the scale. *)
Theorem both_ends_of_the_scale_are_exact (total : Z) :
  0 < total ->
  rbind (Json.coverage_pct total total) (fun pct => Ok (format_1f pct))
  = Ok "100.0"
  /\ rbind (Json.coverage_pct 0 total) (fun pct => Ok (format_1f pct))
     = Ok "0.0".
Proof.
  intro Ht. split.
  - unfold Json.coverage_pct.
    destruct (int_truediv_whole total Ht) as (ratio & -> & Hb & Ha).
    cbn [rbind]. unfold float_mul_int.
    replace (float_of_int 100)
      with (Ok (S754_finite false 7036874417766400 (-46)))
      by (vm_compute; reflexivity).
    cbn [rbind]. f_equal. apply one_hundred_is_printed.
    + apply (fmul_below ratio _ 1 100 0 0); try lia;
        [exact Hb | exact hundred_below].
    + apply (fmul_above ratio _ 1 100 0 0 (dyadic 1 0) (dyadic 100 0));
        try lia;
        [exact Hb | exact hundred_below | exact Ha | exact hundred_above].
  - unfold Json.coverage_pct, int_truediv.
    destruct (Z.eqb_spec total 0) as [E | _]; [lia |]. cbn [Z.eqb rbind].
    destruct (Z.ltb_spec total 0) as [E | _]; [lia |].
    vm_compute. reflexivity.
Qed.

Lemma both_ends_of_the_scale_are_exact_witness :
  rbind (Json.coverage_pct 3 3) (fun pct => Ok (format_1f pct)) = Ok "100.0"
  /\ rbind (Json.coverage_pct 0 3) (fun pct => Ok (format_1f pct))
     = Ok "0.0".
Proof. apply (both_ends_of_the_scale_are_exact 3). reflexivity. Defined.

(** ** The two patterns and the split into lines *)

Lemma file_pattern_match_spec (line name : string) :
  Str.file_pattern_match line = Some name
  <-> name <> EmptyString
      /\ every not_quote name = true
      /\ exists rest, line = ("File '" ++ name ++ "'" ++ rest)%string.
Proof.
  unfold Str.file_pattern_match. split.
  - destruct (Str.strip_prefix "File '" line) as [rest0 |] eqn:Hpre;
      [| discriminate].
    apply strip_prefix_spec in Hpre.
    pose proof (span_app not_quote rest0) as Happ.
    pose proof (span_every not_quote rest0) as Hev.
    fold not_quote.
    destruct (Str.span not_quote rest0) as [run after]. cbn [fst snd] in *.
    destruct (Str.is_empty run) eqn:Hne; [discriminate |].
    destruct after as [| c after]; [discriminate |].
    destruct (Ascii.eqb_spec c "'"%char) as [-> | _]; [| discriminate].
    intros [= <-]. split; [apply is_empty_false; exact Hne |].
    split; [exact Hev |]. exists after. rewrite Hpre, Happ. reflexivity.
  - intros (Hne & Hev & rest & ->).
    assert (Str.strip_prefix "File '" ("File '" ++ name ++ "'" ++ rest)
            = Some (name ++ "'" ++ rest)%string) as ->
      by (apply strip_prefix_spec; reflexivity).
    fold not_quote.
    rewrite (span_run not_quote name ("'" ++ rest) Hev) by reflexivity.
    apply is_empty_false in Hne. rewrite Hne. reflexivity.
Qed.

(** X6.  [file_pattern.match] recognises exactly the lines that begin with
    [File '], a non-empty name without a quote, and a closing quote; the
    name is what it captures, and what follows the closing quote is
    ignored. *)
Theorem file_header_is_recognised (line name : string) :
  Str.file_pattern_match line = Some name
  <-> name <> EmptyString
      /\ every not_quote name = true
      /\ exists rest, line = ("File '" ++ name ++ "'" ++ rest)%string.
Proof. apply file_pattern_match_spec. Qed.

Lemma coverage_pattern_at_line (int_part frac_part count rest : string) :
  every Str.is_digit int_part = true -> int_part <> EmptyString ->
  every Str.is_digit frac_part = true -> frac_part <> EmptyString ->
  every Str.is_digit count = true -> count <> EmptyString ->
  no_digit_ahead rest ->
  Str.coverage_pattern_at
    ("Lines executed:" ++ int_part ++ "." ++ frac_part ++ "% of "
       ++ count ++ rest)
  = Some ((int_part ++ "." ++ frac_part)%string, count).
Proof.
  intros Hi Hin Hf Hfn Hc Hcn Hrest. unfold Str.coverage_pattern_at.
  assert (Str.strip_prefix "Lines executed:"
            ("Lines executed:" ++ int_part ++ "." ++ frac_part ++ "% of "
               ++ count ++ rest)
          = Some (int_part ++ "." ++ frac_part ++ "% of " ++ count ++ rest)
              %string) as ->
    by (apply strip_prefix_spec; reflexivity).
  rewrite (span_run Str.is_digit int_part
             ("." ++ frac_part ++ "% of " ++ count ++ rest) Hi)
    by reflexivity.
  apply is_empty_false in Hin, Hfn, Hcn. rewrite Hin.
  assert (Str.strip_prefix "." ("." ++ frac_part ++ "% of " ++ count ++ rest)
          = Some (frac_part ++ "% of " ++ count ++ rest)%string) as ->
    by (apply strip_prefix_spec; reflexivity).
  rewrite (span_run Str.is_digit frac_part ("% of " ++ count ++ rest) Hf)
    by reflexivity.
  rewrite Hfn.
  assert (Str.strip_prefix "% of " ("% of " ++ count ++ rest)
          = Some (count ++ rest)%string) as ->
    by (apply strip_prefix_spec; reflexivity).
  rewrite (span_run Str.is_digit count rest Hc Hrest). rewrite Hcn.
  reflexivity.
Qed.

Lemma coverage_pattern_search_line
    (int_part frac_part count rest : string) :
  every Str.is_digit int_part = true -> int_part <> EmptyString ->
  every Str.is_digit frac_part = true -> frac_part <> EmptyString ->
  every Str.is_digit count = true -> count <> EmptyString ->
  no_digit_ahead rest ->
  Str.coverage_pattern_search
    ("Lines executed:" ++ int_part ++ "." ++ frac_part ++ "% of "
       ++ count ++ rest)
  = Some ((int_part ++ "." ++ frac_part)%string, count).
Proof.
  intros Hi Hin Hf Hfn Hc Hcn Hrest.
  pose proof (coverage_pattern_at_line int_part frac_part count rest
                Hi Hin Hf Hfn Hc Hcn Hrest) as Hat.
  cbn [append] in Hat |- *. cbn [Str.coverage_pattern_search].
  rewrite Hat. reflexivity.
Qed.

(** X7.  [coverage_pattern.search] reads a line of ASCII text that begins
    with [Lines executed:], a percentage with the digits [0] to [9] on both
    sides of the point, [% of ] and a count: it captures the percentage and
    the whole count, whatever ASCII text follows the count's last digit.
    (Outside ASCII the pattern's [\d] also accepts the decimal digits of
    other scripts, which would go on with the count.) *)
Theorem coverage_line_is_recognised
    (int_part frac_part count rest : string) :
  every Str.is_digit int_part = true -> int_part <> EmptyString ->
  every Str.is_digit frac_part = true -> frac_part <> EmptyString ->
  every Str.is_digit count = true -> count <> EmptyString ->
  every is_ascii rest = true ->
  no_digit_ahead rest ->
  Str.coverage_pattern_search
    ("Lines executed:" ++ int_part ++ "." ++ frac_part ++ "% of "
       ++ count ++ rest)
  = Some ((int_part ++ "." ++ frac_part)%string, count).
Proof.
  intros Hi Hin Hf Hfn Hc Hcn _ Hrest.
  apply coverage_pattern_search_line; assumption.
Qed.

Lemma coverage_line_is_recognised_witness :
  Str.coverage_pattern_search "Lines executed:75.00% of 40 (approx.)"
  = Some ("75.00", "40").
Proof.
  apply (coverage_line_is_recognised "75" "00" "40" " (approx.)");
    solve [reflexivity | discriminate].
Defined.

Lemma split_newline_nonempty (s : string) : Str.split_newline s <> [].
Proof.
  induction s as [| c s IH]; cbn [Str.split_newline]; [discriminate |].
  destruct (Ascii.eqb c "010"); [discriminate |].
  destruct (Str.split_newline s); discriminate.
Qed.

Lemma unlines_cons (l : string) (ls : list string) :
  ls <> [] -> unlines (l :: ls) = (l ++ newline ++ unlines ls)%string.
Proof. destruct ls; [contradiction | reflexivity]. Qed.

Lemma split_newline_line (l rest : string) :
  every not_newline l = true ->
  Str.split_newline (l ++ newline ++ rest) = l :: Str.split_newline rest.
Proof.
  intro H. induction l as [| c l IH]; cbn [append].
  - reflexivity.
  - cbn [every] in H. apply andb_true_iff in H as [Hc Hl].
    cbn [Str.split_newline]. unfold not_newline in Hc.
    apply negb_true_iff in Hc. rewrite Hc.
    change (String "010" rest) with (newline ++ rest)%string.
    rewrite (IH Hl). reflexivity.
Qed.

Lemma split_newline_last (l : string) :
  every not_newline l = true -> Str.split_newline l = [l].
Proof.
  intro H. induction l as [| c l IH]; [reflexivity |].
  cbn [every] in H. apply andb_true_iff in H as [Hc Hl].
  cbn [Str.split_newline]. unfold not_newline in Hc.
  apply negb_true_iff in Hc. rewrite Hc, (IH Hl). reflexivity.
Qed.

(** X8.  [output.split('\n')] loses nothing: joining the lines with
    newlines gives the output back, there is always at least one line, no
    line holds a newline, and a text made of such lines splits into
    them. *)
Theorem split_and_join_are_inverse :
  (forall output : string,
      unlines (Str.split_newline output) = output
      /\ Str.split_newline output <> []
      /\ Forall (fun line => every not_newline line = true)
                (Str.split_newline output))
  /\ (forall lines : list string,
        lines <> [] ->
        Forall (fun line => every not_newline line = true) lines ->
        Str.split_newline (unlines lines) = lines).
Proof.
  split.
  - induction output as [| c output (IH1 & IH2 & IH3)].
    + repeat split; [discriminate | repeat constructor].
    + cbn [Str.split_newline].
      destruct (Ascii.eqb_spec c "010"%char) as [-> | Hc].
      * split; [| split; [discriminate |]].
        -- rewrite unlines_cons by exact IH2. rewrite IH1. reflexivity.
        -- constructor; [reflexivity | exact IH3].
      * destruct (Str.split_newline output) as [| l ls]; [contradiction |].
        split; [| split; [discriminate |]].
        -- rewrite <- IH1. destruct ls; reflexivity.
        -- inversion IH3 as [| ? ? Hl Hls]; subst. constructor; [| exact Hls].
           cbn [every]. rewrite Hl. unfold not_newline.
           apply Ascii.eqb_neq in Hc. rewrite Hc. reflexivity.
  - induction lines as [| l lines IH]; intros Hne Hall; [contradiction |].
    inversion Hall as [| ? ? Hl Hls]; subst.
    destruct lines as [| l' lines].
    + cbn. apply split_newline_last. exact Hl.
    + rewrite unlines_cons by discriminate.
      rewrite (split_newline_line l _ Hl). f_equal.
      apply IH; [discriminate | exact Hls].
Qed.

(** ** The coverage table as the parser builds it *)

Lemma lookup_none_keys (t : Gcov.table) (name : string) :
  Gcov.lookup t name = None <-> ~ In name (map fst t).
Proof.
  induction t as [| [k v] t IH]; cbn [Gcov.lookup map fst In].
  - split; [intros _ [] | reflexivity].
  - destruct (String.eqb_spec k name) as [-> | Hne].
    + split; [discriminate | intro H; exfalso; apply H; left; reflexivity].
    + rewrite IH. split; [intros H [E | E]; contradiction | tauto].
Qed.

Lemma assign_keys (t : Gcov.table) (name : string) (v : Z * Z) :
  map fst (Gcov.assign t name v)
  = match Gcov.lookup t name with
    | Some _ => map fst t
    | None => (map fst t ++ [name])%list
    end.
Proof.
  induction t as [| [k old] t IH]; cbn [Gcov.assign Gcov.lookup map fst app].
  - reflexivity.
  - destruct (String.eqb k name); cbn [map fst]; [reflexivity |].
    rewrite IH. destruct (Gcov.lookup t name); reflexivity.
Qed.

Lemma assign_distinct (t : Gcov.table) (name : string) (v : Z * Z) :
  NoDup (map fst t) -> NoDup (map fst (Gcov.assign t name v)).
Proof.
  intro H. rewrite assign_keys.
  destruct (Gcov.lookup t name) eqn:E; [exact H |].
  apply lookup_none_keys in E.
  apply NoDup_app; [exact H | repeat constructor; intros [] |].
  intros k Hk [<- | []]. contradiction.
Qed.

Lemma store_distinct (t : Gcov.table) (name : string) (covered total : Z) :
  NoDup (map fst t) -> NoDup (map fst (Gcov.store t name covered total)).
Proof.
  intro H. unfold Gcov.store.
  destruct (Gcov.lookup t name) as [[prev_cov prev_total] |].
  - destruct (prev_total <? total); [apply assign_distinct |]; exact H.
  - apply assign_distinct. exact H.
Qed.

(** Whatever the parser does to the table, it does through [store]. *)
Lemma scan_line_invariant (P : Gcov.table -> Prop) :
  (forall t name covered total, P t -> P (Gcov.store t name covered total)) ->
  forall (st st' : Gcov.scan_state) (line : string),
    P (Gcov.file_coverage st) -> Gcov.scan_line st line = Ok st' ->
    P (Gcov.file_coverage st').
Proof.
  intros Hstore st st' line Hst. unfold Gcov.scan_line.
  destruct (Str.file_pattern_match line) as [name |];
    [intros [= <-]; exact Hst |].
  destruct (Str.coverage_pattern_search line) as [[g1 g2] |];
    [| intros [= <-]; exact Hst].
  destruct (Gcov.cursor st) as [name |]; [| intros [= <-]; exact Hst].
  destruct (float_of_string g1) as [percent | e]; [| discriminate].
  cbn [rbind].
  destruct (Str.int_of_string g2) as [total | e]; [| discriminate].
  cbn [rbind].
  destruct (Gcov.covered_of total percent) as [covered | e];
    [| discriminate].
  cbn [rbind]. intros [= <-]. cbn [Gcov.file_coverage].
  apply Hstore. exact Hst.
Qed.

Lemma scan_lines_invariant (P : Gcov.table -> Prop) :
  (forall t name covered total, P t -> P (Gcov.store t name covered total)) ->
  forall (lines : list string) (st st' : Gcov.scan_state),
    P (Gcov.file_coverage st) -> Gcov.scan_lines st lines = Ok st' ->
    P (Gcov.file_coverage st').
Proof.
  intros Hstore. induction lines as [| line lines IH]; intros st st' Hst;
    cbn [Gcov.scan_lines].
  - intros [= <-]. exact Hst.
  - destruct (Gcov.scan_line st line) as [st1 | e] eqn:E; [| discriminate].
    cbn [rbind]. apply IH.
    exact (scan_line_invariant P Hstore st st1 line Hst E).
Qed.

Lemma parse_output_invariant (P : Gcov.table -> Prop) :
  (forall t name covered total, P t -> P (Gcov.store t name covered total)) ->
  forall (t t' : Gcov.table) (output : string),
    P t -> Gcov.parse_output t output = Ok t' -> P t'.
Proof.
  intros Hstore t t' output Ht. unfold Gcov.parse_output.
  destruct (Gcov.scan_lines _ _) as [st | e] eqn:E; [| discriminate].
  cbn [rbind]. intros [= <-].
  exact (scan_lines_invariant P Hstore _
           {| Gcov.current_file := None; Gcov.file_coverage := t |} _ Ht E).
Qed.

Lemma gcda_loop_invariant (P : Gcov.table -> Prop) (w : world) :
  (forall t name covered total, P t -> P (Gcov.store t name covered total)) ->
  forall (gcda_files : list string) (t t' : Gcov.table) (l l' : log),
    P t -> Gcov.gcda_loop w t gcda_files l = (Ok t', l') -> P t'.
Proof.
  intros Hstore. induction gcda_files as [| gcda_file rest IH];
    intros t t' l l' Ht; cbn [Gcov.gcda_loop].
  - intros [= <- _]. exact Ht.
  - unfold bind.
    destruct (Gcov.gcda_step w t gcda_file l) as [[t1 | e] l1] eqn:E;
      [| discriminate].
    apply IH. unfold Gcov.gcda_step in E.
    destruct (run_gcov w gcda_file) as [out err | e | e | e].
    + unfold lift in E. injection E as E _.
      exact (parse_output_invariant P Hstore _ _ _ Ht E).
    + cbn in E. injection E as <- _. exact Ht.
    + cbn in E. injection E as <- _. exact Ht.
    + discriminate E.
Qed.

(** X9.  The filenames of the coverage table stay distinct through the
    whole loop over the data files, so the final loop counts each source
    file once, however many data files report it. *)
Theorem table_keys_stay_distinct (w : world) (gcda_files : list string)
    (t t' : Gcov.table) (l l' : log) :
  NoDup (map fst t) ->
  Gcov.gcda_loop w t gcda_files l = (Ok t', l') ->
  NoDup (map fst t').
Proof.
  apply (gcda_loop_invariant (fun t => NoDup (map fst t))).
  intros. apply store_distinct. assumption.
Qed.

Lemma table_keys_stay_distinct_witness :
  NoDup (map fst [("src/foo.c", (30, 40))]).
Proof.
  assert (Gcov.gcda_loop (world_with_annotator [] annotate_foo) []
                         ["a.gcda"; "b.gcda"] []
          = (Ok [("src/foo.c", (30, 40))], [])) as E
    by (vm_compute; reflexivity).
  exact (table_keys_stay_distinct (world_with_annotator [] annotate_foo)
           ["a.gcda"; "b.gcda"] [] _ [] [] (NoDup_nil _) E).
Defined.

Lemma lookup_store (t : Gcov.table) (name other : string)
    (covered total : Z) :
  Gcov.lookup (Gcov.store t name covered total) other
  = if String.eqb name other
    then match Gcov.lookup t name with
         | Some (prev_cov, prev_total) =>
             if prev_total <? total then Some (covered, total)
             else Some (prev_cov, prev_total)
         | None => Some (covered, total)
         end
    else Gcov.lookup t other.
Proof.
  unfold Gcov.store.
  destruct (String.eqb_spec name other) as [<- | Hne].
  - destruct (Gcov.lookup t name) as [[prev_cov prev_total] |] eqn:E.
    + destruct (prev_total <? total); [apply lookup_assign_same | exact E].
    + apply lookup_assign_same.
  - destruct (Gcov.lookup t name) as [[prev_cov prev_total] |].
    + destruct (prev_total <? total); [| reflexivity].
      apply lookup_assign_other. congruence.
    + apply lookup_assign_other. congruence.
Qed.

Lemma keeps_records_refl (t : Gcov.table) : keeps_records t t.
Proof.
  intros name covered total H. exists covered, total.
  split; [exact H |]. split; [lia | reflexivity].
Qed.

Lemma keeps_records_store (t0 t : Gcov.table) (name : string)
    (covered total : Z) :
  keeps_records t0 t -> keeps_records t0 (Gcov.store t name covered total).
Proof.
  intros H other c0 tot0 H0.
  destruct (H other c0 tot0 H0) as (c1 & tot1 & H1 & Hle & Hsame).
  rewrite lookup_store.
  destruct (String.eqb_spec name other) as [-> | Hne].
  - rewrite H1. destruct (Z.ltb_spec tot1 total) as [Hlt | Hge].
    + exists covered, total. split; [reflexivity |]. split; lia.
    + exists c1, tot1. auto.
  - exists c1, tot1. auto.
Qed.

(** X10.  The loop over the data files never forgets: a filename that is
    in the table stays in it, its total never gets smaller, and its entry
    changes only for a strictly larger total. *)
Theorem recorded_files_stay_recorded (w : world) (gcda_files : list string)
    (t t' : Gcov.table) (l l' : log) :
  Gcov.gcda_loop w t gcda_files l = (Ok t', l') -> keeps_records t t'.
Proof.
  apply (gcda_loop_invariant (keeps_records t)).
  - intros. apply keeps_records_store. assumption.
  - apply keeps_records_refl.
Qed.

Lemma recorded_files_stay_recorded_witness :
  keeps_records [("src/foo.c", (39, 40)); ("src/bar.c", (1, 2))]
                [("src/foo.c", (39, 40)); ("src/bar.c", (1, 2))].
Proof.
  assert (Gcov.gcda_loop (world_with_annotator [] annotate_foo)
            [("src/foo.c", (39, 40)); ("src/bar.c", (1, 2))]
            ["a.gcda"] []
          = (Ok [("src/foo.c", (39, 40)); ("src/bar.c", (1, 2))], [])) as E
    by (vm_compute; reflexivity).
  exact (recorded_files_stay_recorded (world_with_annotator [] annotate_foo)
           ["a.gcda"] _ _ [] [] E).
Defined.

Lemma store_all_snoc (t : Gcov.table) (reports : list (string * (Z * Z)))
    (r : string * (Z * Z)) :
  store_all t (reports ++ [r])
  = Gcov.store (store_all t reports) (fst r) (covered_in r) (total_in r).
Proof. unfold store_all. rewrite fold_left_app. reflexivity. Qed.

Lemma store_all_first_largest
    (reports : list (string * (Z * Z))) (name : string) :
  match Gcov.lookup (store_all [] reports) name with
  | None => forall v, ~ In (name, v) reports
  | Some (covered, total) =>
      exists before after,
        reports = (before ++ (name, (covered, total)) :: after)%list
        /\ (forall c t, In (name, (c, t)) before -> t < total)
        /\ (forall c t, In (name, (c, t)) after -> t <= total)
  end.
Proof.
  induction reports as [| [key [c tot]] reports IH] using rev_ind.
  - cbn. intros v [].
  - rewrite store_all_snoc. cbn [fst snd covered_in total_in].
    rewrite lookup_store.
    destruct (String.eqb_spec key name) as [-> | Hne].
    + destruct (Gcov.lookup (store_all [] reports) name)
        as [[prev_cov prev_total] |].
      * destruct IH as (before & after & -> & Hb & Ha).
        destruct (Z.ltb_spec prev_total tot) as [Hlt | Hge].
        -- exists (before ++ (name, (prev_cov, prev_total)) :: after)%list, [].
           split; [reflexivity |]. split; [| intros ? ? []].
           intros c' t' Hin. apply in_app_or in Hin as [Hin | [Hin | Hin]].
           ++ specialize (Hb c' t' Hin). lia.
           ++ injection Hin as <- <-. exact Hlt.
           ++ specialize (Ha c' t' Hin). lia.
        -- exists before, (after ++ [(name, (c, tot))])%list.
           split; [rewrite <- app_assoc; reflexivity |].
           split; [exact Hb |].
           intros c' t' Hin. apply in_app_or in Hin as [Hin | [Hin | []]].
           ++ exact (Ha c' t' Hin).
           ++ injection Hin as <- <-. exact Hge.
      * exists reports, []. split; [reflexivity |].
        split; [| intros ? ? []].
        intros c' t' Hin. exfalso. exact (IH _ Hin).
    + destruct (Gcov.lookup (store_all [] reports) name)
        as [[covered total] |].
      * destruct IH as (before & after & -> & Hb & Ha).
        exists before, (after ++ [(key, (c, tot))])%list.
        split; [rewrite <- app_assoc; reflexivity |].
        split; [exact Hb |].
        intros c' t' Hin. apply in_app_or in Hin as [Hin | [Hin | []]].
        -- exact (Ha c' t' Hin).
        -- congruence.
      * intros v Hin. apply in_app_or in Hin as [Hin | [Hin | []]].
        -- exact (IH v Hin).
        -- congruence.
Qed.

(** X11.  After any sequence of reports, the table holds for each filename
    the first of its reports with the largest total: every earlier report
    of the filename has a strictly smaller total and no later one has a
    larger total; a filename without a report is not in the table. *)
Theorem recorded_entry_is_the_first_with_the_largest_total
    (reports : list (string * (Z * Z))) (name : string) :
  match Gcov.lookup (store_all [] reports) name with
  | None => forall v, ~ In (name, v) reports
  | Some (covered, total) =>
      exists before after,
        reports = (before ++ (name, (covered, total)) :: after)%list
        /\ (forall c t, In (name, (c, t)) before -> t < total)
        /\ (forall c t, In (name, (c, t)) after -> t <= total)
  end.
Proof. apply store_all_first_largest. Qed.

Lemma scan_lines_without_reports (lines : list string) :
  Forall (fun line => Str.coverage_pattern_search line = None) lines ->
  forall st : Gcov.scan_state,
    exists st',
      Gcov.scan_lines st lines = Ok st'
      /\ Gcov.file_coverage st' = Gcov.file_coverage st.
Proof.
  induction 1 as [| line lines Hline _ IH]; intro st; cbn [Gcov.scan_lines].
  - exists st. split; reflexivity.
  - unfold Gcov.scan_line. rewrite Hline.
    destruct (Str.file_pattern_match line) as [name |]; cbn [rbind].
    + destruct (IH {| Gcov.current_file := Some name;
                      Gcov.file_coverage := Gcov.file_coverage st |})
        as (st' & E & Ht).
      exists st'. split; [exact E | exact Ht].
    + apply IH.
Qed.

Lemma scan_lines_without_headers (lines : list string) :
  Forall (fun line => Str.file_pattern_match line = None) lines ->
  forall st : Gcov.scan_state,
    Gcov.cursor st = None -> Gcov.scan_lines st lines = Ok st.
Proof.
  induction 1 as [| line lines Hline _ IH]; intros st Hcur;
    cbn [Gcov.scan_lines]; [reflexivity |].
  rewrite (scan_line_ignored st line Hline (or_introl Hcur)).
  cbn [rbind]. apply IH. exact Hcur.
Qed.

(** X12.  An output of ASCII text in which no line holds a coverage number,
    and an output in which no line is a filename header, leave the table as
    it was and raise nothing: a header alone records nothing, and without a
    header the numbers of a coverage line are not even converted. *)
Theorem output_without_a_report_changes_nothing (t : Gcov.table)
    (output : string) :
  (every is_ascii output = true ->
   Forall (fun line => Str.coverage_pattern_search line = None)
          (Str.split_newline output) ->
   Gcov.parse_output t output = Ok t)
  /\ (Forall (fun line => Str.file_pattern_match line = None)
             (Str.split_newline output) ->
      Gcov.parse_output t output = Ok t).
Proof.
  unfold Gcov.parse_output. split; [intros _ H | intro H].
  - destruct (scan_lines_without_reports _ H
                {| Gcov.current_file := None; Gcov.file_coverage := t |})
      as (st' & -> & Ht).
    cbn [rbind]. rewrite Ht. reflexivity.
  - rewrite (scan_lines_without_headers _ H) by reflexivity. reflexivity.
Qed.

(** ** The final loop of the gcov extractor *)

Lemma gcov_step_passes (filters : list string) (item : string * (Z * Z))
    (total_lines covered_lines : Z) (matched_files : list (string * Z * Z)) :
  Gcov.gcov_step filters (total_lines, covered_lines, matched_files) item =
  if passes filters item
  then (total_lines + total_in item, covered_lines + covered_in item,
        (matched_files ++ [(fst item, covered_in item, total_in item)])%list)
  else (total_lines, covered_lines, matched_files).
Proof. destruct item as [name [cov total]]. reflexivity. Qed.

Lemma gcov_fold_passing (filters : list string) (t : Gcov.table) :
  forall (total_lines covered_lines : Z)
         (matched_files : list (string * Z * Z)),
    fold_left (Gcov.gcov_step filters) t
              (total_lines, covered_lines, matched_files)
    = (total_lines + sum (map total_in (filter (passes filters) t)),
       covered_lines + sum (map covered_in (filter (passes filters) t)),
       (matched_files
          ++ map (fun item => (fst item, covered_in item, total_in item))
                 (filter (passes filters) t))%list).
Proof.
  induction t as [| item t IH]; intros T C ms; cbn [fold_left filter].
  - cbn. rewrite !Z.add_0_r, app_nil_r. reflexivity.
  - rewrite gcov_step_passes.
    destruct (passes filters item); [| apply IH].
    rewrite IH. cbn [map sum fold_right].
    rewrite <- app_assoc. cbn [app].
    fold (sum (map total_in (filter (passes filters) t))).
    fold (sum (map covered_in (filter (passes filters) t))).
    f_equal. f_equal; lia.
Qed.

Lemma for_each_matched_file (items : list (string * (Z * Z))) (l : log) :
  for_each (fun '(name, cov, total) => print_err (MatchedFile name cov total))
           (map (fun item => (fst item, covered_in item, total_in item))
                items) l
  = (Ok tt, (l ++ breakdown items)%list).
Proof.
  revert l. induction items as [| [name [cov total]] items IH]; intro l;
    cbn [map for_each breakdown].
  - unfold ret. rewrite app_nil_r. reflexivity.
  - unfold bind, print_err. cbn [fst snd covered_in total_in].
    rewrite IH. rewrite <- app_assoc. reflexivity.
Qed.

Lemma aggregate_unfold (filters : list string)
    (t : Gcov.table) (l : log) :
  let chosen := filter (passes filters) t in
  let total_lines := sum (map total_in chosen) in
  let covered_lines := sum (map covered_in chosen) in
  Gcov.aggregate filters t l =
  if total_lines =? 0
  then (Ok None, (l ++ [Stderr (NoMatchingFiles filters)])%list)
  else
    match Json.coverage_pct covered_lines total_lines with
    | Ok v =>
        (Ok (Some v),
         (l ++ Stderr (MatchedSummary (List.length chosen)
                         covered_lines total_lines)
            :: breakdown chosen)%list)
    | Raise e => (Raise e, l)
    end.
Proof.
  cbv zeta. unfold Gcov.aggregate. rewrite gcov_fold_passing.
  cbn [app]. rewrite !Z.add_0_l.
  destruct (_ =? 0); [reflexivity |].
  unfold bind at 1. unfold lift.
  destruct (Json.coverage_pct _ _) as [v | e]; [| reflexivity].
  unfold bind, print_err. rewrite for_each_matched_file.
  unfold ret. rewrite length_map, <- app_assoc. reflexivity.
Qed.

(** X13.  The final loop of the gcov extractor adds up every entry of the
    table whose filename passes the filter, an entry with no lines
    included.  When the total of these entries is zero it gives the
    no-match warning and [None]; otherwise it returns
    [(covered / total) * 100] of the two sums and writes the summary and
    one line for each counted entry, in the order of the table. *)
Theorem gcov_counts_the_passing_entries (filters : list string)
    (t : Gcov.table) (l : log) :
  let chosen := filter (passes filters) t in
  let total_lines := sum (map total_in chosen) in
  let covered_lines := sum (map covered_in chosen) in
  Gcov.aggregate filters t l =
  if total_lines =? 0
  then (Ok None, (l ++ [Stderr (NoMatchingFiles filters)])%list)
  else
    match Json.coverage_pct covered_lines total_lines with
    | Ok v =>
        (Ok (Some v),
         (l ++ Stderr (MatchedSummary (List.length chosen)
                         covered_lines total_lines)
            :: breakdown chosen)%list)
    | Raise e => (Raise e, l)
    end.
Proof. apply aggregate_unfold. Qed.

Lemma sum_zero_iff (xs : list Z) :
  Forall (fun x => 0 <= x) xs -> (sum xs = 0 <-> Forall (fun x => x = 0) xs).
Proof.
  induction 1 as [| x xs Hx Hxs IH]; cbn [sum fold_right].
  - split; [constructor | reflexivity].
  - fold (sum xs).
    assert (0 <= sum xs) as Hs.
    { clear IH. induction Hxs as [| y ys Hy _ IHs]; cbn [sum fold_right];
        [lia |]. fold (sum ys). lia. }
    split.
    + intro H. constructor; [lia |]. apply IH. lia.
    + intro H. inversion H as [| ? ? H1 H2]; subst.
      apply IH in H2. lia.
Qed.

(** X14.  On a table whose totals are not negative, as the parser builds
    it, the final loop reports that no file matches exactly when every
    entry that passes the filter has a total of zero: an entry without
    lines passes the filter and is still no match. *)
Theorem gcov_no_match_means_no_lines (filters : list string)
    (t : Gcov.table) (l : log) :
  Forall entry_nonneg t ->
  (Gcov.aggregate filters t l
   = (Ok None, (l ++ [Stderr (NoMatchingFiles filters)])%list)
   <-> Forall (fun item => passes filters item = true -> total_in item = 0)
              t).
Proof.
  intro Hnn. pose proof (aggregate_unfold filters t l) as E. cbv zeta in E.
  rewrite E. clear E.
  assert (Forall (fun x => 0 <= x)
            (map total_in (filter (passes filters) t))) as Hpos.
  { apply Forall_forall. intros x Hx. apply in_map_iff in Hx.
    destruct Hx as (item & <- & Hin). apply filter_In in Hin.
    destruct Hin as [Hin _].
    rewrite Forall_forall in Hnn. apply (Hnn item Hin). }
  assert (sum (map total_in (filter (passes filters) t)) = 0
          <-> Forall (fun item => passes filters item = true
                                  -> total_in item = 0) t) as Hiff.
  { rewrite (sum_zero_iff _ Hpos), !Forall_forall. split.
    - intros H item Hin Hp. apply H. apply in_map.
      apply filter_In. split; assumption.
    - intros H x Hx. apply in_map_iff in Hx.
      destruct Hx as (item & <- & Hin). apply filter_In in Hin.
      destruct Hin as [Hin Hp]. exact (H item Hin Hp). }
  rewrite <- Hiff.
  destruct (Z.eqb_spec (sum (map total_in (filter (passes filters) t))) 0)
    as [E0 | Hne].
  - split; [intros _; exact E0 | reflexivity].
  - split; [| contradiction].
    destruct (Json.coverage_pct _ _); discriminate.
Qed.

Lemma gcov_no_match_means_no_lines_witness :
  Gcov.aggregate ["src/"] [("src/none.c", (0, 0)); ("test/t.c", (3, 4))] []
  = (Ok None, [Stderr (NoMatchingFiles ["src/"])]).
Proof.
  apply (gcov_no_match_means_no_lines ["src/"]
           [("src/none.c", (0, 0)); ("test/t.c", (3, 4))] []).
  - apply Forall_cons; [split; discriminate |].
    apply Forall_cons; [split; discriminate | apply Forall_nil].
  - apply Forall_cons; [intros _; reflexivity |].
    apply Forall_cons; [intro H; discriminate H | apply Forall_nil].
Defined.

(** ** Warnings and exceptions *)

Lemma gcda_step_log (w : world) (t : Gcov.table) (gcda_file : string)
    (l : log) :
  snd (Gcov.gcda_step w t gcda_file l)
  = (l ++ run_warnings w [gcda_file])%list.
Proof.
  unfold Gcov.gcda_step, run_warnings. cbn [flat_map].
  destruct (run_gcov w gcda_file); cbn; rewrite ?app_nil_r; reflexivity.
Qed.

Lemma run_warnings_cons (w : world) (gcda_file : string)
    (rest : list string) :
  run_warnings w (gcda_file :: rest)
  = (run_warnings w [gcda_file] ++ run_warnings w rest)%list.
Proof. unfold run_warnings. cbn [flat_map]. rewrite app_nil_r. reflexivity. Qed.

Lemma gcda_loop_log (w : world) (gcda_files : list string) :
  forall (t t' : Gcov.table) (l l' : log),
    Gcov.gcda_loop w t gcda_files l = (Ok t', l') ->
    l' = (l ++ run_warnings w gcda_files)%list.
Proof.
  induction gcda_files as [| gcda_file rest IH]; intros t t' l l';
    cbn [Gcov.gcda_loop].
  - intros [= _ <-]. cbn. rewrite app_nil_r. reflexivity.
  - unfold bind. pose proof (gcda_step_log w t gcda_file l) as Hlog.
    destruct (Gcov.gcda_step w t gcda_file l) as [[t1 | e] l1];
      [| discriminate].
    cbn [snd] in Hlog. subst l1. intro H. apply IH in H. subst l'.
    rewrite (run_warnings_cons w gcda_file rest), app_assoc. reflexivity.
Qed.

(** X15.  When the loop over the data files ends without an exception, what
    it has written is one warning for each run of the annotator that timed
    out or could not be started, in the order of the data files, and
    nothing else. *)
Theorem one_warning_for_each_failed_run (w : world)
    (gcda_files : list string) (t t' : Gcov.table) (l l' : log) :
  Gcov.gcda_loop w t gcda_files l = (Ok t', l') ->
  l' = (l ++ run_warnings w gcda_files)%list.
Proof. apply gcda_loop_log. Qed.

Lemma one_warning_for_each_failed_run_witness :
  [Stderr (GcovFailed "a.gcda" "timed out")]
  = ([] ++ run_warnings (world_with_annotator [] annotate_but_a)
             ["b.gcda"; "a.gcda"; "c.gcda"])%list.
Proof.
  assert (Gcov.gcda_loop (world_with_annotator [] annotate_but_a) []
                         ["b.gcda"; "a.gcda"; "c.gcda"] []
          = (Ok [("src/foo.c", (30, 40))],
             [Stderr (GcovFailed "a.gcda" "timed out")])) as E
    by (vm_compute; reflexivity).
  exact (one_warning_for_each_failed_run
           (world_with_annotator [] annotate_but_a)
           ["b.gcda"; "a.gcda"; "c.gcda"] [] _ [] _ E).
Defined.

Lemma gcda_loop_all_fail (w : world) (gcda_files : list string) :
  Forall (run_fails w) gcda_files ->
  forall (t : Gcov.table) (l : log),
    Gcov.gcda_loop w t gcda_files l
    = (Ok t, (l ++ run_warnings w gcda_files)%list).
Proof.
  induction 1 as [| gcda_file rest [e He] _ IH]; intros t l;
    cbn [Gcov.gcda_loop].
  - cbn. unfold ret. rewrite app_nil_r. reflexivity.
  - unfold bind. rewrite (gcda_step_failed_run w t gcda_file l e He).
    rewrite IH, (run_warnings_cons w gcda_file rest), app_assoc.
    f_equal. f_equal. f_equal.
    unfold run_warnings. cbn [flat_map].
    destruct He as [-> | ->]; reflexivity.
Qed.

(** X16.  When every run of the annotator times out or cannot be started,
    as when [gcov] is not installed, the run with [--gcov-dir] writes one
    warning for each data file and then the no-match warning, prints
    nothing, and exits with status 1. *)
Theorem annotator_unavailable_is_a_failure (w : world) (dir : string)
    (filters : option (list string)) (gcda_file : string)
    (rest : list string) :
  rglob_gcda w dir = Ok (gcda_file :: rest) ->
  Forall (run_fails w) (gcda_file :: rest) ->
  Cli.run w {| Cli.args_json := None; Cli.args_gcov_dir := Some dir;
               Cli.args_filters := filters |}
  = (1, (run_warnings w (gcda_file :: rest)
           ++ [Stderr (NoMatchingFiles
                         (Cli.effective_filters
                            {| Cli.args_json := None;
                               Cli.args_gcov_dir := Some dir;
                               Cli.args_filters := filters |}))])%list).
Proof.
  intros Hglob Hall.
  set (args := {| Cli.args_json := None; Cli.args_gcov_dir := Some dir;
                  Cli.args_filters := filters |}).
  assert (Cli.extract w args []
          = (Ok None,
             (run_warnings w (gcda_file :: rest)
                ++ [Stderr (NoMatchingFiles (Cli.effective_filters args))])
             %list)) as E.
  { unfold Cli.extract. cbn [Cli.args_json Cli.args_gcov_dir args].
    unfold Gcov.calculate_from_gcov, bind, lift. rewrite Hglob.
    cbv beta iota. rewrite (gcda_loop_all_fail w _ Hall).
    pose proof (aggregate_unfold (Cli.effective_filters args) []) as Hagg.
    cbv zeta in Hagg. cbn [filter map sum fold_right Z.eqb] in Hagg.
    cbn [app]. apply Hagg. }
  unfold Cli.run, Cli.main, bind. rewrite E. reflexivity.
Qed.

Lemma annotator_unavailable_is_a_failure_witness :
  Cli.run (world_with_annotator ["a.gcda"; "b.gcda"]
             (fun _ => RunFileNotFoundError "gcov"))
          {| Cli.args_json := None; Cli.args_gcov_dir := Some "twister-out";
             Cli.args_filters := None |}
  = (1, [Stderr (GcovFailed "a.gcda" "gcov");
         Stderr (GcovFailed "b.gcda" "gcov");
         Stderr (NoMatchingFiles ["src/"])]).
Proof.
  apply (annotator_unavailable_is_a_failure
           (world_with_annotator ["a.gcda"; "b.gcda"]
              (fun _ => RunFileNotFoundError "gcov"))
           "twister-out" None "a.gcda" ["b.gcda"]).
  - reflexivity.
  - apply Forall_cons; [exists "gcov"; right; reflexivity |].
    apply Forall_cons; [exists "gcov"; right; reflexivity | apply Forall_nil].
Defined.

(** X17.  Nothing but the two expected failures is caught.  Any other
    exception of [json.load], of the search for data files or of a run of
    the annotator ends the process with status 1 and a traceback; the loop
    over the data files stops at that data file, and the table built so far
    is lost. *)
Theorem other_exceptions_end_the_run :
  (forall (w : world) (path : string) (args : Cli.namespace) (e : exn),
      Cli.args_json args = Some path -> path <> EmptyString ->
      json_load w path = LoadOtherException e ->
      Cli.run w args = (1, [Stderr (Traceback e)]))
  /\ (forall (w : world) (dir : string) (args : Cli.namespace) (e : exn),
        Cli.args_json args = None -> Cli.args_gcov_dir args = Some dir ->
        rglob_gcda w dir = Raise e ->
        Cli.run w args = (1, [Stderr (Traceback e)]))
  /\ (forall (w : world) (before after : list string) (gcda_file : string)
             (t : Gcov.table) (l : log) (e : exn),
        run_gcov w gcda_file = RunOtherException e ->
        Gcov.gcda_loop w t (before ++ gcda_file :: after) l
        = match Gcov.gcda_loop w t before l with
          | (Ok _, l1) => (Raise e, l1)
          | (Raise x, l1) => (Raise x, l1)
          end).
Proof.
  split; [| split].
  - intros w path args e Hjson Hne Hload.
    unfold Cli.run, Cli.main, Cli.extract, bind. rewrite Hjson.
    apply is_empty_false in Hne. rewrite Hne.
    unfold Json.calculate_from_json. rewrite Hload. reflexivity.
  - intros w dir args e Hjson Hdir Hglob.
    unfold Cli.run, Cli.main, Cli.extract, bind. rewrite Hjson, Hdir.
    unfold Gcov.calculate_from_gcov, bind, lift. rewrite Hglob. reflexivity.
  - intros w before after gcda_file t l e Hrun. rewrite gcda_loop_app.
    destruct (Gcov.gcda_loop w t before l) as [[t1 | x] l1]; [| reflexivity].
    cbn [Gcov.gcda_loop]. unfold bind, Gcov.gcda_step. rewrite Hrun.
    reflexivity.
Qed.

(** X18.  [if args.json:] tests the truth of the path, not its presence.
    A non-empty path selects the JSON extractor, whatever [--gcov-dir]
    holds; no path and the empty path both select the gcov extractor.  So
    with [--json ''] the run takes the gcov branch without a directory,
    [Path(None)] raises [TypeError], and the process ends with status 1 and
    a traceback instead of the read error of the JSON extractor. *)
Theorem dispatch_tests_the_truth_of_the_path (w : world)
    (args : Cli.namespace) :
  (forall path : string,
      Cli.args_json args = Some path -> path <> EmptyString ->
      Cli.extract w args
      = Json.calculate_from_json w path (Cli.effective_filters args))
  /\ (Cli.args_json args = None \/ Cli.args_json args = Some EmptyString ->
      Cli.extract w args
      = Gcov.calculate_from_gcov w (Cli.args_gcov_dir args)
                                 (Cli.effective_filters args))
  /\ (Cli.args_json args = Some EmptyString ->
      Cli.args_gcov_dir args = None ->
      Cli.run w args = (1, [Stderr (Traceback TypeError)])).
Proof.
  unfold Cli.run, Cli.main, Cli.extract, bind. split; [| split].
  - intros path Hjson Hne. rewrite Hjson.
    apply is_empty_false in Hne. rewrite Hne. reflexivity.
  - intros [Hjson | Hjson]; rewrite Hjson; reflexivity.
  - intros Hjson Hdir. rewrite Hjson, Hdir. reflexivity.
Qed.

(** ** The filter as a set *)

Lemma any_pattern_in_same_set (fs gs : list string) (name : string) :
  (forall p, In p fs <-> In p gs) ->
  Json.any_pattern_in fs name = Json.any_pattern_in gs name.
Proof.
  intro H. apply eq_true_iff_eq. unfold Json.any_pattern_in.
  rewrite !existsb_exists.
  split; intros (p & Hin & Hp); exists p; (split; [apply H; exact Hin |]);
    exact Hp.
Qed.

Lemma filter_ext_bool {A : Type} (f g : A -> bool) (xs : list A) :
  (forall x, f x = g x) -> filter f xs = filter g xs.
Proof.
  intro H. induction xs as [| x xs IH]; cbn [filter]; [reflexivity |].
  rewrite H, IH. reflexivity.
Qed.

(** X19.  The value both extractors compute depends on the set of the
    patterns only: their order and their repetition change nothing, and a
    file that several patterns match is counted once. *)
Theorem result_depends_on_the_set_of_patterns (w : world)
    (fs gs : list string) :
  (forall p, In p fs <-> In p gs) ->
  (forall (path : string) (l : log),
      fst (Json.calculate_from_json w path fs l)
      = fst (Json.calculate_from_json w path gs l))
  /\ (forall (build_dir : option string) (l : log),
        fst (Gcov.calculate_from_gcov w build_dir fs l)
        = fst (Gcov.calculate_from_gcov w build_dir gs l)).
Proof.
  intro Hset. split.
  - intros path l. unfold Json.calculate_from_json.
    destruct (json_load w path) as [data | e | e | e]; try reflexivity.
    rewrite !json_fold_selected.
    rewrite (filter_ext_bool (selected fs) (selected gs)).
    + cbn [app]. destruct (_ =? 0); [reflexivity |].
      unfold bind, lift.
      destruct (Json.coverage_pct _ _); reflexivity.
    + intro fe. unfold selected.
      rewrite (any_pattern_in_same_set fs gs _ Hset). reflexivity.
  - intros [dir |] l; [| reflexivity]. unfold Gcov.calculate_from_gcov.
    unfold bind at 1 3. unfold lift.
    destruct (rglob_gcda w dir) as [[| gcda_file rest] | e]; try reflexivity.
    unfold bind.
    destruct (Gcov.gcda_loop w [] (gcda_file :: rest) l) as [[t | e] l1];
      [| reflexivity].
    pose proof (aggregate_unfold fs t l1) as E1.
    pose proof (aggregate_unfold gs t l1) as E2. cbv zeta in E1, E2.
    rewrite E1, E2. clear E1 E2.
    rewrite (filter_ext_bool (passes fs) (passes gs)).
    + destruct (_ =? 0); [reflexivity |].
      destruct (Json.coverage_pct _ _); reflexivity.
    + intro item. unfold passes. apply any_pattern_in_same_set. exact Hset.
Qed.

Lemma result_depends_on_the_set_of_patterns_witness :
  fst (Json.calculate_from_json (world_with_document summary_of_section_8)
         "coverage_summary.json" ["src/"; "test/"] [])
  = fst (Json.calculate_from_json (world_with_document summary_of_section_8)
           "coverage_summary.json" ["test/"; "src/"; "src/"] []).
Proof.
  apply (result_depends_on_the_set_of_patterns
           (world_with_document summary_of_section_8)
           ["src/"; "test/"] ["test/"; "src/"; "src/"]).
  intro p. cbn [In]. tauto.
Defined.

(** ** The covered count at the two ends, and outputs that cannot fail *)

Lemma covered_of_zero_percent (total : Z) :
  0 <= total < 2 ^ 53 -> Gcov.covered_of total (S754_zero false) = Ok 0.
Proof.
  intro Ht. unfold Gcov.covered_of, int_mul_float, float_div_int.
  destruct (float_of_int_succeeds total Ht) as [ft Eft]. rewrite Eft.
  destruct (float_of_int_exact total ft Ht Eft) as [Hb _].
  cbn [rbind].
  replace (float_of_int 100)
    with (Ok (S754_finite false 7036874417766400 (-46)))
    by (vm_compute; reflexivity).
  cbn [rbind].
  destruct ft as [s | s | | [] m e]; cbn [below] in Hb; try contradiction;
    reflexivity.
Qed.

Lemma covered_of_modest (total : Z) (percent : float) :
  0 <= total -> 100 * total < 2 ^ 53 -> below percent (dyadic 100 0) ->
  exists covered, Gcov.covered_of total percent = Ok covered.
Proof.
  intros Ht Hsmall Hp. unfold Gcov.covered_of, int_mul_float, float_div_int.
  destruct (float_of_int_succeeds total ltac:(lia)) as [ft Eft]. rewrite Eft.
  cbn [rbind].
  replace (float_of_int 100)
    with (Ok (S754_finite false 7036874417766400 (-46)))
    by (vm_compute; reflexivity).
  cbn [rbind].
  destruct (float_of_int_exact total ft ltac:(lia) Eft) as [Htb _].
  pose proof (fmul_below ft percent total 100 0 0) as Hxb.
  rewrite Z.add_0_l in Hxb.
  specialize (Hxb ltac:(lia) ltac:(lia) ltac:(lia) ltac:(lia) ltac:(lia)
                  ltac:(lia) Htb Hp).
  pose proof (fdiv_hundred_below (fmul ft percent) (total * 100) total 0
                ltac:(lia) ltac:(lia) ltac:(lia) Hxb) as Hyb.
  destruct (fdiv _ _) as [s | s | | [] m e]; cbn [below] in Hyb;
    try contradiction; cbn [int_of_float]; eauto.
Qed.

(** X20.  The two ends of the scale are recorded exactly: a coverage line
    whose percentage is zero records no covered line, and one whose
    percentage is 100 records as many covered lines as the total, for every
    total below [2 ^ 53 / 100 - 1] that is written with no more digits than
    [int] converts. *)
Theorem zero_and_full_percentages_are_recorded_exactly
    (st : Gcov.scan_state) (line int_part frac_part count name : string) :
  Str.file_pattern_match line = None ->
  Str.coverage_pattern_search line
  = Some ((int_part ++ "." ++ frac_part)%string, count) ->
  every Str.is_digit int_part = true ->
  every Str.is_digit frac_part = true ->
  Gcov.cursor st = Some name ->
  (String.length count <= int_max_str_digits)%nat ->
  let total := Str.digits_value_from 0 count in
  let num := Str.digits_value_from 0 (int_part ++ frac_part) in
  100 * total < 2 ^ 53 - 100 ->
  (num = 0 ->
   Gcov.scan_line st line
   = Ok {| Gcov.current_file := None;
           Gcov.file_coverage :=
             Gcov.store (Gcov.file_coverage st) name 0 total |})
  /\ (num = 100 * 10 ^ Z.of_nat (String.length frac_part) ->
      Gcov.scan_line st line
      = Ok {| Gcov.current_file := None;
              Gcov.file_coverage :=
                Gcov.store (Gcov.file_coverage st) name total total |}).
Proof.
  intros Hfile Hcov Hi Hf Hcur _ total num Hsmall.
  pose proof (coverage_pattern_search_groups _ _ _ Hcov)
    as (ip & fp & E & Hi' & Hin & Hf' & Hfn & Hc & Hcn).
  destruct (numeral_parts_unique _ _ _ _ Hi Hi' E) as [<- <-].
  destruct (scan_line_coverage st line _ _ name Hfile Hcov Hcur)
    as (percent & total' & Hp & _ & Ht & Hpos & ->).
  apply int_of_string_value in Ht. fold total in Ht. subst total'.
  split; intro Hnum.
  - rewrite (float_of_string_groups _ _ Hi Hin Hf Hfn) in Hp. cbv zeta in Hp.
    fold num in Hp. rewrite Hnum in Hp. cbn [Z.eqb] in Hp.
    injection Hp as <-.
    rewrite covered_of_zero_percent by lia. reflexivity.
  - assert (0 < 10 ^ Z.of_nat (String.length frac_part)) as Hden
      by (apply Z.pow_pos_nonneg; lia).
    destruct (float_of_string_bounds int_part frac_part percent 100 100 0
                Hi Hin Hf Hfn ltac:(lia) ltac:(lia) ltac:(lia)
                ltac:(fold num; lia) Hp) as [Hbelow Habove].
    destruct (covered_of_succeeds total percent 100 0 ltac:(lia) ltac:(lia)
                ltac:(lia) ltac:(lia) Hbelow) as [covered Ec].
    pose proof (covered_of_bounds total percent covered 100 100 0
                  ltac:(lia) ltac:(lia) ltac:(lia) ltac:(lia) ltac:(lia)
                  ltac:(lia) Hbelow Habove Ec) as Hb.
    rewrite Z.pow_0_r, !Z.div_1_r in Hb.
    rewrite Z.div_mul in Hb by lia.
    assert ((total * 100 + 99) / 100 = total) as E100.
    { symmetry. apply (Z.div_unique _ 100 total 99); lia. }
    rewrite E100 in Hb. assert (covered = total) as -> by lia.
    rewrite Ec. reflexivity.
Qed.

Lemma zero_and_full_percentages_are_recorded_exactly_witness :
  Gcov.scan_line {| Gcov.current_file := Some "src/foo.c";
                    Gcov.file_coverage := [] |}
                 "Lines executed:100.00% of 375"
  = Ok {| Gcov.current_file := None;
          Gcov.file_coverage := Gcov.store [] "src/foo.c" 375 375 |}.
Proof.
  assert (Str.coverage_pattern_search "Lines executed:100.00% of 375"
          = Some (("100" ++ "." ++ "00")%string, "375")) as Hcov
    by (vm_compute; reflexivity).
  assert (100 * Str.digits_value_from 0 "375" < 2 ^ 53 - 100) as Hsmall
    by (vm_compute; reflexivity).
  assert (String.length "375" <= int_max_str_digits)%nat as Hshort
    by (vm_compute; lia).
  apply (proj2 (zero_and_full_percentages_are_recorded_exactly
                  {| Gcov.current_file := Some "src/foo.c";
                     Gcov.file_coverage := [] |}
                  "Lines executed:100.00% of 375" "100" "00" "375"
                  "src/foo.c" eq_refl Hcov eq_refl eq_refl eq_refl Hshort
                  Hsmall)).
  vm_compute. reflexivity.
Defined.

Lemma scan_line_modest (st : Gcov.scan_state) (line : string) :
  modest_line line -> exists st', Gcov.scan_line st line = Ok st'.
Proof.
  intro Hline.
  destruct (Str.file_pattern_match line) as [name |] eqn:Hfile.
  - unfold Gcov.scan_line. rewrite Hfile. eauto.
  - destruct (Gcov.cursor st) as [name |] eqn:Hcur.
    + destruct (Str.coverage_pattern_search line) as [[g1 g2] |] eqn:Hcov.
      * destruct (scan_line_coverage st line g1 g2 name Hfile Hcov Hcur)
          as (percent & total & Hp & Hnn & Ht & Hpos & ->).
        destruct (Hline g1 g2 Hcov)
          as (int_part & frac_part & -> & Hi & Hf & Hle & Hsmall).
        pose proof (coverage_pattern_search_groups _ _ _ Hcov)
          as (ip & fp & E & Hi' & Hin & Hf' & Hfn & _).
        destruct (numeral_parts_unique _ _ _ _ Hi Hi' E) as [-> ->].
        apply int_of_string_value in Ht. subst total.
        destruct (covered_of_modest _ percent Hpos Hsmall
                    (float_of_string_below _ _ percent Hi Hin Hf Hfn Hle Hp))
          as [covered ->].
        cbn [rbind]. eauto.
      * rewrite scan_line_ignored by auto. eauto.
    + rewrite scan_line_ignored by auto. eauto.
Qed.

Lemma scan_lines_modest (lines : list string) :
  Forall modest_line lines ->
  forall st : Gcov.scan_state, exists st', Gcov.scan_lines st lines = Ok st'.
Proof.
  induction 1 as [| line lines Hline _ IH]; intro st; cbn [Gcov.scan_lines].
  - eauto.
  - destruct (scan_line_modest st line Hline) as [st1 ->]. cbn [rbind].
    apply IH.
Qed.

Lemma parse_output_modest (t : Gcov.table) (output : string) :
  modest_output output -> exists t', Gcov.parse_output t output = Ok t'.
Proof.
  intro H. unfold Gcov.parse_output.
  destruct (scan_lines_modest _ H
              {| Gcov.current_file := None; Gcov.file_coverage := t |})
    as [st ->].
  cbn [rbind]. eauto.
Qed.

Lemma gcda_loop_modest (w : world) (gcda_files : list string) :
  modest_world w gcda_files -> no_other_exception w gcda_files ->
  forall (t : Gcov.table) (l : log),
    exists t', Gcov.gcda_loop w t gcda_files l
               = (Ok t', (l ++ run_warnings w gcda_files)%list).
Proof.
  induction gcda_files as [| gcda_file rest IH]; intros Hw Hno t l;
    cbn [Gcov.gcda_loop].
  - exists t. unfold ret. cbn. rewrite app_nil_r. reflexivity.
  - assert (exists t1, Gcov.gcda_step w t gcda_file l
                       = (Ok t1, (l ++ run_warnings w [gcda_file])%list))
      as [t1 E].
    { pose proof (gcda_step_log w t gcda_file l) as Hlog.
      unfold Gcov.gcda_step in *.
      destruct (run_gcov w gcda_file) as [out err | e | e | e] eqn:Erun.
      - destruct (parse_output_modest t (out ++ err)) as [t1 Et].
        { eapply Hw; [left; reflexivity | exact Erun]. }
        exists t1. unfold lift in *. cbn [snd] in Hlog. rewrite <- Hlog, Et.
        reflexivity.
      - exists t. cbn [snd] in Hlog. rewrite <- Hlog. reflexivity.
      - exists t. cbn [snd] in Hlog. rewrite <- Hlog. reflexivity.
      - exfalso. apply (Hno gcda_file e); [left; reflexivity | exact Erun]. }
    unfold bind. rewrite E.
    destruct (IH (fun f out err Hin => Hw f out err (or_intror Hin))
                 (fun f e Hin => Hno f e (or_intror Hin))
                 t1 (l ++ run_warnings w [gcda_file])%list) as [t' E'].
    exists t'. rewrite E', (run_warnings_cons w gcda_file rest), app_assoc.
    reflexivity.
Qed.

(** X21.  When the annotator prints ASCII text, every percentage it prints
    is at most 100, every line count is below [2 ^ 53 / 100] and written
    with no more digits than [int] converts, and no run of the annotator
    raises an exception other than the two the loop catches, the loop over
    the data files raises nothing: it ends with a table, having written
    only its warnings. *)
Theorem modest_outputs_are_parsed_without_exception (w : world)
    (gcda_files : list string) (t : Gcov.table) (l : log) :
  modest_world w gcda_files -> ascii_outputs w gcda_files ->
  short_counts w gcda_files ->
  no_other_exception w gcda_files ->
  exists t', Gcov.gcda_loop w t gcda_files l
             = (Ok t', (l ++ run_warnings w gcda_files)%list).
Proof. intros Hw _ _ Hno. apply gcda_loop_modest; assumption. Qed.

Lemma modest_outputs_are_parsed_without_exception_witness :
  exists t',
    Gcov.gcda_loop (world_with_annotator ["a.gcda"] annotate_foo) []
                   ["a.gcda"] []
    = (Ok t', ([] ++ run_warnings
                       (world_with_annotator ["a.gcda"] annotate_foo)
                       ["a.gcda"])%list).
Proof.
  apply (modest_outputs_are_parsed_without_exception
           (world_with_annotator ["a.gcda"] annotate_foo) ["a.gcda"] [] []).
  - apply annotate_foo_is_modest.
  - apply annotate_foo_is_ascii.
  - apply annotate_foo_counts_are_short.
  - intros gcda_file e _ H. discriminate H.
Defined.

(** ** The two extractors side by side *)

Lemma table_sum_bounds (items : list (string * (Z * Z))) :
  Forall entry_ok items ->
  0 <= sum (map covered_in items) <= sum (map total_in items).
Proof.
  induction 1 as [| item items Hitem _ IH]; cbn [map sum fold_right];
    [lia |].
  fold (sum (map covered_in items)) (sum (map total_in items)).
  set (C := sum (map covered_in items)) in *.
  set (T := sum (map total_in items)) in *.
  unfold entry_ok in Hitem. unfold covered_in, total_in. lia.
Qed.

Lemma filter_keeps_Forall {A : Type} (P : A -> Prop) (f : A -> bool)
    (xs : list A) :
  Forall P xs -> Forall P (filter f xs).
Proof.
  intro H. apply Forall_forall. intros x Hin. apply filter_In in Hin.
  rewrite Forall_forall in H. apply H. apply Hin.
Qed.

Lemma aggregate_in_range (filters : list string) (t : Gcov.table) (l : log) :
  Forall entry_ok t ->
  exists r l',
    Gcov.aggregate filters t l = (Ok r, l')
    /\ match r with
       | Some pct => in_percent_range pct
       | None => True
       end.
Proof.
  intro Hok. pose proof (aggregate_unfold filters t l) as E. cbv zeta in E.
  rewrite E. clear E.
  pose proof (table_sum_bounds _ (filter_keeps_Forall _ (passes filters) _ Hok))
    as Hb.
  destruct (Z.eqb_spec (sum (map total_in (filter (passes filters) t))) 0)
    as [E0 | Hne].
  - eexists _, _. split; [reflexivity | exact I].
  - destruct (coverage_pct_in_range _ _ Hb ltac:(lia)) as (pct & -> & Hr).
    eexists _, _. split; [reflexivity | exact Hr].
Qed.

(** X22.  When the annotator prints ASCII text, every percentage it prints
    is at most 100, every line count is below [2 ^ 53 / 100] and written
    with no more digits than [int] converts, and nothing raises an
    exception the script does not catch, the gcov extractor raises nothing,
    and what it returns is [None] or a percentage: a float that is not
    negative and at most 100. *)
Theorem gcov_modest_result_is_a_percentage (w : world) (dir : string)
    (filters : list string) (gcda_files : list string) (l : log) :
  rglob_gcda w dir = Ok gcda_files ->
  modest_world w gcda_files -> ascii_outputs w gcda_files ->
  short_counts w gcda_files ->
  no_other_exception w gcda_files ->
  exists r l',
    Gcov.calculate_from_gcov w (Some dir) filters l = (Ok r, l')
    /\ match r with
       | Some pct => in_percent_range pct
       | None => True
       end.
Proof.
  intros Hglob Hw _ _ Hno. unfold Gcov.calculate_from_gcov.
  unfold bind at 1. unfold lift. rewrite Hglob.
  destruct gcda_files as [| gcda_file rest].
  - eexists _, _. split; [reflexivity | exact I].
  - destruct (gcda_loop_modest w _ Hw Hno [] l) as [t E].
    unfold bind. rewrite E. apply aggregate_in_range.
    exact (gcda_loop_ok w _ Hw [] t l _ (Forall_nil _) E).
Qed.

Lemma gcov_modest_result_is_a_percentage_witness :
  exists r l',
    Gcov.calculate_from_gcov (world_with_annotator ["a.gcda"] annotate_foo)
                             (Some "twister-out") ["src/"] []
    = (Ok r, l')
    /\ match r with
       | Some pct => in_percent_range pct
       | None => True
       end.
Proof.
  apply (gcov_modest_result_is_a_percentage
           (world_with_annotator ["a.gcda"] annotate_foo) "twister-out"
           ["src/"] ["a.gcda"] []).
  - reflexivity.
  - apply annotate_foo_is_modest.
  - apply annotate_foo_is_ascii.
  - apply annotate_foo_counts_are_short.
  - intros gcda_file e _ H. discriminate H.
Defined.

Lemma selected_as_record (filters : list string) (item : string * (Z * Z)) :
  selected filters (as_record item)
  = (passes filters item && (0 <? total_in item))%bool.
Proof. reflexivity. Qed.

Lemma sums_agree (filters : list string) (t : Gcov.table) :
  Forall entry_ok t ->
  sum (map total_of (filter (selected filters) (map as_record t)))
  = sum (map total_in (filter (passes filters) t))
  /\ sum (map covered_of (filter (selected filters) (map as_record t)))
     = sum (map covered_in (filter (passes filters) t)).
Proof.
  induction 1 as [| item t Hitem _ [IH1 IH2]]; cbn [map filter].
  - split; reflexivity.
  - rewrite selected_as_record.
    destruct (passes filters item); cbn [andb]; [| split; assumption].
    destruct (Z.ltb_spec 0 (total_in item)) as [Hpos | Hzero];
      cbn [map sum fold_right].
    + fold (sum (map total_of (filter (selected filters) (map as_record t)))).
      fold (sum (map covered_of
                     (filter (selected filters) (map as_record t)))).
      fold (sum (map total_in (filter (passes filters) t))).
      fold (sum (map covered_in (filter (passes filters) t))).
      rewrite IH1, IH2. split; reflexivity.
    + fold (sum (map total_in (filter (passes filters) t))).
      fold (sum (map covered_in (filter (passes filters) t))).
      rewrite IH1, IH2.
      set (C := sum (map covered_in (filter (passes filters) t))).
      set (T := sum (map total_in (filter (passes filters) t))).
      unfold entry_ok in Hitem. unfold covered_in, total_in in *.
      split; lia.
Qed.

(** X23.  The two extractors share their arithmetic: on a table whose
    entries have [0 <= covered <= total], the final loop of the gcov
    extractor returns what the JSON extractor returns for the summary that
    holds the same filenames and counts, whatever the filter. *)
Theorem extractors_agree_on_the_same_counts (w : world) (path : string)
    (filters : list string) (t : Gcov.table) (l l' : log) :
  Forall entry_ok t ->
  json_load w path = Loaded {| files := Some (map as_record t) |} ->
  fst (Gcov.aggregate filters t l)
  = fst (Json.calculate_from_json w path filters l').
Proof.
  intros Hok Hload.
  pose proof (aggregate_unfold filters t l) as E. cbv zeta in E.
  rewrite E. clear E.
  unfold Json.calculate_from_json. rewrite Hload. cbn [Json.dict_get files].
  rewrite json_fold_selected. cbn [app]. rewrite !Z.add_0_l.
  destruct (sums_agree filters t Hok) as [-> ->].
  destruct (_ =? 0); [reflexivity |].
  unfold bind, lift.
  destruct (Json.coverage_pct _ _); reflexivity.
Qed.

Lemma extractors_agree_on_the_same_counts_witness :
  fst (Gcov.aggregate ["src/"] [("src/foo.c", (30, 40)); ("src/x.c", (0, 0))]
         [])
  = fst (Json.calculate_from_json
           (world_with_document
              [record "src/foo.c" 40 30; record "src/x.c" 0 0])
           "coverage_summary.json" ["src/"] []).
Proof.
  apply (extractors_agree_on_the_same_counts
           (world_with_document
              [record "src/foo.c" 40 30; record "src/x.c" 0 0])
           "coverage_summary.json" ["src/"]
           [("src/foo.c", (30, 40)); ("src/x.c", (0, 0))] [] []).
  - apply Forall_cons; [split; discriminate |].
    apply Forall_cons; [split; discriminate | apply Forall_nil].
  - reflexivity.
Defined.

(** ** A header and its coverage line *)

Lemma digits_hold_no_newline (s : string) :
  every Str.is_digit s = true -> every not_newline s = true.
Proof.
  induction s as [| c s IH]; cbn [every]; [reflexivity |].
  intro H. apply andb_true_iff in H as [Hc Hs]. rewrite (IH Hs), andb_true_r.
  unfold not_newline. destruct (Ascii.eqb_spec c "010"%char) as [-> | _];
    [discriminate Hc | reflexivity].
Qed.

(** X24.  The output the annotator prints for one source file, a header
    with the filename and a line with the percentage and the count, is
    parsed into one [store] of that filename: the covered count is
    [int(total * percent / 100)] of the two numerals, and the filename is
    the one between the quotes.  The count has no more digits than [int]
    converts. *)
Theorem header_and_coverage_line_record_one_entry (t : Gcov.table)
    (name int_part frac_part count : string) :
  name <> EmptyString ->
  every not_quote name = true -> every not_newline name = true ->
  every Str.is_digit int_part = true -> int_part <> EmptyString ->
  every Str.is_digit frac_part = true -> frac_part <> EmptyString ->
  every Str.is_digit count = true -> count <> EmptyString ->
  (String.length count <= int_max_str_digits)%nat ->
  Gcov.parse_output t
    (unlines [("File '" ++ name ++ "'")%string;
              ("Lines executed:" ++ int_part ++ "." ++ frac_part ++ "% of "
                 ++ count)%string])
  = rbind (float_of_string (int_part ++ "." ++ frac_part)) (fun percent =>
      rbind (Gcov.covered_of (Str.digits_value_from 0 count) percent)
            (fun covered =>
               Ok (Gcov.store t name covered
                     (Str.digits_value_from 0 count)))).
Proof.
  intros Hne Hq Hnl Hi Hin Hf Hfn Hc Hcn _.
  set (header := ("File '" ++ name ++ "'")%string).
  set (cov_line := ("Lines executed:" ++ int_part ++ "." ++ frac_part
                      ++ "% of " ++ count)%string).
  assert (every not_newline header = true) as Hh.
  { unfold header. rewrite !every_app, Hnl. reflexivity. }
  assert (every not_newline cov_line = true) as Hl.
  { unfold cov_line.
    rewrite !every_app, (digits_hold_no_newline _ Hi),
      (digits_hold_no_newline _ Hf), (digits_hold_no_newline _ Hc).
    reflexivity. }
  assert (Str.split_newline (unlines [header; cov_line])
          = [header; cov_line]) as Hsplit.
  { rewrite unlines_cons by discriminate.
    rewrite (split_newline_line header _ Hh). f_equal.
    apply split_newline_last. exact Hl. }
  assert (Str.file_pattern_match header = Some name) as Hhead.
  { apply file_pattern_match_spec. split; [exact Hne |].
    split; [exact Hq |]. exists EmptyString. reflexivity. }
  assert (Str.coverage_pattern_search cov_line
          = Some ((int_part ++ "." ++ frac_part)%string, count)) as Hcov.
  { pose proof (coverage_pattern_search_line int_part frac_part count
                  EmptyString Hi Hin Hf Hfn Hc Hcn I) as H.
    rewrite append_empty_r in H. exact H. }
  assert (Str.int_of_string count = Ok (Str.digits_value_from 0 count))
    as Hint.
  { unfold Str.int_of_string. apply is_empty_false in Hcn. rewrite Hcn.
    rewrite (every_all_digits _ Hc). reflexivity. }
  assert (Gcov.scan_line {| Gcov.current_file := None;
                            Gcov.file_coverage := t |} header
          = Ok {| Gcov.current_file := Some name;
                  Gcov.file_coverage := t |}) as E1.
  { unfold Gcov.scan_line. rewrite Hhead. reflexivity. }
  assert (Str.file_pattern_match cov_line = None) as Hnone by reflexivity.
  unfold Gcov.parse_output. rewrite Hsplit. cbn [Gcov.scan_lines].
  rewrite E1. cbn [rbind]. unfold Gcov.scan_line.
  rewrite Hnone, Hcov. unfold Gcov.cursor. cbn [Gcov.current_file].
  apply is_empty_false in Hne. rewrite Hne. rewrite Hint.
  destruct (float_of_string _) as [percent | e]; cbn [rbind];
    [| reflexivity].
  destruct (Gcov.covered_of _ percent) as [covered | e]; reflexivity.
Qed.

Lemma header_and_coverage_line_record_one_entry_witness :
  Gcov.parse_output [] (unlines ["File 'src/foo.c'";
                                 "Lines executed:18.40% of 375"])
  = Ok [("src/foo.c", (68, 375))].
Proof.
  etransitivity.
  - apply (header_and_coverage_line_record_one_entry [] "src/foo.c"
             "18" "40" "375");
      solve [discriminate | reflexivity | vm_compute; lia].
  - vm_compute. reflexivity.
Defined.

(** ** The exceptions that can escape *)

Lemma float_of_int_raises (n : Z) (e : exn) :
  float_of_int n = Raise e -> e = OverflowError.
Proof.
  unfold float_of_int. destruct (is_infinite _); [| discriminate].
  intros [= <-]. reflexivity.
Qed.

Lemma covered_of_raises (total : Z) (percent : float) (e : exn) :
  Gcov.covered_of total percent = Raise e ->
  e = OverflowError \/ e = ValueError.
Proof.
  unfold Gcov.covered_of, int_mul_float, float_div_int.
  destruct (float_of_int total) as [ft | e0] eqn:Eft; cbn [rbind].
  - replace (float_of_int 100)
      with (Ok (S754_finite false 7036874417766400 (-46)))
      by (vm_compute; reflexivity).
    cbn [rbind].
    destruct (fdiv _ _) as [s | s | | s m x]; cbn [int_of_float];
      intros [= <-]; auto.
  - intros [= <-]. left. exact (float_of_int_raises _ _ Eft).
Qed.

Lemma scan_line_raises (st : Gcov.scan_state) (line : string) (e : exn) :
  Gcov.scan_line st line = Raise e -> e = OverflowError \/ e = ValueError.
Proof.
  destruct (Str.file_pattern_match line) as [name |] eqn:Hfile.
  - unfold Gcov.scan_line. rewrite Hfile. discriminate.
  - destruct (Gcov.cursor st) as [name |] eqn:Hcur.
    + destruct (Str.coverage_pattern_search line) as [[g1 g2] |] eqn:Hcov.
      * destruct (scan_line_coverage st line g1 g2 name Hfile Hcov Hcur)
          as (percent & total & _ & _ & _ & _ & ->).
        destruct (Gcov.covered_of total percent) as [covered | e0] eqn:Ec;
          [discriminate |].
        cbn [rbind]. intros [= <-]. exact (covered_of_raises _ _ _ Ec).
      * rewrite scan_line_ignored by auto. discriminate.
    + rewrite scan_line_ignored by auto. discriminate.
Qed.

Lemma scan_lines_raises (lines : list string) :
  forall (st : Gcov.scan_state) (e : exn),
    Gcov.scan_lines st lines = Raise e -> e = OverflowError \/ e = ValueError.
Proof.
  induction lines as [| line lines IH]; intros st e; cbn [Gcov.scan_lines];
    [discriminate |].
  destruct (Gcov.scan_line st line) as [st1 | e0] eqn:E; cbn [rbind].
  - apply IH.
  - intros [= <-]. exact (scan_line_raises _ _ _ E).
Qed.

(** X25.  The loop over the data files lets three kinds of exception
    escape and no other: [OverflowError] and [ValueError], from the
    numbers of a coverage line, and whatever a run of the annotator raised
    that is neither a timeout nor a missing program.  In particular the
    parse divides by the constant 100 and never by zero. *)
Theorem exceptions_of_the_data_file_loop (w : world)
    (gcda_files : list string) (t : Gcov.table) (l l' : log) (e : exn) :
  Gcov.gcda_loop w t gcda_files l = (Raise e, l') ->
  e = OverflowError \/ e = ValueError
  \/ exists gcda_file,
       In gcda_file gcda_files /\ run_gcov w gcda_file = RunOtherException e.
Proof.
  revert t l. induction gcda_files as [| gcda_file rest IH]; intros t l;
    cbn [Gcov.gcda_loop]; [discriminate |].
  unfold bind.
  destruct (Gcov.gcda_step w t gcda_file l) as [[t1 | e0] l1] eqn:E.
  - intro H. destruct (IH _ _ H) as [H1 | [H1 | (f & Hin & Hf)]]; auto.
    right. right. exists f. split; [right; exact Hin | exact Hf].
  - intros [= <- <-]. unfold Gcov.gcda_step in E.
    destruct (run_gcov w gcda_file) as [out err | x | x | x] eqn:Erun.
    + unfold lift, Gcov.parse_output in E. injection E as E _.
      destruct (Gcov.scan_lines _ _) as [st | e1] eqn:Es; [discriminate |].
      cbn [rbind] in E. injection E as <-.
      destruct (scan_lines_raises _ _ _ Es); auto.
    + discriminate E.
    + discriminate E.
    + unfold raise in E. injection E as <- _.
      right. right. exists gcda_file. split; [left; reflexivity | exact Erun].
Qed.

Lemma exceptions_of_the_data_file_loop_witness :
  Gcov.gcda_loop
    (world_with_annotator []
       (fun _ => Completed
                   (unlines ["File 'src/foo.c'";
                             ("Lines executed:1.0% of 1" ++ zeros 309)%string])
                   EmptyString))
    [] ["a.gcda"] []
  = (Raise OverflowError, [])
  /\ (OverflowError = OverflowError \/ OverflowError = ValueError
      \/ exists gcda_file,
           In gcda_file ["a.gcda"]
           /\ run_gcov
                (world_with_annotator []
                   (fun _ => Completed
                               (unlines ["File 'src/foo.c'";
                                         ("Lines executed:1.0% of 1"
                                            ++ zeros 309)%string])
                               EmptyString))
                gcda_file
              = RunOtherException OverflowError).
Proof.
  assert (Gcov.gcda_loop
            (world_with_annotator []
               (fun _ => Completed
                           (unlines ["File 'src/foo.c'";
                                     ("Lines executed:1.0% of 1"
                                        ++ zeros 309)%string])
                           EmptyString))
            [] ["a.gcda"] []
          = (Raise OverflowError, [])) as E by (vm_compute; reflexivity).
  split; [exact E |].
  exact (exceptions_of_the_data_file_loop _ ["a.gcda"] [] [] [] _ E).
Defined.

(** X26.  The division of the two sums is guarded: the test
    [total_lines == 0] comes first, so neither extractor ever raises
    [ZeroDivisionError].  Once the summary is loaded, or the table built,
    and the integers the extractor formats (the two sums and, in the gcov
    extractor, the two counts of each entry it counts) are integers the
    interpreter prints (at most 4300 digits), the only exception left is
    the [OverflowError] of a quotient of integers that is too large for a
    float, and then nothing has been written. *)
Theorem division_is_guarded :
  (forall (w : world) (path : string) (filters : list string)
          (data : document) (l l' : log) (e : exn),
      json_load w path = Loaded data ->
      Json.calculate_from_json w path filters l = (Raise e, l') ->
      e <> ZeroDivisionError
      /\ (let chosen :=
            filter (selected filters) (Json.dict_get (files data) []) in
          printable (sum (map covered_of chosen)) ->
          printable (sum (map total_of chosen)) ->
          e = OverflowError /\ l' = l))
  /\ (forall (filters : list string) (t : Gcov.table) (l l' : log) (e : exn),
        Gcov.aggregate filters t l = (Raise e, l') ->
        e <> ZeroDivisionError
        /\ (let counted := filter (passes filters) t in
            Forall (fun item => printable (covered_in item)
                                /\ printable (total_in item)) counted ->
            printable (sum (map covered_in counted)) ->
            printable (sum (map total_in counted)) ->
            e = OverflowError /\ l' = l)).
Proof.
  split.
  - intros w path filters data l l' e Hload.
    unfold Json.calculate_from_json. rewrite Hload.
    destruct (fold_left _ _ _) as [[total_lines covered_lines] matched_files].
    destruct (Z.eqb_spec total_lines 0) as [E | Hne]; [discriminate |].
    unfold bind, lift.
    destruct (Json.coverage_pct covered_lines total_lines) as [v | e0] eqn:Ep;
      [discriminate |].
    intros [= <- <-].
    rewrite (coverage_pct_raises _ _ _ Hne Ep).
    split; [discriminate |]. cbv zeta. intros _ _. split; reflexivity.
  - intros filters t l l' e.
    pose proof (aggregate_unfold filters t l) as E. cbv zeta in E.
    rewrite E. clear E.
    destruct (Z.eqb_spec (sum (map total_in (filter (passes filters) t))) 0)
      as [E | Hne]; [discriminate |].
    destruct (Json.coverage_pct _ _) as [v | e0] eqn:Ep; [discriminate |].
    intros [= <- <-].
    rewrite (coverage_pct_raises _ _ _ Hne Ep).
    split; [discriminate |]. cbv zeta. intros _ _ _. split; reflexivity.
Qed.

(** ** The table as a function of the reports *)

Lemma store_all_app (t : Gcov.table) (rs rs' : list (string * (Z * Z))) :
  store_all t (rs ++ rs') = store_all (store_all t rs) rs'.
Proof. unfold store_all. apply fold_left_app. Qed.

Lemma scan_lines_reports (lines : list string) :
  forall st : Gcov.scan_state,
    rbind (Gcov.scan_lines st lines) (fun st' => Ok (Gcov.file_coverage st'))
    = rbind (reports_of (Gcov.cursor st) lines)
            (fun reports => Ok (store_all (Gcov.file_coverage st) reports)).
Proof.
  induction lines as [| line lines IH]; intro st;
    cbn [Gcov.scan_lines reports_of]; [reflexivity |].
  destruct (Str.file_pattern_match line) as [name |] eqn:Hfile.
  - unfold Gcov.scan_line. rewrite Hfile. cbn [rbind]. rewrite IH.
    unfold Gcov.cursor at 1. cbn [Gcov.current_file Gcov.file_coverage].
    pose proof (file_pattern_match_nonempty _ _ Hfile) as Hne.
    apply is_empty_false in Hne. rewrite Hne. reflexivity.
  - destruct (Gcov.cursor st) as [name |] eqn:Hcur.
    + destruct (Str.coverage_pattern_search line) as [[g1 g2] |] eqn:Hcov.
      * unfold Gcov.scan_line. rewrite Hfile, Hcov, Hcur.
        destruct (float_of_string g1) as [percent | e]; cbn [rbind];
          [| reflexivity].
        destruct (Str.int_of_string g2) as [total | e]; cbn [rbind];
          [| reflexivity].
        destruct (Gcov.covered_of total percent) as [covered | e];
          cbn [rbind]; [| reflexivity].
        rewrite IH. unfold Gcov.cursor at 1.
        cbn [Gcov.current_file Gcov.file_coverage].
        destruct (reports_of None lines) as [reports | e]; reflexivity.
      * rewrite scan_line_ignored by auto. cbn [rbind]. rewrite IH, Hcur.
        reflexivity.
    + rewrite scan_line_ignored by auto. cbn [rbind]. rewrite IH, Hcur.
      destruct (Str.coverage_pattern_search line) as [[g1 g2] |];
        reflexivity.
Qed.

Lemma parse_output_reports (t : Gcov.table) (output : string) :
  Gcov.parse_output t output
  = rbind (reports_of None (Str.split_newline output))
          (fun reports => Ok (store_all t reports)).
Proof.
  unfold Gcov.parse_output.
  exact (scan_lines_reports _
           {| Gcov.current_file := None; Gcov.file_coverage := t |}).
Qed.

(** X27.  The parse of an output is two things in a row that do not
    depend on each other: the reports the output holds, which coverage
    line belongs to which header and what its numbers are, are read without
    a look at the table; then they are stored in their order.  So the
    exception a parse raises, if any, is the same for every table. *)
Theorem parse_reads_the_reports_and_stores_them (t : Gcov.table)
    (output : string) :
  Gcov.parse_output t output
  = rbind (reports_of None (Str.split_newline output))
          (fun reports => Ok (store_all t reports)).
Proof. apply parse_output_reports. Qed.

Lemma gcda_loop_reports (w : world) (gcda_files : list string) :
  forall (t : Gcov.table) (l : log),
    fst (Gcov.gcda_loop w t gcda_files l)
    = rbind (loop_reports w gcda_files)
            (fun reports => Ok (store_all t reports)).
Proof.
  induction gcda_files as [| gcda_file rest IH]; intros t l;
    cbn [Gcov.gcda_loop loop_reports]; [reflexivity |].
  unfold bind, file_reports.
  destruct (run_gcov w gcda_file) as [out err | e | e | e] eqn:Erun.
  - unfold Gcov.gcda_step. rewrite Erun. unfold lift.
    rewrite parse_output_reports.
    destruct (reports_of None _) as [reports | e]; cbn [rbind];
      cbv beta iota; [| reflexivity].
    rewrite IH.
    destruct (loop_reports w rest) as [reports' | e]; cbn [rbind];
      [| reflexivity].
    rewrite store_all_app. reflexivity.
  - rewrite (gcda_step_failed_run w t gcda_file l e (or_introl Erun)).
    cbn [rbind]. rewrite IH.
    destruct (loop_reports w rest) as [reports' | e0]; reflexivity.
  - rewrite (gcda_step_failed_run w t gcda_file l e (or_intror Erun)).
    cbn [rbind]. rewrite IH.
    destruct (loop_reports w rest) as [reports' | e0]; reflexivity.
  - unfold Gcov.gcda_step. rewrite Erun. reflexivity.
Qed.

(** X28.  The table the loop over the data files builds from nothing holds,
    for every source file, the first report with the largest total among
    the reports of all the data files, taken in the order of the data files
    and of the lines; a source file no data file reports is not in the
    table. *)
Theorem table_holds_the_first_largest_report (w : world)
    (gcda_files : list string) (t : Gcov.table) (l l' : log)
    (name : string) :
  Gcov.gcda_loop w [] gcda_files l = (Ok t, l') ->
  exists reports,
    loop_reports w gcda_files = Ok reports
    /\ match Gcov.lookup t name with
       | None => forall v, ~ In (name, v) reports
       | Some (covered, total) =>
           exists before after,
             reports = (before ++ (name, (covered, total)) :: after)%list
             /\ (forall c n, In (name, (c, n)) before -> n < total)
             /\ (forall c n, In (name, (c, n)) after -> n <= total)
       end.
Proof.
  intro H. pose proof (gcda_loop_reports w gcda_files [] l) as E.
  rewrite H in E. cbn [fst] in E.
  destruct (loop_reports w gcda_files) as [reports | e]; [| discriminate].
  cbn [rbind] in E. injection E as ->.
  exists reports. split; [reflexivity |]. apply store_all_first_largest.
Qed.

Lemma table_holds_the_first_largest_report_witness :
  exists reports,
    loop_reports
      (world_with_annotator []
         (fun gcda_file =>
            if String.eqb gcda_file "a.gcda"
            then Completed (unlines ["File 'src/foo.c'";
                                     "Lines executed:50.00% of 40"])
                           EmptyString
            else Completed (unlines ["File 'src/foo.c'";
                                     "Lines executed:75.00% of 40"])
                           EmptyString))
      ["a.gcda"; "b.gcda"]
    = Ok reports
    /\ exists before after,
         reports = (before ++ ("src/foo.c", (20, 40)) :: after)%list
         /\ (forall c n, In ("src/foo.c", (c, n)) before -> n < 40)
         /\ (forall c n, In ("src/foo.c", (c, n)) after -> n <= 40).
Proof.
  assert (Gcov.gcda_loop
            (world_with_annotator []
               (fun gcda_file =>
                  if String.eqb gcda_file "a.gcda"
                  then Completed (unlines ["File 'src/foo.c'";
                                           "Lines executed:50.00% of 40"])
                                 EmptyString
                  else Completed (unlines ["File 'src/foo.c'";
                                           "Lines executed:75.00% of 40"])
                                 EmptyString))
            [] ["a.gcda"; "b.gcda"] []
          = (Ok [("src/foo.c", (20, 40))], [])) as E
    by (vm_compute; reflexivity).
  exact (table_holds_the_first_largest_report _ ["a.gcda"; "b.gcda"]
           [("src/foo.c", (20, 40))] [] [] "src/foo.c" E).
Defined.

Lemma store_all_largest (reports : list (string * (Z * Z))) (name : string) :
  match Gcov.lookup (store_all [] reports) name with
  | None => forall v, ~ In (name, v) reports
  | Some (covered, total) =>
      In (name, (covered, total)) reports
      /\ (forall c n, In (name, (c, n)) reports -> n <= total)
  end.
Proof.
  pose proof (store_all_first_largest reports name) as H.
  destruct (Gcov.lookup (store_all [] reports) name) as [[covered total] |];
    [| exact H].
  destruct H as (before & after & -> & Hb & Ha). split.
  - apply in_or_app. right. left. reflexivity.
  - intros c n Hin. apply in_app_or in Hin as [Hin | [Hin | Hin]].
    + specialize (Hb c n Hin). lia.
    + injection Hin as _ <-. lia.
    + exact (Ha c n Hin).
Qed.

Lemma recorded_total_of_permuted_reports
    (reports reports' : list (string * (Z * Z))) (name : string) :
  Permutation reports reports' ->
  option_map snd (Gcov.lookup (store_all [] reports) name)
  = option_map snd (Gcov.lookup (store_all [] reports') name).
Proof.
  intro Hp.
  pose proof (store_all_largest reports name) as H.
  pose proof (store_all_largest reports' name) as H'.
  destruct (Gcov.lookup (store_all [] reports) name) as [[c n] |];
    destruct (Gcov.lookup (store_all [] reports') name) as [[c' n'] |];
    cbn [option_map snd].
  - destruct H as [Hin Hmax]. destruct H' as [Hin' Hmax'].
    f_equal. apply Z.le_antisymm.
    + apply (Hmax' c). eapply Permutation_in; [exact Hp | exact Hin].
    + apply (Hmax c'). eapply Permutation_in;
        [apply Permutation_sym; exact Hp | exact Hin'].
  - destruct H as [Hin _]. exfalso. apply (H' (c, n)).
    eapply Permutation_in; [exact Hp | exact Hin].
  - destruct H' as [Hin' _]. exfalso. apply (H (c', n')).
    eapply Permutation_in; [apply Permutation_sym; exact Hp | exact Hin'].
  - reflexivity.
Qed.

Lemma loop_reports_permuted (w : world) (files files' : list string) :
  Permutation files files' ->
  forall reports,
    loop_reports w files = Ok reports ->
    exists reports',
      loop_reports w files' = Ok reports' /\ Permutation reports reports'.
Proof.
  induction 1 as [| f files files' _ IH | f g files
                  | files files' files'' _ IH1 _ IH2];
    intros reports; cbn [loop_reports].
  - intros [= <-]. exists []. split; [reflexivity | constructor].
  - destruct (file_reports w f) as [r | e]; cbn [rbind]; [| discriminate].
    destruct (loop_reports w files) as [rs | e]; cbn [rbind];
      [| discriminate].
    intros [= <-]. destruct (IH rs eq_refl) as (rs' & -> & Hp).
    cbn [rbind]. eexists. split; [reflexivity |].
    apply Permutation_app_head. exact Hp.
  - destruct (file_reports w g) as [rg | e]; cbn [rbind]; [| discriminate].
    destruct (file_reports w f) as [rf | e]; cbn [rbind]; [| discriminate].
    destruct (loop_reports w files) as [rs | e]; cbn [rbind];
      [| discriminate].
    intros [= <-]. eexists. split; [reflexivity |].
    rewrite !app_assoc. apply Permutation_app_tail, Permutation_app_comm.
  - intro H. destruct (IH1 _ H) as (r1 & H1 & Hp1).
    destruct (IH2 _ H1) as (r2 & H2 & Hp2).
    exists r2. split; [exact H2 |]. eapply Permutation_trans; eassumption.
Qed.

(** X29.  The total recorded for a source file is the largest total any
    data file reports for it, so it does not depend on the order in which
    the data files are found; the covered count does when two reports share
    the largest total, since the first of them stays. *)
Theorem recorded_total_does_not_depend_on_the_order :
  (forall (w : world) (gcda_files gcda_files' : list string)
          (t t' : Gcov.table) (l1 l1' l2 l2' : log) (name : string),
      Permutation gcda_files gcda_files' ->
      Gcov.gcda_loop w [] gcda_files l1 = (Ok t, l1') ->
      Gcov.gcda_loop w [] gcda_files' l2 = (Ok t', l2') ->
      option_map snd (Gcov.lookup t name)
      = option_map snd (Gcov.lookup t' name))
  /\ Gcov.lookup (store_all [] [("src/foo.c", (20, 40));
                                ("src/foo.c", (30, 40))]) "src/foo.c"
     <> Gcov.lookup (store_all [] [("src/foo.c", (30, 40));
                                   ("src/foo.c", (20, 40))]) "src/foo.c".
Proof.
  split; [| vm_compute; discriminate].
  intros w files files' t t' l1 l1' l2 l2' name Hp H H'.
  pose proof (gcda_loop_reports w files [] l1) as E.
  pose proof (gcda_loop_reports w files' [] l2) as E'.
  rewrite H in E. rewrite H' in E'. cbn [fst] in E, E'.
  destruct (loop_reports w files) as [rs | e] eqn:Ers; [| discriminate].
  destruct (loop_reports_permuted w _ _ Hp rs Ers) as (rs' & Ers' & Hperm).
  rewrite Ers' in E'. cbn [rbind] in E, E'.
  injection E as ->. injection E' as ->.
  apply recorded_total_of_permuted_reports. exact Hperm.
Qed.
